(** * A drawing-and-guessing game server: rooms, rounds, rate limiting

    Shallow embedding of the socket.io server: the [index.js] that uses
    the helper modules [game/antiCheat.js] and [game/wordManager.js].

    - JavaScript objects used as dictionaries ([rooms], [players],
      [scores]) and [Map]s ([cooldowns], [spamCounts], [activeWords]) are
      [gmap]s with string keys.
    - JavaScript numbers that hold integers (timestamps, timers, scores,
      counters) are [Z]; the three places where the source does genuine
      floating-point arithmetic ([calculateScore], [calculateHint],
      [maskWord]) go through binary64 primitive floats.
    - Strings are ASCII strings; socket ids, room codes and object keys
      are strings.
    - [Date.now()] and [Math.random()] are inputs of the handlers.
    - [setInterval] and [setTimeout] callbacks are kept in the state until
      they are cleared or fire; their firing is an event like a message
      from a socket.
    - A handler that raises a [TypeError] returns [Throw]. *)

From Stdlib Require Import ZArith Floats Ascii String.
From stdpp Require Import gmap strings list pretty.

Local Open Scope string_scope.
Local Open Scope list_scope.
Local Open Scope Z_scope.

(** ** JavaScript numbers *)

Module JS.

(** An integer-valued JavaScript number as a binary64 float.  Exact for
    |z| < 2^53, the range in which JavaScript integers are exact; larger
    magnitudes are outside the model. *)
Definition float_of_Z (z : Z) : float :=
  if z <? 0 then PrimFloat.opp (PrimFloat.of_uint63 (Uint63.of_Z (- z)))
  else PrimFloat.of_uint63 (Uint63.of_Z z).

(** [Math.floor] on a finite float, as an integer.  Infinities and NaN,
    which have no integer value, read as 0 here; in the server they arise
    from a division by a [roundTime] of zero and from a reveal percentage
    that is not finite. *)
Definition floor (f : float) : Z :=
  match Prim2SF f with
  | S754_finite s m e =>
      let v := if s then Z.neg m else Z.pos m in
      if 0 <=? e then v * 2 ^ e else v `div` 2 ^ (- e)
  | _ => 0
  end.

(** [Math.floor(Math.random() * n)]: an index below [n] (0 when [n] is 0).
    The draw [k] names which of the [n] outcomes the generator produced. *)
Definition randIndex (n k : nat) : nat :=
  match n with
  | O => O
  | S _ => (k mod n)%nat
  end.

(** [String.prototype.toLowerCase] on the ASCII letters. *)
Definition lowerAscii (c : ascii) : ascii :=
  let n := nat_of_ascii c in
  if ((65 <=? n) && (n <=? 90))%nat then ascii_of_nat (n + 32) else c.

Fixpoint toLowerCase (s : string) : string :=
  match s with
  | EmptyString => EmptyString
  | String c r => String (lowerAscii c) (toLowerCase r)
  end.

(** [s.charAt(i)]: the one-character string at [i], empty out of range. *)
Definition charAt (s : string) (i : nat) : string :=
  match String.get i s with
  | Some c => String c EmptyString
  | None => EmptyString
  end.

(** [s.split('')]. *)
Fixpoint split (s : string) : list string :=
  match s with
  | EmptyString => []
  | String c r => String c EmptyString :: split r
  end.

(** [parts.join(sep)]. *)
Fixpoint join (sep : string) (parts : list string) : string :=
  match parts with
  | [] => EmptyString
  | [p] => p
  | p :: rest => p +:+ sep +:+ join sep rest
  end.

End JS.

(** ** game/antiCheat.js *)

Module AntiCheat.

Inductive ActionType := guess | message.

#[global] Instance ActionType_eq_dec : EqDecision ActionType.
Proof. solve_decision. Defined.

(** [{ guess: 0, message: 0 }] *)
Record Cooldown := { cd_guess : Z; cd_message : Z }.

(** [{ count: 0, lastReset: now }] *)
Record SpamCount := { count : Z; lastReset : Z }.

Record t := {
  cooldowns : gmap string Cooldown;
  spamCounts : gmap string SpamCount
}.

Definition empty : t := {| cooldowns := ∅; spamCounts := ∅ |}.

Definition LAST_GUESS_TIMEOUT : Z := 1000.
Definition SPAM_LIMIT : Z := 5.
Definition SPAM_WINDOW : Z := 5000.

(** [{ allowed, remaining }]; [remaining] is absent when allowed. *)
Record Verdict := { allowed : bool; remaining : option Z }.

(** [playerCooldown[type]] and [playerCooldown[type] = now]. *)
Definition stamp (ty : ActionType) (c : Cooldown) : Z :=
  match ty with guess => cd_guess c | message => cd_message c end.

Definition setStamp (ty : ActionType) (now : Z) (c : Cooldown) : Cooldown :=
  match ty with
  | guess => {| cd_guess := now; cd_message := cd_message c |}
  | message => {| cd_guess := cd_guess c; cd_message := now |}
  end.

(** [if (!m.has(k)) m.set(k, d)] followed by [m.get(k)]. *)
Definition getOrInit {V} (k : string) (d : V) (m : gmap string V)
  : V * gmap string V :=
  match m !! k with
  | Some v => (v, m)
  | None => (d, <[k := d]> m)
  end.

Definition checkCooldown (now : Z) (playerId : string) (ty : ActionType)
    (st : t) : Verdict * t :=
  let '(cd, cds) :=
    getOrInit playerId {| cd_guess := 0; cd_message := 0 |} (cooldowns st) in
  let '(sp0, sps0) :=
    getOrInit playerId {| count := 0; lastReset := now |} (spamCounts st) in
  let cooldownCheck (sp : SpamCount) (sps : gmap string SpamCount) :=
    let remaining := stamp ty cd + LAST_GUESS_TIMEOUT - now in
    if 0 <? remaining then
      ({| allowed := false; remaining := Some remaining |},
       {| cooldowns := cds; spamCounts := sps |})
    else
      ({| allowed := true; remaining := None |},
       {| cooldowns := <[playerId := setStamp ty now cd]> cds;
          spamCounts :=
            <[playerId := {| count := count sp + 1;
                             lastReset := lastReset sp |}]> sps |}) in
  if SPAM_WINDOW <? now - lastReset sp0 then
    let sp := {| count := 0; lastReset := now |} in
    cooldownCheck sp (<[playerId := sp]> sps0)
  else if SPAM_LIMIT <=? count sp0 then
    ({| allowed := false;
        remaining := Some (SPAM_WINDOW - (now - lastReset sp0)) |},
     {| cooldowns := cds; spamCounts := sps0 |})
  else cooldownCheck sp0 sps0.

Definition resetSpamCounter (playerId : string) (st : t) : t :=
  {| cooldowns := cooldowns st;
     spamCounts := delete playerId (spamCounts st) |}.

(** A player's records as the next [checkCooldown] at time [now] will see
    them: missing records read as the initial ones. *)
Definition stampsOf (playerId : string) (st : t) : Cooldown :=
  default {| cd_guess := 0; cd_message := 0 |} (cooldowns st !! playerId).

Definition spamOf (now : Z) (playerId : string) (st : t) : SpamCount :=
  default {| count := 0; lastReset := now |} (spamCounts st !! playerId).

(** Successive calls by one player, with the clock reading of each. *)
Fixpoint checkAll (playerId : string) (acts : list (ActionType * Z))
    (st : t) : list bool * t :=
  match acts with
  | [] => ([], st)
  | (ty, now) :: rest =>
      let '(v, st1) := checkCooldown now playerId ty st in
      let '(vs, st2) := checkAll playerId rest st1 in
      (allowed v :: vs, st2)
  end.

End AntiCheat.

(** ** Outcome of a handler *)

(** A handler either returns, raises a [TypeError], or is still inside
    [maskWord]'s reveal loop when the supplied random draws run out. *)
Inductive Res (A : Type) : Type :=
  | Ok (a : A)
  | Throw (e : string)
  | Spin.
Arguments Ok {A} a.
Arguments Throw {A} e.
Arguments Spin {A}.

#[global] Instance Res_ret : MRet Res := λ _ a, Ok a.
#[global] Instance Res_bind : MBind Res := λ _ _ f m,
  match m with
  | Ok a => f a
  | Throw e => Throw e
  | Spin => Spin
  end.

(** ** game/wordManager.js *)

Module WordManager.

(** [{ timestamp, difficulty }] *)
Record Entry := { timestamp : Z; difficulty : string }.

Definition WORD_LOCK_TIME : Z := 30000.

Section WithWordLists.

(** [require('./words.json')]: the word list of each difficulty. *)
Variable wordLists : gmap string (list string).

(** [wordLists[difficulty] || wordLists.easy], for a [difficulty] that is
    not a name inherited from [Object.prototype]: for such a name the
    source finds the inherited value, not a list (see [Keys] below). *)
Definition listFor (difficulty : string) : option (list string) :=
  match wordLists !! difficulty with
  | Some l => Some l
  | None => wordLists !! "easy"
  end.

Definition getRandomWord (now : Z) (k : nat) (difficulty : string)
    (activeWords : gmap string Entry) : Res (string * gmap string Entry) :=
  match listFor difficulty with
  | None => Throw "TypeError: list is undefined"
  | Some l =>
      match l !! JS.randIndex (length l) k with
      | None => Throw "TypeError: word is undefined"
      | Some word =>
          Ok (word,
              <[JS.toLowerCase word :=
                  {| timestamp := now; difficulty := difficulty |}]>
                activeWords)
      end
  end.

End WithWordLists.

(** [Math.max(1, Math.floor(chars.length * revealPercentage))] *)
Definition revealCount (len : nat) (revealPercentage : float) : Z :=
  Z.max 1 (JS.floor
             (PrimFloat.mul (JS.float_of_Z (Z.of_nat len)) revealPercentage)).

(** The [while (revealed.length < revealCount)] loop; one draw per turn. *)
Fixpoint revealLoop (len : nat) (target : Z) (revealed draws : list nat)
    {struct draws} : option (list nat) :=
  if Z.of_nat (length revealed) <? target then
    match draws with
    | [] => None
    | k :: rest =>
        let pos := JS.randIndex len k in
        revealLoop len target
          (if bool_decide (pos ∈ revealed) then revealed
           else revealed ++ [pos])
          rest
    end
  else Some revealed.

Definition maskWord (word : string) (revealPercentage : float)
    (draws : list nat) : option string :=
  if bool_decide (word = "") then Some ""
  else
    let chars := JS.split word in
    revealed ← revealLoop (length chars)
                 (revealCount (length chars) revealPercentage) [0%nat] draws;
    Some (JS.join " "
            (imap (λ i c, if bool_decide (i ∈ revealed) then c else "_")
               chars)).

(** The default [revealPercentage = 0.3] as the binary64 value nearest
    to it. *)
Definition defaultReveal : float := 0x1.3333333333333p-2%float.

Definition isWordLocked (now : Z) (word : string)
    (activeWords : gmap string Entry) : bool :=
  match activeWords !! JS.toLowerCase word with
  | None => false
  | Some entry => now - timestamp entry <? WORD_LOCK_TIME
  end.

Definition releaseWord (word : string) (activeWords : gmap string Entry)
  : gmap string Entry :=
  delete (JS.toLowerCase word) activeWords.

End WordManager.

(** ** index.js: data *)

(** A roster element [{ id, name, isHost, avatar }]. *)
Module Player.
Record t := { id : string; name : string; isHost : bool; avatar : string }.

Definition setAvatar (a : string) (p : t) : t :=
  {| id := id p; name := name p; isHost := isHost p; avatar := a |}.
End Player.

(** An entry [{ room, name, isHost, avatar }] of the [players] index. *)
Module Info.
Record t := { room : string; name : string; isHost : bool; avatar : string }.

Definition setAvatar (a : string) (i : t) : t :=
  {| room := room i; name := name i; isHost := isHost i; avatar := a |}.

Definition setIsHost (b : bool) (i : t) : t :=
  {| room := room i; name := name i; isHost := b; avatar := avatar i |}.
End Info.

(** The [settings] object a client sends with [startGame]. *)
Module Settings.
Record t := { rounds : Z; roundTime : Z; difficulty : string }.
End Settings.

(** [room.gameState].  [currentDrawer] and its name and avatar are absent
    from the object literal of [startGame]; [word], [timer] and [hint] are
    absent too, and [startRound] assigns them in the same call before
    anything reads them. *)
Module Game.
Record t := {
  rounds : Z;
  currentRound : Z;
  roundTime : Z;
  difficulty : string;
  scores : gmap string Z;
  playersWhoGuessed : list string;
  allPlayers : list string;
  avatars : gmap string string;
  currentDrawer : option string;
  currentDrawerName : option string;
  currentDrawerAvatar : option string;
  word : string;
  drawing : option string;
  timer : Z;
  hint : string
}.

Definition setCurrentRound (n : Z) (g : t) : t :=
  {| rounds := rounds g; currentRound := n; roundTime := roundTime g;
     difficulty := difficulty g; scores := scores g;
     playersWhoGuessed := playersWhoGuessed g; allPlayers := allPlayers g;
     avatars := avatars g; currentDrawer := currentDrawer g;
     currentDrawerName := currentDrawerName g;
     currentDrawerAvatar := currentDrawerAvatar g; word := word g;
     drawing := drawing g; timer := timer g; hint := hint g |}.

Definition setTimerHint (tm : Z) (h : string) (g : t) : t :=
  {| rounds := rounds g; currentRound := currentRound g;
     roundTime := roundTime g; difficulty := difficulty g;
     scores := scores g; playersWhoGuessed := playersWhoGuessed g;
     allPlayers := allPlayers g; avatars := avatars g;
     currentDrawer := currentDrawer g;
     currentDrawerName := currentDrawerName g;
     currentDrawerAvatar := currentDrawerAvatar g; word := word g;
     drawing := drawing g; timer := tm; hint := h |}.

Definition setDrawing (d : option string) (g : t) : t :=
  {| rounds := rounds g; currentRound := currentRound g;
     roundTime := roundTime g; difficulty := difficulty g;
     scores := scores g; playersWhoGuessed := playersWhoGuessed g;
     allPlayers := allPlayers g; avatars := avatars g;
     currentDrawer := currentDrawer g;
     currentDrawerName := currentDrawerName g;
     currentDrawerAvatar := currentDrawerAvatar g; word := word g;
     drawing := d; timer := timer g; hint := hint g |}.

Definition setScoresGuessed (sc : gmap string Z) (who : list string)
    (g : t) : t :=
  {| rounds := rounds g; currentRound := currentRound g;
     roundTime := roundTime g; difficulty := difficulty g;
     scores := sc; playersWhoGuessed := who;
     allPlayers := allPlayers g; avatars := avatars g;
     currentDrawer := currentDrawer g;
     currentDrawerName := currentDrawerName g;
     currentDrawerAvatar := currentDrawerAvatar g; word := word g;
     drawing := drawing g; timer := timer g; hint := hint g |}.

(** The assignments at the top of [startRound]. *)
Definition setRound (drawer : Player.t) (w : string) (g : t) : t :=
  {| rounds := rounds g; currentRound := currentRound g;
     roundTime := roundTime g; difficulty := difficulty g;
     scores := scores g; playersWhoGuessed := [];
     allPlayers := allPlayers g; avatars := avatars g;
     currentDrawer := Some (Player.id drawer);
     currentDrawerName := Some (Player.name drawer);
     currentDrawerAvatar := Some (Player.avatar drawer); word := w;
     drawing := None; timer := roundTime g; hint := "" |}.

(** [scores[id] || 0] *)
Definition scoreOf (id : string) (g : t) : Z := default 0 (scores g !! id).
End Game.

Inductive RoomState := lobby | playing | ended.

#[global] Instance RoomState_eq_dec : EqDecision RoomState.
Proof. solve_decision. Defined.

(** A room object [{ players, host, state, settings, gameState,
    timerInterval }]. *)
Module Room.
Record t := {
  players : list Player.t;
  host : string;
  state : RoomState;
  settings : option Settings.t;
  gameState : option Game.t;
  timerInterval : option nat
}.

Definition setPlayers (ps : list Player.t) (r : t) : t :=
  {| players := ps; host := host r; state := state r;
     settings := settings r; gameState := gameState r;
     timerInterval := timerInterval r |}.

Definition setHost (h : string) (r : t) : t :=
  {| players := players r; host := h; state := state r;
     settings := settings r; gameState := gameState r;
     timerInterval := timerInterval r |}.

Definition setState (st : RoomState) (r : t) : t :=
  {| players := players r; host := host r; state := st;
     settings := settings r; gameState := gameState r;
     timerInterval := timerInterval r |}.

Definition setGameState (g : option Game.t) (r : t) : t :=
  {| players := players r; host := host r; state := state r;
     settings := settings r; gameState := g;
     timerInterval := timerInterval r |}.

Definition setTimerInterval (h : option nat) (r : t) : t :=
  {| players := players r; host := host r; state := state r;
     settings := settings r; gameState := gameState r;
     timerInterval := h |}.

Definition ids (r : t) : list string := Player.id <$> players r.
End Room.

(** ** index.js: what the server sends *)

(** [io.to(room)], [io.to(socket.id)], [socket.to(room)] (the room
    without the sender) and the acknowledgement callback of a request. *)
Inductive Target :=
  | ToRoom (roomCode : string)
  | ToSocket (sid : string)
  | ToOthers (sender roomCode : string)
  | ToCallback (sid : string).

Inductive Payload :=
  | playerUpdate (ps : list Player.t)
  | roundStarted (drawer drawerName drawerAvatar : string)
      (round totalRounds timer : Z)
  | wordUpdate (w : string)
  | hintUpdate (h : string)
  | timerUpdate (tm : Z)
  | correctGuess (player guess : string) (isYou : bool) (score : Z)
  | gameMessage (player playerId text : string) (timestamp : Z)
  | chatMessage (player playerId avatar text : string) (timestamp : Z)
  | roundEnded (scores : gmap string Z) (nextRoundIn : Z)
  | gameEnded (scores : gmap string Z) (ps : list (Player.t * Z))
  | newHost (id : string)
  | lobbyRestarted (ps : list Player.t)
  | drawingData (data : string)
  | clearCanvasCmd
  | replyRoomCode (roomCode : string)
  | replyError (error : string)
  | replySuccess (ps : list Player.t).

#[global] Instance Player_eq_dec : EqDecision Player.t.
Proof. solve_decision. Defined.
#[global] Instance Target_eq_dec : EqDecision Target.
Proof. solve_decision. Defined.
#[global] Instance Payload_eq_dec : EqDecision Payload.
Proof. solve_decision. Defined.

(** The callbacks still scheduled with [setTimeout]. *)
Inductive Timeout :=
  | afterGrace (roomCode : string)   (* () => endRound(roomCode), 2000 *)
  | nextRound (roomCode : string).   (* () => startRound(roomCode), 3000 *)

(** ** index.js: state and handlers *)

Module Server.

(** The module-level state.  Room objects live in [heap] and [rooms] maps
    a code to a reference, because the interval callback of [startRound]
    keeps the room object it was created for, whatever [rooms] says later.
    [intervals] and [timeouts] are the callbacks still scheduled. *)
Record t := {
  heap : list Room.t;
  rooms : gmap string nat;
  players : gmap string Info.t;
  playerAvatars : gmap string string;
  antiCheat : AntiCheat.t;
  activeWords : gmap string WordManager.Entry;
  intervals : gmap nat (nat * string);
  timeouts : gmap nat Timeout;
  nextTimer : nat;
  outbox : list (Target * Payload)
}.

Definition init : t :=
  {| heap := []; rooms := ∅; players := ∅; playerAvatars := ∅;
     antiCheat := AntiCheat.empty; activeWords := ∅; intervals := ∅;
     timeouts := ∅; nextTimer := 0%nat; outbox := [] |}.

Definition setHeap (h : list Room.t) (s : t) : t :=
  {| heap := h; rooms := rooms s; players := players s;
     playerAvatars := playerAvatars s; antiCheat := antiCheat s;
     activeWords := activeWords s; intervals := intervals s;
     timeouts := timeouts s; nextTimer := nextTimer s; outbox := outbox s |}.

Definition setRooms (r : gmap string nat) (s : t) : t :=
  {| heap := heap s; rooms := r; players := players s;
     playerAvatars := playerAvatars s; antiCheat := antiCheat s;
     activeWords := activeWords s; intervals := intervals s;
     timeouts := timeouts s; nextTimer := nextTimer s; outbox := outbox s |}.

Definition setPlayers (p : gmap string Info.t) (s : t) : t :=
  {| heap := heap s; rooms := rooms s; players := p;
     playerAvatars := playerAvatars s; antiCheat := antiCheat s;
     activeWords := activeWords s; intervals := intervals s;
     timeouts := timeouts s; nextTimer := nextTimer s; outbox := outbox s |}.

Definition setPlayerAvatars (a : gmap string string) (s : t) : t :=
  {| heap := heap s; rooms := rooms s; players := players s;
     playerAvatars := a; antiCheat := antiCheat s;
     activeWords := activeWords s; intervals := intervals s;
     timeouts := timeouts s; nextTimer := nextTimer s; outbox := outbox s |}.

Definition setAntiCheat (a : AntiCheat.t) (s : t) : t :=
  {| heap := heap s; rooms := rooms s; players := players s;
     playerAvatars := playerAvatars s; antiCheat := a;
     activeWords := activeWords s; intervals := intervals s;
     timeouts := timeouts s; nextTimer := nextTimer s; outbox := outbox s |}.

Definition setActiveWords (w : gmap string WordManager.Entry) (s : t) : t :=
  {| heap := heap s; rooms := rooms s; players := players s;
     playerAvatars := playerAvatars s; antiCheat := antiCheat s;
     activeWords := w; intervals := intervals s;
     timeouts := timeouts s; nextTimer := nextTimer s; outbox := outbox s |}.

Definition setIntervals (i : gmap nat (nat * string)) (s : t) : t :=
  {| heap := heap s; rooms := rooms s; players := players s;
     playerAvatars := playerAvatars s; antiCheat := antiCheat s;
     activeWords := activeWords s; intervals := i;
     timeouts := timeouts s; nextTimer := nextTimer s; outbox := outbox s |}.

Definition setTimeouts (o : gmap nat Timeout) (s : t) : t :=
  {| heap := heap s; rooms := rooms s; players := players s;
     playerAvatars := playerAvatars s; antiCheat := antiCheat s;
     activeWords := activeWords s; intervals := intervals s;
     timeouts := o; nextTimer := nextTimer s; outbox := outbox s |}.

Definition setNextTimer (n : nat) (s : t) : t :=
  {| heap := heap s; rooms := rooms s; players := players s;
     playerAvatars := playerAvatars s; antiCheat := antiCheat s;
     activeWords := activeWords s; intervals := intervals s;
     timeouts := timeouts s; nextTimer := n; outbox := outbox s |}.

Definition setOutbox (o : list (Target * Payload)) (s : t) : t :=
  {| heap := heap s; rooms := rooms s; players := players s;
     playerAvatars := playerAvatars s; antiCheat := antiCheat s;
     activeWords := activeWords s; intervals := intervals s;
     timeouts := timeouts s; nextTimer := nextTimer s; outbox := o |}.

(** [rooms[roomCode]]: the reference and the object behind it. *)
Definition getRoom (roomCode : string) (s : t) : option (nat * Room.t) :=
  ref ← rooms s !! roomCode;
  room ← heap s !! ref;
  Some (ref, room).

(** A write to a field of the room object behind [ref]. *)
Definition putRoom (ref : nat) (room : Room.t) (s : t) : t :=
  setHeap (<[ref := room]> (heap s)) s.

Definition emit (to : Target) (p : Payload) (s : t) : t :=
  setOutbox (outbox s ++ [(to, p)]) s.

(** [clearInterval(handle)]; nothing happens for [undefined] or for a
    handle that was cleared before. *)
Definition clearInterval (handle : option nat) (s : t) : t :=
  match handle with
  | Some h => setIntervals (delete h (intervals s)) s
  | None => s
  end.

(** [setInterval(callback, 1000)] for the callback of [startRound]: it
    keeps the room object [ref] and the code. *)
Definition setInterval (ref : nat) (roomCode : string) (s : t) : nat * t :=
  let h := nextTimer s in
  (h, setNextTimer (S h)
        (setIntervals (<[h := (ref, roomCode)]> (intervals s)) s)).

Definition setTimeout (cb : Timeout) (s : t) : t :=
  let h := nextTimer s in
  setNextTimer (S h) (setTimeouts (<[h := cb]> (timeouts s)) s).

(** *** Helper functions *)

(** [word[i]] inside a template string. *)
Definition charOrUndefined (w : string) (i : nat) : string :=
  match String.get i w with
  | Some c => String c EmptyString
  | None => "undefined"
  end.

(** The thresholds 0.3, 0.6 and 0.8 are the nearest binary64 values. *)
Definition calculateHint (word : string) (timeElapsed roundTime : Z)
  : string :=
  let progress :=
    PrimFloat.div (JS.float_of_Z timeElapsed) (JS.float_of_Z roundTime) in
  if PrimFloat.ltb progress 0x1.3333333333333p-2 then ""
  else if PrimFloat.ltb progress 0x1.3333333333333p-1 then
    "It has " +:+ pretty (String.length word) +:+ " letters"
  else if PrimFloat.ltb progress 0x1.999999999999ap-1 then
    "Starts with: " +:+ charOrUndefined word 0
  else
    "Starts with: " +:+ charOrUndefined word 0 +:+ "..."
      +:+ charOrUndefined word (String.length word - 1).

(** [Math.floor(maxScore * (timeLeft / roundTime))] with [maxScore = 100]:
    the division is rounded to binary64 first, then the product. *)
Definition calculateScore (timeLeft roundTime : Z) : Z :=
  let maxScore := 100 in
  JS.floor
    (PrimFloat.mul (JS.float_of_Z maxScore)
       (PrimFloat.div (JS.float_of_Z timeLeft) (JS.float_of_Z roundTime))).

(** [Math.floor(score * 0.5)] *)
Definition drawerShare (score : Z) : Z :=
  JS.floor (PrimFloat.mul (JS.float_of_Z score) 0x1p-1).

Definition roomCodeChars : string := "ABCDEFGHJKLMNPQRSTUVWXYZ".

(** The loop runs four times, one [Math.random()] each. *)
Definition generateRoomCode (draws : nat * nat * nat * nat) : string :=
  let '(k0, k1, k2, k3) := draws in
  foldl
    (λ code k,
       code +:+ JS.charAt roomCodeChars
                  (JS.randIndex (String.length roomCodeChars) k))
    "" [k0; k1; k2; k3].

Section Handlers.

Variable wordLists : gmap string (list string).

(** *** Rounds *)

Definition endGame (roomCode : string) (s : t) : Res t :=
  match getRoom roomCode s with
  | None => Ok s
  | Some (ref, room) =>
      match Room.gameState room with
      | None => Throw "TypeError: room.gameState is null"
      | Some gs =>
          let s1 := putRoom ref (Room.setState ended room) s in
          Ok (emit (ToRoom roomCode)
                (gameEnded (Game.scores gs)
                   ((λ p, (p, Game.scoreOf (Player.id p) gs))
                      <$> Room.players room))
                s1)
      end
  end.

Definition endRound (roomCode : string) (s : t) : Res t :=
  match getRoom roomCode s with
  | None => Ok s
  | Some (ref, room) =>
      let s1 := clearInterval (Room.timerInterval room) s in
      match Room.gameState room with
      | None => Throw "TypeError: room.gameState is null"
      | Some gs =>
          let s2 :=
            setActiveWords
              (WordManager.releaseWord (Game.word gs) (activeWords s1)) s1 in
          (* Check if game should end *)
          if Game.rounds gs <=? Game.currentRound gs then endGame roomCode s2
          else
            let gs' := Game.setCurrentRound (Game.currentRound gs + 1) gs in
            let s3 := putRoom ref (Room.setGameState (Some gs') room) s2 in
            let s4 :=
              emit (ToRoom roomCode) (roundEnded (Game.scores gs') 3000) s3 in
            Ok (setTimeout (nextRound roomCode) s4)
      end
  end.

(** [startRound] reads the clock once (in [getRandomWord]) and draws
    twice: the drawer, then the word. *)
Definition startRound (now : Z) (drawerDraw wordDraw : nat)
    (roomCode : string) (s : t) : Res t :=
  match getRoom roomCode s with
  | None => Ok s
  | Some (ref, room) =>
      (* Select random drawer (excluding previous drawer if any) *)
      let previousDrawer := gs ← Room.gameState room; Game.currentDrawer gs in
      let eligiblePlayers :=
        filter (λ p, Some (Player.id p) ≠ previousDrawer)
          (Room.players room) in
      match eligiblePlayers !! JS.randIndex (length eligiblePlayers) drawerDraw,
            Room.gameState room with
      | Some drawer, Some gs =>
          '(word, words) ←
            WordManager.getRandomWord wordLists now wordDraw
              (Game.difficulty gs) (activeWords s);
          let gs' := Game.setRound drawer word gs in
          let '(h, s1) := setInterval ref roomCode (setActiveWords words s) in
          let room' :=
            Room.setTimerInterval (Some h)
              (Room.setGameState (Some gs') room) in
          let s2 := putRoom ref room' s1 in
          let s3 :=
            emit (ToRoom roomCode)
              (roundStarted (Player.id drawer) (Player.name drawer)
                 (Player.avatar drawer) (Game.currentRound gs')
                 (Game.rounds gs') (Game.roundTime gs'))
              s2 in
          (* Send word only to drawer *)
          Ok (emit (ToSocket (Player.id drawer)) (wordUpdate word) s3)
      | None, _ => Throw "TypeError: drawer is undefined"
      | _, None => Throw "TypeError: room.gameState is null"
      end
  end.

(** One firing of the interval callback with handle [h]. *)
Definition tick (h : nat) (s : t) : Res t :=
  match intervals s !! h with
  | None => Ok s
  | Some (ref, roomCode) =>
      match heap s !! ref with
      | None => Ok s
      | Some room =>
          match Room.gameState room with
          | None => Throw "TypeError: room.gameState is null"
          | Some gs =>
              let timer := Game.timer gs - 1 in
              (* Update hint *)
              let newHint :=
                calculateHint (Game.word gs) (Game.roundTime gs - timer)
                  (Game.roundTime gs) in
              let changed := bool_decide (newHint ≠ Game.hint gs) in
              let gs' := Game.setTimerHint timer newHint gs in
              let s1 := putRoom ref (Room.setGameState (Some gs') room) s in
              let s2 :=
                if changed then emit (ToRoom roomCode) (hintUpdate newHint) s1
                else s1 in
              let s3 := emit (ToRoom roomCode) (timerUpdate timer) s2 in
              (* End round when time expires *)
              if timer <=? 0 then
                endRound roomCode (clearInterval (Room.timerInterval room) s3)
              else Ok s3
          end
      end
  end.

(** One firing of a [setTimeout] callback. *)
Definition fire (id : nat) (now : Z) (drawerDraw wordDraw : nat) (s : t)
  : Res t :=
  match timeouts s !! id with
  | None => Ok s
  | Some cb =>
      let s1 := setTimeouts (delete id (timeouts s)) s in
      match cb with
      | afterGrace roomCode => endRound roomCode s1
      | nextRound roomCode => startRound now drawerDraw wordDraw roomCode s1
      end
  end.

(** *** Player management *)

Definition createRoom (sid playerName avatar : string)
    (draws : nat * nat * nat * nat) (s : t) : Res t :=
  let roomCode := generateRoomCode draws in
  let player :=
    {| Player.id := sid; Player.name := playerName; Player.isHost := true;
       Player.avatar := avatar |} in
  let room :=
    {| Room.players := [player]; Room.host := sid; Room.state := lobby;
       Room.settings := None; Room.gameState := None;
       Room.timerInterval := None |} in
  let ref := length (heap s) in
  let s1 :=
    setRooms (<[roomCode := ref]> (rooms s))
      (setHeap (heap s ++ [room]) s) in
  let s2 :=
    setPlayers
      (<[sid := {| Info.room := roomCode; Info.name := playerName;
                   Info.isHost := true; Info.avatar := avatar |}]>
         (players s1)) s1 in
  let s3 := setPlayerAvatars (<[sid := avatar]> (playerAvatars s2)) s2 in
  let s4 := emit (ToCallback sid) (replyRoomCode roomCode) s3 in
  Ok (emit (ToRoom roomCode) (playerUpdate [player]) s4).

Definition joinRoom (sid roomCode playerName avatar : string) (s : t)
  : Res t :=
  match getRoom roomCode s with
  | None => Ok (emit (ToCallback sid) (replyError "Room not found") s)
  | Some (ref, room) =>
      if bool_decide (Room.state room ≠ lobby) then
        Ok (emit (ToCallback sid) (replyError "Game already started") s)
      else if (8 <=? length (Room.players room))%nat then
        Ok (emit (ToCallback sid) (replyError "Room is full") s)
      else
        let player :=
          {| Player.id := sid; Player.name := playerName;
             Player.isHost := false; Player.avatar := avatar |} in
        let roster := Room.players room ++ [player] in
        let s1 := putRoom ref (Room.setPlayers roster room) s in
        let s2 :=
          setPlayers
            (<[sid := {| Info.room := roomCode; Info.name := playerName;
                         Info.isHost := false; Info.avatar := avatar |}]>
               (players s1)) s1 in
        let s3 := setPlayerAvatars (<[sid := avatar]> (playerAvatars s2)) s2 in
        let s4 := emit (ToRoom roomCode) (playerUpdate roster) s3 in
        Ok (emit (ToCallback sid) (replySuccess roster) s4)
  end.

(** [findIndex] then a write to that element: the first roster element
    with the id gets the avatar. *)
Fixpoint updateFirst (sid avatar : string) (ps : list Player.t)
  : option (list Player.t) :=
  match ps with
  | [] => None
  | p :: rest =>
      if bool_decide (Player.id p = sid) then
        Some (Player.setAvatar avatar p :: rest)
      else (p ::.) <$> updateFirst sid avatar rest
  end.

Definition updateAvatar (sid avatar : string) (s : t) : Res t :=
  match players s !! sid with
  | None => Ok s
  | Some info =>
      let s1 := setPlayerAvatars (<[sid := avatar]> (playerAvatars s)) s in
      let s2 :=
        setPlayers (<[sid := Info.setAvatar avatar info]> (players s1)) s1 in
      match getRoom (Info.room info) s2 with
      | None => Ok s2
      | Some (ref, room) =>
          match updateFirst sid avatar (Room.players room) with
          | None => Ok s2
          | Some roster =>
              let s3 := putRoom ref (Room.setPlayers roster room) s2 in
              Ok (emit (ToRoom (Info.room info)) (playerUpdate roster) s3)
          end
      end
  end.

(** *** Game management *)

Definition startGame (sid : string) (settings : Settings.t) (now : Z)
    (drawerDraw wordDraw : nat) (s : t) : Res t :=
  match players s !! sid with
  | None => Ok s
  | Some player =>
      if negb (Info.isHost player) then Ok s
      else
        let roomCode := Info.room player in
        match getRoom roomCode s with
        | None => Ok s
        | Some (ref, room) =>
            if bool_decide (Room.state room ≠ lobby) then Ok s
            else
              let gs :=
                {| Game.rounds := Settings.rounds settings;
                   Game.currentRound := 1;
                   Game.roundTime := Settings.roundTime settings;
                   Game.difficulty := Settings.difficulty settings;
                   Game.scores := ∅;
                   Game.playersWhoGuessed := [];
                   Game.allPlayers := Room.ids room;
                   Game.avatars :=
                     foldl (λ acc p, <[Player.id p := Player.avatar p]> acc)
                       ∅ (Room.players room);
                   Game.currentDrawer := None;
                   Game.currentDrawerName := None;
                   Game.currentDrawerAvatar := None;
                   Game.word := ""; Game.drawing := None; Game.timer := 0;
                   Game.hint := "" |} in
              let room' :=
                {| Room.players := Room.players room;
                   Room.host := Room.host room; Room.state := playing;
                   Room.settings := Some settings;
                   Room.gameState := Some gs;
                   Room.timerInterval := Room.timerInterval room |} in
              startRound now drawerDraw wordDraw roomCode
                (putRoom ref room' s)
        end
  end.

(** *** Gameplay events *)

Definition drawing (sid data : string) (s : t) : Res t :=
  match players s !! sid with
  | None => Ok s
  | Some player =>
      let roomCode := Info.room player in
      match getRoom roomCode s with
      | None => Ok s
      | Some (ref, room) =>
          if bool_decide (Room.state room ≠ playing) then Ok s
          else
            match Room.gameState room with
            | None => Throw "TypeError: room.gameState is null"
            | Some gs =>
                (* Only drawer can send drawing data *)
                if bool_decide (Some sid ≠ Game.currentDrawer gs) then Ok s
                else
                  let gs' := Game.setDrawing (Some data) gs in
                  let s1 :=
                    putRoom ref (Room.setGameState (Some gs') room) s in
                  Ok (emit (ToOthers sid roomCode) (drawingData data) s1)
            end
      end
  end.

Definition clearCanvas (sid : string) (s : t) : Res t :=
  match players s !! sid with
  | None => Ok s
  | Some player =>
      let roomCode := Info.room player in
      match getRoom roomCode s with
      | None => Ok s
      | Some (ref, room) =>
          if bool_decide (Room.state room ≠ playing) then Ok s
          else
            match Room.gameState room with
            | None => Throw "TypeError: room.gameState is null"
            | Some gs =>
                if bool_decide (Some sid ≠ Game.currentDrawer gs) then Ok s
                else Ok (emit (ToRoom roomCode) clearCanvasCmd s)
            end
      end
  end.

(** A property key: [scores[room.gameState.currentDrawer]]. *)
Definition drawerKey (gs : Game.t) : string :=
  default "undefined" (Game.currentDrawer gs).

(** [room.players.length > 2 ? maskWord(room.gameState.word) :
    room.gameState.word]; no value while the reveal loop is still running
    when the draws end. *)
Definition maskedGuessOf (room : Room.t) (gs : Game.t) (draws : list nat)
  : option string :=
  if (2 <? length (Room.players room))%nat then
    WordManager.maskWord (Game.word gs) WordManager.defaultReveal draws
  else Some (Game.word gs).

(** [submitGuess] reads the clock in [checkCooldown]; [maskDraws] are the
    draws [maskWord] consumes when it is called.  The source reads the
    clock once more for the time stamp of a wrong guess; here the stamp is
    the reading of [checkCooldown], and no property below speaks of it. *)
Definition submitGuess (sid guess : string) (now : Z) (maskDraws : list nat)
    (s : t) : Res t :=
  match players s !! sid with
  | None => Ok s
  | Some player =>
      (* Anti-cheat checks *)
      let '(cooldownCheck, ac) :=
        AntiCheat.checkCooldown now sid AntiCheat.guess (antiCheat s) in
      let s := setAntiCheat ac s in
      if negb (AntiCheat.allowed cooldownCheck) then Ok s
      else
        let roomCode := Info.room player in
        match getRoom roomCode s with
        | None => Ok s
        | Some (ref, room) =>
            if bool_decide (Room.state room ≠ playing) then Ok s
            else
              match Room.gameState room with
              | None => Throw "TypeError: room.gameState is null"
              | Some gs =>
                  (* Drawer can't guess *)
                  if bool_decide (Some sid = Game.currentDrawer gs) then Ok s
                  (* Prevent duplicate correct guesses *)
                  else if bool_decide (sid ∈ Game.playersWhoGuessed gs)
                  then Ok s
                  else
                    let guessLower := JS.toLowerCase guess in
                    let wordLower := JS.toLowerCase (Game.word gs) in
                    if bool_decide (guessLower = wordLower) then
                      (* Calculate score *)
                      let score :=
                        calculateScore (Game.timer gs) (Game.roundTime gs) in
                      let scores1 :=
                        <[sid := Game.scoreOf sid gs + score]>
                          (Game.scores gs) in
                      (* Give drawer partial points *)
                      let drawerScore := drawerShare score in
                      let scores2 :=
                        <[drawerKey gs :=
                            default 0 (scores1 !! drawerKey gs)
                            + drawerScore]> scores1 in
                      let guessed := Game.playersWhoGuessed gs ++ [sid] in
                      let gs' := Game.setScoresGuessed scores2 guessed gs in
                      let s1 :=
                        putRoom ref (Room.setGameState (Some gs') room) s in
                      (* Send masked version to other players if >2 players *)
                      maskedGuess ←
                        match maskedGuessOf room gs maskDraws with
                        | Some m => Ok m
                        | None => Spin
                        end;
                      let s2 :=
                        emit (ToSocket sid)
                          (correctGuess (Info.name player) (Game.word gs)
                             true score) s1 in
                      let s3 :=
                        emit (ToOthers sid roomCode)
                          (correctGuess (Info.name player) maskedGuess
                             false score) s2 in
                      (* Check if all players guessed correctly *)
                      let allGuessed :=
                        forallb
                          (λ id, bool_decide (Some id = Game.currentDrawer gs)
                                 || bool_decide (id ∈ guessed))
                          (Game.allPlayers gs) in
                      if allGuessed then
                        Ok (setTimeout (afterGrace roomCode)
                              (clearInterval (Room.timerInterval room) s3))
                      else Ok s3
                    else
                      (* Incorrect guess *)
                      Ok (emit (ToRoom roomCode)
                            (gameMessage (Info.name player) sid guess now) s)
              end
        end
  end.

(** [now] is the clock reading of [checkCooldown].  The source reads the
    clock once more for the time stamp of the message; here the stamp is
    the same reading, and no property below speaks of it. *)
Definition sendChatMessage (sid text : string) (now : Z) (s : t) : Res t :=
  match players s !! sid with
  | None => Ok s
  | Some player =>
      (* Anti-spam checks *)
      let '(cooldownCheck, ac) :=
        AntiCheat.checkCooldown now sid AntiCheat.message (antiCheat s) in
      let s := setAntiCheat ac s in
      if negb (AntiCheat.allowed cooldownCheck) then Ok s
      else
        Ok (emit (ToRoom (Info.room player))
              (chatMessage (Info.name player) sid (Info.avatar player) text
                 now) s)
  end.

Definition playAgain (sid : string) (s : t) : Res t :=
  match players s !! sid with
  | None => Ok s
  | Some player =>
      if negb (Info.isHost player) then Ok s
      else
        let roomCode := Info.room player in
        match getRoom roomCode s with
        | None => Ok s
        | Some (ref, room) =>
            if bool_decide (Room.state room ≠ ended) then Ok s
            else
              let room' :=
                Room.setGameState None (Room.setState lobby room) in
              Ok (emit (ToRoom roomCode) (lobbyRestarted (Room.players room))
                    (putRoom ref room' s))
        end
  end.

Definition disconnect (sid : string) (s : t) : Res t :=
  match players s !! sid with
  | None => Ok s
  | Some player =>
      let roomCode := Info.room player in
      match getRoom roomCode s with
      | None => Ok s
      | Some (ref, room) =>
          (* Remove player *)
          let roster :=
            filter (λ p, Player.id p ≠ sid) (Room.players room) in
          let room1 := Room.setPlayers roster room in
          let s1 := putRoom ref room1 s in
          let s2 := setPlayers (delete sid (players s1)) s1 in
          let s3 := setPlayerAvatars (delete sid (playerAvatars s2)) s2 in
          let s4 :=
            setAntiCheat (AntiCheat.resetSpamCounter sid (antiCheat s3)) s3 in
          match roster with
          | [] =>
              (* Room empty - clean up *)
              Ok (setRooms (delete roomCode (rooms s4)) s4)
          | first :: _ =>
              (* Update remaining players *)
              let s5 := emit (ToRoom roomCode) (playerUpdate roster) s4 in
              (* Handle host transfer *)
              '(room2, s6) ←
                (if bool_decide (sid = Room.host room1) then
                   let newHostId := Player.id first in
                   let room2 := Room.setHost newHostId room1 in
                   match players s5 !! newHostId with
                   | None =>
                       Throw "TypeError: players[newHost.id] is undefined"
                   | Some info =>
                       Ok (room2,
                           emit (ToRoom roomCode) (newHost newHostId)
                             (setPlayers
                                (<[newHostId := Info.setIsHost true info]>
                                   (players s5))
                                (putRoom ref room2 s5)))
                   end
                 else Ok (room1, s5));
              (* Handle drawer disconnection *)
              if bool_decide (Room.state room2 = playing)
                 && bool_decide
                      (Some sid
                       = (gs ← Room.gameState room2; Game.currentDrawer gs))
              then
                endRound roomCode
                  (clearInterval (Room.timerInterval room2) s6)
              else Ok s6
          end
      end
  end.

(** *** The event loop *)

Inductive Event :=
  | EvCreateRoom (sid playerName avatar : string)
      (draws : nat * nat * nat * nat)
  | EvJoinRoom (sid roomCode playerName avatar : string)
  | EvUpdateAvatar (sid avatar : string)
  | EvStartGame (sid : string) (settings : Settings.t) (now : Z)
      (drawerDraw wordDraw : nat)
  | EvDrawing (sid data : string)
  | EvClearCanvas (sid : string)
  | EvSubmitGuess (sid guess : string) (now : Z) (maskDraws : list nat)
  | EvSendChatMessage (sid text : string) (now : Z)
  | EvPlayAgain (sid : string)
  | EvDisconnect (sid : string)
  | EvInterval (handle : nat)
  | EvTimeout (id : nat) (now : Z) (drawerDraw wordDraw : nat).

Definition step (ev : Event) (s : t) : Res t :=
  match ev with
  | EvCreateRoom sid playerName avatar draws =>
      createRoom sid playerName avatar draws s
  | EvJoinRoom sid roomCode playerName avatar =>
      joinRoom sid roomCode playerName avatar s
  | EvUpdateAvatar sid avatar => updateAvatar sid avatar s
  | EvStartGame sid settings now drawerDraw wordDraw =>
      startGame sid settings now drawerDraw wordDraw s
  | EvDrawing sid data => drawing sid data s
  | EvClearCanvas sid => clearCanvas sid s
  | EvSubmitGuess sid guess now maskDraws =>
      submitGuess sid guess now maskDraws s
  | EvSendChatMessage sid text now => sendChatMessage sid text now s
  | EvPlayAgain sid => playAgain sid s
  | EvDisconnect sid => disconnect sid s
  | EvInterval handle => tick handle s
  | EvTimeout id now drawerDraw wordDraw =>
      fire id now drawerDraw wordDraw s
  end.

Fixpoint run (evs : list Event) (s : t) : Res t :=
  match evs with
  | [] => Ok s
  | ev :: rest => s' ← step ev s; run rest s'
  end.

End Handlers.

End Server.

(** ** Vocabulary of the properties *)

Module Props.
Import AntiCheat.

(** The spam record after the window test of [checkCooldown]: a window
    that started more than [SPAM_WINDOW] ago is replaced. *)
Definition rolled (now : Z) (sp : SpamCount) : SpamCount :=
  if SPAM_WINDOW <? now - lastReset sp then {| count := 0; lastReset := now |}
  else sp.

(** Actions of one kind lie at least [LAST_GUESS_TIMEOUT] apart. *)
Fixpoint spaced (acts : list (ActionType * Z)) : Prop :=
  match acts with
  | [] => True
  | (ty, t0) :: rest =>
      Forall (λ a, a.1 = ty → t0 + LAST_GUESS_TIMEOUT ≤ a.2) rest
      ∧ spaced rest
  end.

(** Verdicts of [n] well-spaced actions inside one window that starts
    with [c] actions already counted. *)
Fixpoint verdicts (c : Z) (n : nat) : list bool :=
  match n with
  | O => []
  | S n' =>
      (c <? SPAM_LIMIT)
      :: verdicts (if c <? SPAM_LIMIT then c + 1 else c) n'
  end.

(** The characters a room code must not contain. *)
Definition ambiguous : list ascii := ["I"; "O"; "0"; "1"]%char.

(** A guess that passes every check of [submitGuess] and matches the
    word: [sid] is known, the rate limiter allows the guess, the player's
    room is playing a round drawn by [drawer], and [sid] is neither the
    drawer nor among those who guessed already. *)
Definition GuessAccepted (sid guess : string) (now : Z) (s : Server.t)
    (info : Info.t) (ref : nat) (room : Room.t) (gs : Game.t)
    (drawer : string) : Prop :=
  Server.players s !! sid = Some info
  ∧ allowed (checkCooldown now sid AntiCheat.guess (Server.antiCheat s)).1
    = true
  ∧ Server.getRoom (Info.room info) s = Some (ref, room)
  ∧ Room.state room = playing
  ∧ Room.gameState room = Some gs
  ∧ Game.currentDrawer gs = Some drawer
  ∧ drawer ≠ sid
  ∧ (sid ∉ Game.playersWhoGuessed gs)
  ∧ JS.toLowerCase guess = JS.toLowerCase (Game.word gs).

(** The game-state reasons for which [submitGuess] drops a guess
    silently: no room, room not playing, guesser is the drawer, guesser
    has guessed already. *)
Definition DroppedByGameState (sid : string) (info : Info.t) (s : Server.t)
  : Prop :=
  match Server.getRoom (Info.room info) s with
  | None => True
  | Some (_, room) =>
      Room.state room ≠ playing
      ∨ ∃ gs, Room.gameState room = Some gs
              ∧ (Some sid = Game.currentDrawer gs
                 ∨ sid ∈ Game.playersWhoGuessed gs)
  end.

(** The score of a guess against exact integer arithmetic, and the
    drawer's half of it. *)
Definition scoreOk (T t : Z) : bool :=
  let sc := Server.calculateScore t T in
  ((sc =? (100 * t) `div` T) || (sc =? (100 * t) `div` T - 1))
  && (Server.drawerShare sc =? sc `div` 2).

Definition scoresTable (maxT : Z) : bool :=
  forallb (λ T, forallb (scoreOk T) (seqZ 0 (T + 1))) (seqZ 1 maxT).

(** A word list and a few players to run the server on. *)
Definition sampleWords : gmap string (list string) :=
  {[ "easy" := ["Apple"; "house"] ]}.

Definition settingsOf (rounds roundTime : Z) : Settings.t :=
  {| Settings.rounds := rounds; Settings.roundTime := roundTime;
     Settings.difficulty := "easy" |}.

(** Ann creates room ABCD; Bob and Cy join. *)
Definition lobbyOfThree : list Server.Event :=
  [Server.EvCreateRoom "A" "Ann" "a1" (0, 1, 2, 3)%nat;
   Server.EvJoinRoom "B" "ABCD" "Bob" "b1";
   Server.EvJoinRoom "C" "ABCD" "Cy" "c1"].

(** Ann creates room ABCD; Bob joins. *)
Definition lobbyOfTwo : list Server.Event :=
  [Server.EvCreateRoom "A" "Ann" "a1" (0, 1, 2, 3)%nat;
   Server.EvJoinRoom "B" "ABCD" "Bob" "b1"].

(** The state after a run from the initial state ([init] again where the
    run does not return). *)
Definition stateAfter (evs : list Server.Event) : Server.t :=
  match Server.run sampleWords evs Server.init with
  | Ok s => s
  | _ => Server.init
  end.

(** The payloads sent so far that satisfy [f]. *)
Definition sent (f : Payload → bool) (s : Server.t) : list (Target * Payload) :=
  filter (λ e, f e.2 = true) (Server.outbox s).

Definition isRoundEnded (p : Payload) : bool :=
  match p with roundEnded _ _ => true | _ => false end.

Definition isRoundStarted (p : Payload) : bool :=
  match p with roundStarted _ _ _ _ _ _ => true | _ => false end.

Definition isCorrectGuess (p : Payload) : bool :=
  match p with correctGuess _ _ _ _ => true | _ => false end.

(** Ann starts a game of three rounds in the room of three (she draws
    "Apple"), and the round timer ticks [ticks] times. *)
Definition gameOfThree (roundTime : Z) (ticks : nat) : list Server.Event :=
  lobbyOfThree
  ++ [Server.EvStartGame "A" (settingsOf 3 roundTime) 1000000 0 0]
  ++ replicate ticks (Server.EvInterval 0).

Definition gameOfTwo (roundTime : Z) (ticks : nat) : list Server.Event :=
  lobbyOfTwo
  ++ [Server.EvStartGame "A" (settingsOf 3 roundTime) 1000000 0 0]
  ++ replicate ticks (Server.EvInterval 0).

(** Readings of a live room's round state. *)
Definition gameIn (roomCode : string) (s : Server.t) : option Game.t :=
  r ← Server.getRoom roomCode s; Room.gameState r.2.

Definition scoreIn (roomCode sid : string) (s : Server.t) : option Z :=
  Game.scoreOf sid <$> gameIn roomCode s.

Definition timerIn (roomCode : string) (s : Server.t) : option Z :=
  Game.timer <$> gameIn roomCode s.

Definition roundIn (roomCode : string) (s : Server.t) : option Z :=
  Game.currentRound <$> gameIn roomCode s.

Definition stateIn (roomCode : string) (s : Server.t) : option RoomState :=
  (λ r, Room.state r.2) <$> Server.getRoom roomCode s.

(** *** Membership *)

(** The room named by a player's index entry is live and its roster
    contains the player. *)
Definition IndexSound (s : Server.t) : Prop :=
  ∀ sid info,
    Server.players s !! sid = Some info →
    ∃ ref room,
      Server.getRoom (Info.room info) s = Some (ref, room)
      ∧ sid ∈ Room.ids room.

(** Every member of a live room's roster has an index entry, and the
    entry names that room. *)
Definition RosterIndexed (s : Server.t) : Prop :=
  ∀ roomCode ref room sid,
    Server.getRoom roomCode s = Some (ref, room) →
    sid ∈ Room.ids room →
    ∃ info, Server.players s !! sid = Some info
            ∧ Info.room info = roomCode.

(** No player id is in the rosters of two different live rooms. *)
Definition OneRoomEach (s : Server.t) : Prop :=
  ∀ code1 code2 ref1 ref2 room1 room2 sid,
    Server.getRoom code1 s = Some (ref1, room1) →
    Server.getRoom code2 s = Some (ref2, room2) →
    sid ∈ Room.ids room1 → sid ∈ Room.ids room2 →
    code1 = code2.

(** Live codes name existing room objects, one code per object. *)
Definition RefsValid (s : Server.t) : Prop :=
  (∀ roomCode ref,
     Server.rooms s !! roomCode = Some ref → is_Some (Server.heap s !! ref))
  ∧ (∀ code1 code2 ref,
       Server.rooms s !! code1 = Some ref →
       Server.rooms s !! code2 = Some ref → code1 = code2).

(** A step that leaves membership alone: same live codes, same room in
    every index entry, same ids in every roster. *)
Definition SameMembership (s s' : Server.t) : Prop :=
  Server.rooms s' = Server.rooms s
  ∧ (∀ sid, Info.room <$> Server.players s' !! sid
            = Info.room <$> Server.players s !! sid)
  ∧ (∀ ref, Room.ids <$> Server.heap s' !! ref
            = Room.ids <$> Server.heap s !! ref).

(** [disconnect] half-way: the roster of the room object [ref] and the
    index have lost [sid]. *)
Definition rosterWithout (sid : string) (room : Room.t) : list Player.t :=
  filter (λ p, Player.id p ≠ sid) (Room.players room).

Definition withoutPlayer (sid : string) (ref : nat) (room : Room.t)
    (s : Server.t) : Server.t :=
  Server.setPlayers (delete sid (Server.players s))
    (Server.putRoom ref (Room.setPlayers (rosterWithout sid room) room) s).

(** The code [createRoom] generates is not live. *)
Definition freshCode (s : Server.t) (ev : Server.Event) : Prop :=
  match ev with
  | Server.EvCreateRoom _ _ _ draws =>
      Server.rooms s !! Server.generateRoomCode draws = None
  | _ => True
  end.

(** [createRoom] and [joinRoom] come from a socket that is in no room. *)
Definition newcomer (s : Server.t) (ev : Server.Event) : Prop :=
  match ev with
  | Server.EvCreateRoom sid _ _ _ | Server.EvJoinRoom sid _ _ _ =>
      Server.players s !! sid = None
  | _ => True
  end.

(** The states the server reaches from [init] through events that
    satisfy [ok] and whose handler returns. *)
Inductive Reach (wordLists : gmap string (list string))
    (ok : Server.t → Server.Event → Prop) : Server.t → Prop :=
  | reach_init : Reach wordLists ok Server.init
  | reach_step s ev s' :
      Reach wordLists ok s →
      ok s ev →
      Server.step wordLists ev s = Ok s' →
      Reach wordLists ok s'.

(** Every event of a run satisfies [ok] in the state it is handled in. *)
Fixpoint allOk (wordLists : gmap string (list string))
    (ok : Server.t → Server.Event → Prop) (evs : list Server.Event)
    (s : Server.t) : Prop :=
  match evs with
  | [] => True
  | ev :: rest =>
      ok s ev
      ∧ match Server.step wordLists ev s with
        | Ok s' => allOk wordLists ok rest s'
        | _ => True
        end
  end.

(** Events other than [createRoom], [joinRoom] and [disconnect]. *)
Definition keepsMembership (ev : Server.Event) : Prop :=
  match ev with
  | Server.EvCreateRoom _ _ _ _ | Server.EvJoinRoom _ _ _ _
  | Server.EvDisconnect _ => False
  | _ => True
  end.

(** [maskWord] leaves a position hidden: the number of revealed
    positions stays below the length of the word. *)
Definition revealOk (n : nat) : bool :=
  WordManager.revealCount n WordManager.defaultReveal <? Z.of_nat n.

Definition revealTable (maxLen : nat) : bool :=
  forallb revealOk (seq 2 maxLen).

End Props.

(** ** Calls of several players *)

Module Interleaving.
Import AntiCheat.

(** Calls of [checkCooldown] by any players, in the order they arrive. *)
Fixpoint checkEach (acts : list (string * ActionType * Z)) (st : AntiCheat.t)
  : list bool * AntiCheat.t :=
  match acts with
  | [] => ([], st)
  | (p, ty, now) :: rest =>
      let '(v, st1) := checkCooldown now p ty st in
      let '(vs, st2) := checkEach rest st1 in
      (allowed v :: vs, st2)
  end.

(** The calls of one player among them, and their verdicts. *)
Fixpoint actsOf (p : string) (acts : list (string * ActionType * Z))
  : list (ActionType * Z) :=
  match acts with
  | [] => []
  | (q, ty, now) :: rest =>
      if bool_decide (q = p) then (ty, now) :: actsOf p rest
      else actsOf p rest
  end.

Fixpoint verdictsOf (p : string) (acts : list (string * ActionType * Z))
    (vs : list bool) : list bool :=
  match acts, vs with
  | (q, _, _) :: rest, v :: vs' =>
      if bool_decide (q = p) then v :: verdictsOf p rest vs'
      else verdictsOf p rest vs'
  | _, _ => []
  end.

(** The number of accepted verdicts. *)
Definition accepted (vs : list bool) : nat :=
  length (filter (λ v, v = true) vs).

End Interleaving.

(** ** Object keys *)

Module Keys.

(** The names every JavaScript object inherits from [Object.prototype].
    Looked up in [wordLists] they yield a function, not a list; the model
    of [wordLists] as a map covers the other keys. *)
Definition inherited : list string :=
  ["constructor"; "__proto__"; "hasOwnProperty"; "isPrototypeOf";
   "propertyIsEnumerable"; "toLocaleString"; "toString"; "valueOf";
   "__defineGetter__"; "__defineSetter__"; "__lookupGetter__";
   "__lookupSetter__"].

Definition ownKey (k : string) : bool :=
  forallb (λ n, negb (String.eqb k n)) inherited.

End Keys.

(** ** Tables for the hint and the score *)

Module Tables.
Import Server.

(** The three comparisons of [calculateHint] against the exact
    thresholds 3/10, 6/10 and 8/10 of the round. *)
Definition hintOk (T e : Z) : bool :=
  let progress := PrimFloat.div (JS.float_of_Z e) (JS.float_of_Z T) in
  eqb (PrimFloat.ltb progress 0x1.3333333333333p-2) (10 * e <? 3 * T)
  && eqb (PrimFloat.ltb progress 0x1.3333333333333p-1) (10 * e <? 6 * T)
  && eqb (PrimFloat.ltb progress 0x1.999999999999ap-1) (10 * e <? 8 * T).

Definition hintsTable (maxT : Z) : bool :=
  forallb (λ T, forallb (hintOk T) (seqZ 0 (T + 1))) (seqZ 1 maxT).

(** One more second on the clock never lowers the score; the score is 0
    with no time left and 100 with all of it. *)
Definition scoreStepOk (T t : Z) : bool :=
  (calculateScore t T <=? calculateScore (t + 1) T).

Definition scoreEndsOk (T : Z) : bool :=
  (calculateScore 0 T =? 0) && (calculateScore T T =? 100).

Definition scoreStepsTable (maxT : Z) : bool :=
  forallb (λ T, scoreEndsOk T && forallb (scoreStepOk T) (seqZ 0 T))
    (seqZ 1 maxT).

End Tables.

(** ** Invariants of the room objects *)

Module Invariants.
Import Server.

(** What holds of every room object the server has made: at most eight
    players; a round state exactly when out of the lobby; a host from the
    roster unless the roster is empty; nobody twice among those who
    guessed, and never the drawer. *)
Definition RoomOk (r : Room.t) : Prop :=
  (length (Room.players r) ≤ 8)%nat
  ∧ (Room.state r = lobby ↔ Room.gameState r = None)
  ∧ (Room.players r = [] ∨ Room.host r ∈ Room.ids r)
  ∧ (∀ gs, Room.gameState r = Some gs →
       NoDup (Game.playersWhoGuessed gs)
       ∧ ∀ d, Game.currentDrawer gs = Some d →
              d ∉ Game.playersWhoGuessed gs).

Definition HeapOk (s : t) : Prop := Forall RoomOk (heap s).

(** A room that can be looked up has somebody in it. *)
Definition LiveNonEmpty (s : t) : Prop :=
  ∀ c ref room, getRoom c s = Some (ref, room) → Room.players room ≠ [].

End Invariants.

(** ** Kinds of events *)

Module Events.
Import Server.

(** The events that are messages from a socket, not timer callbacks. *)
Definition fromClient (ev : Event) : Prop :=
  match ev with
  | EvInterval _ | EvTimeout _ _ _ _ => False
  | _ => True
  end.

(** [startGame] asks for a difficulty that is not a name inherited from
    [Object.prototype]. *)
Definition ownKeys (ev : Event) : Prop :=
  match ev with
  | EvStartGame _ settings _ _ _ =>
      Keys.ownKey (Settings.difficulty settings) = true
  | _ => True
  end.

(** No restriction on the events. *)
Definition anyEvent (s : t) (ev : Event) : Prop := True.

(** No code collision, and rooms are created and joined by sockets that
    are in no room. *)
Definition orderly (s : t) (ev : Event) : Prop :=
  Props.freshCode s ev ∧ Props.newcomer s ev.

End Events.

(** ** The life cycle of a room *)

Module Lifecycle.
Import Server.

(** Where a room object is in its life: its state, and whether it has a
    round state. *)
Definition phase (r : Room.t) : RoomState * bool :=
  (Room.state r,
   match Room.gameState r with Some _ => true | None => false end).

(** Every room object is still there and in the same phase. *)
Definition Kept (s s' : t) : Prop :=
  ∀ ref r, heap s !! ref = Some r →
    ∃ r', heap s' !! ref = Some r' ∧ phase r' = phase r.

(** Every room object is still there, in the same phase or moved from a
    phase in [from] to state [to]. *)
Definition Moves (from : RoomState * bool → Prop) (to : RoomState)
    (s s' : t) : Prop :=
  ∀ ref r, heap s !! ref = Some r →
    ∃ r', heap s' !! ref = Some r'
          ∧ (phase r' = phase r ∨ (from (phase r) ∧ Room.state r' = to)).

(** The phases from which a game can end: those with a round state. *)
Definition inRound (ph : RoomState * bool) : Prop := ph.2 = true.

(** The one change of state an event can make. *)
Definition turnOf (ev : Event) : option (RoomState * RoomState) :=
  match ev with
  | EvStartGame _ _ _ _ _ => Some (lobby, playing)
  | EvInterval _ | EvTimeout _ _ _ _ | EvDisconnect _ =>
      Some (playing, ended)
  | EvPlayAgain _ => Some (ended, lobby)
  | _ => None
  end.

End Lifecycle.

(** ** Hosts *)

Module Roles.
Import Server.

(** A step that leaves membership and hosts alone: same live codes, same
    room and host flag in every index entry, same ids and host in every
    room object. *)
Definition SameRoles (s s' : t) : Prop :=
  rooms s' = rooms s
  ∧ (∀ sid, (λ i, (Info.room i, Info.isHost i)) <$> players s' !! sid
            = (λ i, (Info.room i, Info.isHost i)) <$> players s !! sid)
  ∧ (∀ ref, (λ r, (Room.ids r, Room.host r)) <$> heap s' !! ref
            = (λ r, (Room.ids r, Room.host r)) <$> heap s !! ref).

(** The host flag of an index entry is set exactly for the host of the
    room the entry names. *)
Definition HostFlag (s : t) : Prop :=
  ∀ sid info ref room,
    players s !! sid = Some info →
    getRoom (Info.room info) s = Some (ref, room) →
    (Info.isHost info = true ↔ Room.host room = sid).

End Roles.

(** ** Rounds *)

Module Timing.
Import Server.

(** The payloads that announce the timer. *)
Definition isTimerUpdate (p : Payload) : bool :=
  match p with timerUpdate _ => true | _ => false end.

(** The values [from - 1], [from - 2], ..., [from - n]. *)
Fixpoint countdown (from : Z) (n : nat) : list Z :=
  match n with
  | O => []
  | S n' => (from - 1) :: countdown (from - 1) n'
  end.

(** Everybody in the roster taken at [startGame] is the drawer or has
    guessed. *)
Definition everyoneGuessed (drawer : string) (guessed : list string)
    (gs : Game.t) : Prop :=
  Forall (λ id, id = drawer ∨ id ∈ guessed) (Game.allPlayers gs).

End Timing.

(** ** Answered requests *)

Module Answers.
Import Server AntiCheat.

(** The socket, the kind and the clock reading of [checkCooldown] for
    the two events whose handlers consult the rate limiter. *)
Definition limited (ev : Event) : option (string * ActionType * Z) :=
  match ev with
  | EvSubmitGuess sid _ now _ => Some (sid, guess, now)
  | EvSendChatMessage sid _ now => Some (sid, message, now)
  | _ => None
  end.

(** A step that leaves the cooldown stamps alone. *)
Definition SameStamps (s s' : Server.t) : Prop :=
  cooldowns (antiCheat s') = cooldowns (antiCheat s).

(** A step after which no cooldown stamp is older than before. *)
Definition StampsGrow (s s' : Server.t) : Prop :=
  ∀ q k,
    stamp k (stampsOf q (antiCheat s)) ≤ stamp k (stampsOf q (antiCheat s')).

End Answers.

(** * Properties *)

(** ** Rate limiting *)

Section AntiCheatFacts.
Import AntiCheat Props.

(** Every way [checkCooldown] can answer, and what it leaves behind. *)
Lemma checkCooldown_cases now p ty st v st' :
  checkCooldown now p ty st = (v, st') →
  let cd := stampsOf p st in
  let sp := rolled now (spamOf now p st) in
  (∀ q, q ≠ p →
     cooldowns st' !! q = cooldowns st !! q
     ∧ spamCounts st' !! q = spamCounts st !! q)
  ∧ ((allowed v = false
      ∧ cooldowns st' !! p = Some cd
      ∧ spamCounts st' !! p = Some sp
      ∧ (SPAM_LIMIT ≤ count sp ∨ now < stamp ty cd + LAST_GUESS_TIMEOUT))
     ∨ (allowed v = true
        ∧ cooldowns st' !! p = Some (setStamp ty now cd)
        ∧ spamCounts st' !! p
          = Some {| count := count sp + 1; lastReset := lastReset sp |}
        ∧ count sp < SPAM_LIMIT
        ∧ stamp ty cd + LAST_GUESS_TIMEOUT ≤ now)).
Proof.
  unfold checkCooldown, getOrInit, stampsOf, spamOf, rolled,
    SPAM_WINDOW, SPAM_LIMIT, LAST_GUESS_TIMEOUT.
  destruct (cooldowns st !! p) as [cd|] eqn:Hcd;
    destruct (spamCounts st !! p) as [sp|] eqn:Hsp; simpl;
    repeat case_match; intros [= <- <-]; simpl;
    (split; [intros q Hq; by rewrite ?lookup_insert_ne by done|]);
    rewrite ?lookup_insert_eq, ?Hcd, ?Hsp;
    try (left; repeat split; try done; lia);
    try (right; repeat split; try done; simpl; lia).
Qed.
End AntiCheatFacts.

Section RateLimiter.
Import AntiCheat Props.

Lemma checkCooldown_rejected now p ty st v st' :
  checkCooldown now p ty st = (v, st') →
  allowed v = false →
  stampsOf p st' = stampsOf p st
  ∧ spamOf now p st' = rolled now (spamOf now p st).
Proof.
  intros Hc Hv. apply checkCooldown_cases in Hc as [_ [H|H]].
  - destruct H as (_ & Hcd & Hsp & _). unfold stampsOf, spamOf in *.
    by rewrite Hcd, Hsp.
  - destruct H as [Hv' _]. congruence.
Qed.

Lemma checkCooldown_accepted now p ty st v st' :
  checkCooldown now p ty st = (v, st') →
  allowed v = true →
  stampsOf p st' = setStamp ty now (stampsOf p st)
  ∧ spamOf now p st'
    = {| count := count (rolled now (spamOf now p st)) + 1;
         lastReset := lastReset (rolled now (spamOf now p st)) |}.
Proof.
  intros Hc Hv. apply checkCooldown_cases in Hc as [_ [H|H]].
  - destruct H as [Hv' _]. congruence.
  - destruct H as (_ & Hcd & Hsp & _). unfold stampsOf, spamOf in *.
    by rewrite Hcd, Hsp.
Qed.

Lemma stamp_setStamp ty now cd : stamp ty (setStamp ty now cd) = now.
Proof. by destruct ty. Qed.

Lemma stamp_setStamp_ne ty ty' now cd :
  ty ≠ ty' → stamp ty' (setStamp ty now cd) = stamp ty' cd.
Proof. by destruct ty, ty'. Qed.

(** Inside one window, with same-kind actions a second apart, the first
    [SPAM_LIMIT - c] actions pass and all later ones are refused. *)
Lemma checkAll_in_window p t0 acts : ∀ st cd c,
  cooldowns st !! p = Some cd →
  spamCounts st !! p = Some {| count := c; lastReset := t0 |} →
  Forall (λ a, a.2 - t0 ≤ SPAM_WINDOW) acts →
  Forall (λ a, stamp a.1 cd + LAST_GUESS_TIMEOUT ≤ a.2) acts →
  spaced acts →
  (checkAll p acts st).1 = verdicts c (length acts).
Proof.
  induction acts as [|[ty t] rest IH]; intros st cd c Hcd Hsp Hwin Hst Hspc;
    [done|].
  simpl. destruct (checkCooldown t p ty st) as [v st1] eqn:Hc.
  destruct (checkAll p rest st1) as [vs st2] eqn:Hrest. simpl.
  inversion Hwin as [|? ? Hw1 Hw2]; subst.
  inversion Hst as [|? ? Hs1 Hs2]; subst.
  destruct Hspc as [Hsp1 Hsp2]. simpl in *.
  apply checkCooldown_cases in Hc as [_ Hc].
  unfold stampsOf, spamOf, rolled in Hc. rewrite Hcd, Hsp in Hc. simpl in Hc.
  assert ((SPAM_WINDOW <? t - t0) = false) as Hno by (apply Z.ltb_ge; lia).
  rewrite Hno in Hc. simpl in Hc.
  destruct Hc as [(Hv & Hcd1 & Hsp1' & Hwhy)|(Hv & Hcd1 & Hsp1' & Hlt & _)].
  - destruct Hwhy as [Hfull|Hcool]; [|unfold LAST_GUESS_TIMEOUT in *; lia].
    assert ((c <? SPAM_LIMIT) = false) as -> by (apply Z.ltb_ge; lia).
    rewrite Hv. f_equal.
    specialize (IH st1 cd c Hcd1 Hsp1' Hw2 Hs2 Hsp2). by rewrite Hrest in IH.
  - assert ((c <? SPAM_LIMIT) = true) as -> by (apply Z.ltb_lt; lia).
    rewrite Hv. f_equal.
    assert (Forall (λ a, stamp a.1 (setStamp ty t cd) + LAST_GUESS_TIMEOUT ≤ a.2)
              rest) as Hs3.
    { rewrite Forall_forall in *. intros [ty' t'] Hin. simpl.
      destruct (decide (ty' = ty)) as [->|Hne].
      - rewrite stamp_setStamp. by apply (Hsp1 (ty, t')).
      - rewrite stamp_setStamp_ne by done. by apply (Hs2 (ty', t')). }
    specialize (IH st1 _ (c + 1) Hcd1 Hsp1' Hw2 Hs3 Hsp2).
    by rewrite Hrest in IH.
Qed.

(** Six well-spaced actions of a fresh player inside one window. *)
Lemma six_actions_fresh p st ty0 t0 rest :
  cooldowns st !! p = None →
  spamCounts st !! p = None →
  length rest = 5%nat →
  LAST_GUESS_TIMEOUT ≤ t0 →
  Forall (λ a, t0 ≤ a.2 ≤ t0 + SPAM_WINDOW) rest →
  spaced ((ty0, t0) :: rest) →
  (checkAll p ((ty0, t0) :: rest) st).1
  = [true; true; true; true; true; false].
Proof.
  intros Hcd Hsp Hlen Ht0 Hwin [Hsp1 Hsp2].
  simpl. destruct (checkCooldown t0 p ty0 st) as [v st1] eqn:Hc.
  destruct (checkAll p rest st1) as [vs st2] eqn:Hrest. simpl.
  apply checkCooldown_cases in Hc as [_ Hc].
  unfold stampsOf, spamOf, rolled in Hc. rewrite Hcd, Hsp in Hc. simpl in Hc.
  assert ((SPAM_WINDOW <? t0 - t0) = false) as Hno
    by (apply Z.ltb_ge; unfold SPAM_WINDOW; lia).
  rewrite Hno in Hc. simpl in Hc.
  destruct Hc as [(_ & _ & _ & Hwhy)|(Hv & Hcd1 & Hsp1' & _)].
  { unfold SPAM_LIMIT, LAST_GUESS_TIMEOUT in *. destruct ty0; simpl in *; lia. }
  rewrite Hv.
  pose proof (checkAll_in_window p t0 rest st1 _ 1 Hcd1 Hsp1') as IH.
  rewrite Hrest, Hlen in IH. simpl in IH. rewrite IH; [done| | |done].
  - eapply Forall_impl; [exact Hwin|]. simpl. intros; lia.
  - rewrite Forall_forall in *. intros [ty' t'] Hin. simpl.
    destruct (decide (ty' = ty0)) as [->|Hne].
    + rewrite stamp_setStamp. by apply (Hsp1 (ty0, t')).
    + rewrite stamp_setStamp_ne by done.
      pose proof (Hwin _ Hin) as Hb. simpl in Hb.
      unfold LAST_GUESS_TIMEOUT in *. destruct ty'; simpl; lia.
Qed.

(** After an accepted action, the same kind is refused for the next 999
    milliseconds, whatever the burst count. *)
Lemma cooldown_after_accept now p ty st v st' d v2 st2 :
  checkCooldown now p ty st = (v, st') →
  allowed v = true →
  0 ≤ d < LAST_GUESS_TIMEOUT →
  checkCooldown (now + d) p ty st' = (v2, st2) →
  allowed v2 = false.
Proof.
  intros Hc Hv Hd Hc2.
  apply checkCooldown_accepted in Hc as [Hcd _]; [|done].
  apply checkCooldown_cases in Hc2 as [_ [H|H]]; [by destruct H|].
  destruct H as (_ & _ & _ & _ & Hle).
  rewrite Hcd, stamp_setStamp in Hle. lia.
Qed.

End RateLimiter.

Section RateLimiterClaims.
Import AntiCheat Props.

(** C5, as stated, fails: after an accepted guess at 10000 and the reset
    done on disconnect, the per-kind timestamp is still there, and a guess
    at 10500 is refused although a first-ever guess at 10500 passes. *)
Lemma reset_keeps_cooldown_stamps :
  let st1 := (checkCooldown 10000 "p" guess AntiCheat.empty).2 in
  let st2 := resetSpamCounter "p" st1 in
  cooldowns st2 !! "p" = Some {| cd_guess := 10000; cd_message := 0 |}
  ∧ allowed (checkCooldown 10500 "p" guess st2).1 = false
  ∧ allowed (checkCooldown 10500 "p" guess AntiCheat.empty).1 = true.
Proof. vm_compute. done. Qed.

(** C5 (amended): [resetSpamCounter] removes the player's burst/spam
    window record and nothing else: the per-action-kind timestamps of
    every player and the spam records of the other players stay.  A later
    action of that player therefore starts a new spam window, and is
    accepted exactly when the kept timestamp of its kind is at least
    1000 ms old. *)
Theorem resetSpamCounter_clears_spam_only p st :
  spamCounts (resetSpamCounter p st) !! p = None
  ∧ cooldowns (resetSpamCounter p st) = cooldowns st
  ∧ (∀ q, q ≠ p →
       spamCounts (resetSpamCounter p st) !! q = spamCounts st !! q)
  ∧ ∀ now ty,
      allowed (checkCooldown now p ty (resetSpamCounter p st)).1
      = bool_decide (stamp ty (stampsOf p st) + LAST_GUESS_TIMEOUT ≤ now).
Proof.
  split_and!.
  - apply lookup_delete_eq.
  - done.
  - intros q Hq. simpl. by rewrite lookup_delete_ne.
  - intros now ty.
    destruct (checkCooldown now p ty (resetSpamCounter p st)) as [v st']
      eqn:Hc.
    apply checkCooldown_cases in Hc as [_ Hc].
    unfold stampsOf, spamOf, rolled in Hc. simpl in Hc.
    rewrite lookup_delete_eq in Hc. simpl in Hc.
    replace (SPAM_WINDOW <? now - now) with false in Hc
      by (symmetry; apply Z.ltb_ge; unfold SPAM_WINDOW; lia).
    simpl in Hc. unfold stampsOf, SPAM_LIMIT in *. simpl.
    destruct Hc as [(Hv & _ & _ & Hwhy)|(Hv & _ & _ & _ & Hle)];
      rewrite Hv; symmetry.
    + apply bool_decide_eq_false. lia.
    + by apply bool_decide_eq_true.
Qed.

(** C7, as stated, fails in two places.  A refused action can change the
    burst counter: with two actions counted and the window expired, a
    message 501 ms after the previous message is refused by the cooldown,
    yet the counter has gone from 2 to 0.  And the second of two same-kind
    actions 999 ms apart can pass: the first one (at 14002) was refused
    because the burst budget was spent, and by 15001 the window is over. *)
Lemma rejected_action_resets_burst_counter :
  (let st := (checkAll "p" [(guess, 10000); (message, 14500)]
                AntiCheat.empty).2 in
   let r := checkCooldown 15001 "p" message st in
   allowed r.1 = false
   ∧ count (spamOf 15001 "p" st) = 2
   ∧ count (spamOf 15001 "p" r.2) = 0)
  ∧ (let st := (checkAll "p"
                  [(guess, 10000); (message, 10500); (guess, 11000);
                   (message, 11500); (guess, 12000)] AntiCheat.empty).2 in
     let r1 := checkCooldown 14002 "p" message st in
     let r2 := checkCooldown (14002 + 999) "p" message r1.2 in
     allowed r1.1 = false ∧ allowed r2.1 = true).
Proof. vm_compute. done. Qed.

(** C7 (amended): (a) six actions of a fresh player inside one window
    (clock at least 1000), same-kind actions at least 1000 ms apart, give
    five accepted results followed by one refused; (b) when an action is
    accepted at [now], an action of the same kind at [now + d], [d] up to
    999 ms, is refused whatever the burst count; (c) a refused action
    leaves the per-kind timestamps as they were and never increments the
    burst counter (the counter is unchanged, or reset to 0 together with
    the window start when the window had expired), while an accepted
    action sets the timestamp of its kind to [now] and increments the
    counter of the current window by one. *)
Theorem checkCooldown_budget :
  (∀ p st ty0 t0 rest,
     cooldowns st !! p = None →
     spamCounts st !! p = None →
     length rest = 5%nat →
     LAST_GUESS_TIMEOUT ≤ t0 →
     Forall (λ a, t0 ≤ a.2 ≤ t0 + SPAM_WINDOW) rest →
     spaced ((ty0, t0) :: rest) →
     (checkAll p ((ty0, t0) :: rest) st).1
     = [true; true; true; true; true; false])
  ∧ (∀ now p ty st d,
       allowed (checkCooldown now p ty st).1 = true →
       0 ≤ d ≤ 999 →
       allowed
         (checkCooldown (now + d) p ty (checkCooldown now p ty st).2).1
       = false)
  ∧ (∀ now p ty st,
       let r := checkCooldown now p ty st in
       let sp := rolled now (spamOf now p st) in
       if allowed r.1 then
         stampsOf p r.2 = setStamp ty now (stampsOf p st)
         ∧ spamOf now p r.2
           = {| count := count sp + 1; lastReset := lastReset sp |}
       else
         stampsOf p r.2 = stampsOf p st
         ∧ spamOf now p r.2 = sp
         ∧ (sp = spamOf now p st
            ∨ sp = {| count := 0; lastReset := now |})).
Proof.
  split_and!.
  - apply six_actions_fresh.
  - intros now p ty st d Hv Hd.
    destruct (checkCooldown now p ty st) as [v st'] eqn:Hc.
    destruct (checkCooldown (now + d) p ty st') as [v2 st2] eqn:Hc2.
    simpl in *. rewrite Hc2. simpl.
    eapply cooldown_after_accept; [exact Hc|done| |exact Hc2].
    unfold LAST_GUESS_TIMEOUT. lia.
  - intros now p ty st.
    destruct (checkCooldown now p ty st) as [v st'] eqn:Hc. simpl.
    destruct (allowed v) eqn:Hv.
    + by apply (checkCooldown_accepted _ _ _ _ _ _ Hc).
    + destruct (checkCooldown_rejected _ _ _ _ _ _ Hc Hv) as [H1 H2].
      split_and!; [done..|]. unfold rolled. case_match; auto.
Qed.

(** The six-action statement at a concrete schedule: guesses and messages
    alternating every 500 ms from 10000 on. *)
Lemma checkCooldown_budget_witness :
  let acts := [(message, 10500); (guess, 11000); (message, 11500);
               (guess, 12000); (message, 12500)] in
  (cooldowns AntiCheat.empty !! "p" = None
   ∧ LAST_GUESS_TIMEOUT ≤ 10000
   ∧ spaced ((guess, 10000) :: acts))
  ∧ (checkAll "p" ((guess, 10000) :: acts) AntiCheat.empty).1
    = [true; true; true; true; true; false].
Proof.
  intros acts.
  assert (spaced ((guess, 10000) :: acts)) as Hsp.
  { unfold acts, LAST_GUESS_TIMEOUT. simpl.
    repeat split; repeat constructor; simpl; intros; try done; lia. }
  split; [split_and!; [done| unfold LAST_GUESS_TIMEOUT; lia | exact Hsp]|].
  apply (proj1 checkCooldown_budget); try done.
  all: try (unfold LAST_GUESS_TIMEOUT; lia).
  unfold acts, SPAM_WINDOW. repeat constructor; simpl; lia.
Defined.

End RateLimiterClaims.

(** ** Room codes *)

Section RoomCodes.
Import Server Props.

Lemma randIndex_lt n k : (0 < n)%nat → (JS.randIndex n k < n)%nat.
Proof.
  intros Hn. unfold JS.randIndex. destruct n as [|n]; [lia|].
  apply Nat.mod_upper_bound. lia.
Qed.

Lemma roomCode_char k :
  ∃ c, JS.charAt roomCodeChars
         (JS.randIndex (String.length roomCodeChars) k)
       = String c EmptyString
       ∧ c ∈ list_ascii_of_string roomCodeChars
       ∧ c ∉ ambiguous.
Proof.
  pose proof (randIndex_lt (String.length roomCodeChars) k) as Hlt.
  change (String.length roomCodeChars) with 24%nat in *.
  specialize (Hlt ltac:(lia)).
  set (i := JS.randIndex 24 k) in *. clearbody i.
  do 24 (destruct i as [|i];
         [eexists; split; [reflexivity|];
          split; apply (bool_decide_unpack _); by vm_compute|]).
  lia.
Qed.

(** C8, as stated, fails: a second [createRoom] whose draws give the code
    of a live room answers with that same code; nothing is regenerated,
    the entry of the live room is overwritten, and the first player's
    index entry now names a room whose roster is the second player's. *)
Lemma createRoom_reuses_live_code :
  match createRoom "A" "Ann" "a" (0, 0, 0, 0)%nat init with
  | Ok s1 =>
      rooms s1 !! "AAAA" = Some 0%nat
      ∧ match createRoom "B" "Bob" "b" (0, 0, 0, 0)%nat s1 with
        | Ok s2 =>
            drop 2 (outbox s2)
            = [(ToCallback "B", replyRoomCode "AAAA");
               (ToRoom "AAAA",
                playerUpdate
                  [{| Player.id := "B"; Player.name := "Bob";
                      Player.isHost := true; Player.avatar := "b" |}])]
            ∧ rooms s2 !! "AAAA" = Some 1%nat
            ∧ (Info.room <$> players s2 !! "A") = Some "AAAA"
            ∧ ((λ r, Room.ids r.2) <$> getRoom "AAAA" s2) = Some ["B"]
        | _ => False
        end
  | _ => False
  end.
Proof.
  vm_compute. by split_and!.
Qed.

(** C8 (amended): for every [createRoom] call the returned room code is a
    4-character string over the 24-letter alphabet, which has none of I,
    O, 0 and 1.  The code is not compared with the live codes: the call
    always succeeds with the generated code and binds it to the new room
    (creator as sole member and host, state lobby), replacing the entry
    of a live room that had the same code. *)
Theorem createRoom_code_shape :
  (∀ draws, ∃ c0 c1 c2 c3,
     generateRoomCode draws
     = String c0 (String c1 (String c2 (String c3 EmptyString)))
     ∧ Forall (λ c, c ∈ list_ascii_of_string roomCodeChars ∧ c ∉ ambiguous)
         [c0; c1; c2; c3])
  ∧ (∀ sid playerName avatar draws s, ∃ s',
       createRoom sid playerName avatar draws s = Ok s'
       ∧ (ToCallback sid, replyRoomCode (generateRoomCode draws)) ∈ outbox s'
       ∧ getRoom (generateRoomCode draws) s'
         = Some (length (heap s),
                 {| Room.players :=
                      [{| Player.id := sid; Player.name := playerName;
                          Player.isHost := true; Player.avatar := avatar |}];
                    Room.host := sid; Room.state := lobby;
                    Room.settings := None; Room.gameState := None;
                    Room.timerInterval := None |})).
Proof.
  split.
  - intros [[[k0 k1] k2] k3]. unfold generateRoomCode. cbn [foldl].
    destruct (roomCode_char k0) as (c0 & -> & H0).
    destruct (roomCode_char k1) as (c1 & -> & H1).
    destruct (roomCode_char k2) as (c2 & -> & H2).
    destruct (roomCode_char k3) as (c3 & -> & H3).
    exists c0, c1, c2, c3. split; [done|].
    repeat (apply Forall_cons; split; [done|]). apply Forall_nil_2.
  - intros sid playerName avatar draws s. eexists. split; [reflexivity|].
    split.
    + simpl. set_solver.
    + unfold getRoom. simpl. rewrite lookup_insert_eq. simpl.
      rewrite lookup_app_r by done. by rewrite Nat.sub_diag.
Qed.

End RoomCodes.

(** ** Reading and writing rooms *)

Section ServerBasics.
Import Server.

Lemma getRoom_Some roomCode s ref room :
  getRoom roomCode s = Some (ref, room)
  ↔ rooms s !! roomCode = Some ref ∧ heap s !! ref = Some room.
Proof.
  unfold getRoom. split.
  - destruct (rooms s !! roomCode) as [r|]; simpl; [|done].
    destruct (heap s !! r) as [rm|] eqn:Hh; simpl; [|done].
    by intros [= <- <-].
  - intros [-> Hh]. simpl. by rewrite Hh.
Qed.

Lemma getRoom_putRoom roomCode s ref room room' :
  getRoom roomCode s = Some (ref, room) →
  getRoom roomCode (putRoom ref room' s) = Some (ref, room').
Proof.
  rewrite !getRoom_Some. intros [Hr Hh]. split; [done|]. simpl.
  apply list_lookup_insert_eq. by eapply lookup_lt_Some.
Qed.

End ServerBasics.

(** ** Masked words *)

Section Masking.
Import WordManager Props.

Lemma string_length_app (a b : string) :
  String.length (a +:+ b) = (String.length a + String.length b)%nat.
Proof. induction a as [|c a IH]; simpl; [done|]. by rewrite IH. Qed.

Lemma split_length w : length (JS.split w) = String.length w.
Proof. induction w as [|c w IH]; simpl; [done|]. by rewrite IH. Qed.

Lemma split_singletons w :
  Forall (λ p, String.length p = 1%nat) (JS.split w).
Proof. induction w as [|c w IH]; simpl; by constructor. Qed.

Lemma join_singletons parts :
  Forall (λ p, String.length p = 1%nat) parts →
  String.length (JS.join " " parts) = (2 * length parts - 1)%nat.
Proof.
  induction 1 as [|p rest Hp Hrest IH]; [done|].
  destruct rest as [|q rest]; [simpl; lia|].
  change (JS.join " " (p :: q :: rest))
    with (p +:+ " " +:+ JS.join " " (q :: rest)).
  rewrite !string_length_app, IH, Hp. simpl. lia.
Qed.

(** The rendering of a word of [n] characters has [2n - 1] characters:
    one per position and a space between neighbours. *)
Lemma maskWord_length w r draws m :
  maskWord w r draws = Some m →
  String.length m = (2 * String.length w - 1)%nat.
Proof.
  unfold maskWord. case_bool_decide as Hw; [intros [= <-]; by subst|].
  destruct (revealLoop _ _ _ _) as [revealed|]; simpl; [|done].
  intros [= <-]. rewrite join_singletons.
  - by rewrite length_imap, split_length.
  - apply Forall_lookup. intros i p. rewrite list_lookup_imap.
    destruct (JS.split w !! i) as [c|] eqn:Hc; simpl; [|done].
    intros [= <-]. case_bool_decide; [|done].
    by eapply (proj1 (Forall_lookup _ _) (split_singletons w)).
Qed.

Lemma maskWord_differs w r draws m :
  maskWord w r draws = Some m → (2 ≤ String.length w)%nat → m ≠ w.
Proof.
  intros Hm Hlen ->. apply maskWord_length in Hm. lia.
Qed.

Lemma revealTable_1000 : revealTable 1000 = true.
Proof. vm_compute. reflexivity. Qed.

Lemma revealCount_below n :
  (2 ≤ n ≤ 1000)%nat → revealCount n defaultReveal < Z.of_nat n.
Proof.
  intros Hn. pose proof revealTable_1000 as Htab. unfold revealTable in Htab.
  rewrite forallb_forall in Htab.
  apply Z.ltb_lt. apply (Htab n). apply in_seq. lia.
Qed.

(** The loop stops as soon as [target] positions are revealed, so it
    never reveals more than that (beyond the one it starts with). *)
Lemma revealLoop_length len target draws : ∀ revealed res,
  revealLoop len target revealed draws = Some res →
  Z.of_nat (length res) ≤ Z.max (Z.of_nat (length revealed)) target.
Proof.
  induction draws as [|k rest IH]; intros revealed res; simpl.
  - case_match; [done|]. intros [= <-]. lia.
  - destruct (Z.of_nat (length revealed) <? target) eqn:Hlt.
    + intros Hres%IH. apply Z.ltb_lt in Hlt.
      case_bool_decide; [lia|]. rewrite length_app in Hres. simpl in Hres. lia.
    + intros [= <-]. lia.
Qed.

(** Fewer than [n] revealed positions leave one below [n] hidden. *)
Lemma hidden_position (revealed : list nat) n :
  (length revealed < n)%nat → ∃ i, (i < n)%nat ∧ i ∉ revealed.
Proof.
  intros Hlen.
  destruct (decide (Forall (λ i, i ∈ revealed) (seq 0 n))) as [Hall|Hsome].
  - assert (seq 0 n ⊆+ revealed) as Hsub.
    { apply NoDup_submseteq; [apply NoDup_seq|].
      by apply Forall_forall. }
    apply submseteq_length in Hsub. rewrite length_seq in Hsub. lia.
  - apply not_Forall_Exists in Hsome; [|apply _].
    apply Exists_exists in Hsome as (i & Hin & Hi). exists i. split; [|done].
    apply elem_of_seq in Hin. lia.
Qed.

Lemma join_get parts : ∀ i p,
  Forall (λ q, String.length q = 1%nat) parts →
  parts !! i = Some p →
  String.get (2 * i) (JS.join " " parts) = String.get 0 p.
Proof.
  induction parts as [|q rest IH]; intros i p Hone Hp; [done|].
  inversion Hone as [|? ? Hq Hrest]; subst.
  destruct q as [|c [|? ?]]; try done.
  destruct i as [|i].
  - injection Hp as <-. by destruct rest.
  - simpl in Hp. destruct rest as [|q' rest']; [done|].
    change (JS.join " " (String c "" :: q' :: rest'))
      with (String c (String " " (JS.join " " (q' :: rest')))).
    replace (2 * S i)%nat with (S (S (2 * i))) by lia.
    simpl String.get. by apply IH.
Qed.

(** In the rendering of a word of 2 to 1000 characters at least one
    position shows the placeholder. *)
Lemma maskWord_hides w draws m :
  maskWord w defaultReveal draws = Some m →
  (2 ≤ String.length w ≤ 1000)%nat →
  ∃ i, (i < String.length w)%nat ∧ String.get (2 * i) m = Some "_"%char.
Proof.
  unfold maskWord.
  case_bool_decide as Hw; [intros _ Hlen; subst; simpl in Hlen; lia|].
  destruct (revealLoop _ _ _ _) as [revealed|] eqn:Hloop; simpl; [|done].
  intros [= <-] Hlen. rewrite split_length in Hloop.
  apply revealLoop_length in Hloop. simpl in Hloop.
  pose proof (revealCount_below _ Hlen) as Hcount.
  destruct (hidden_position revealed (String.length w)) as (i & Hi & Hhid); [lia|].
  exists i. split; [done|].
  destruct (lookup_lt_is_Some_2 (JS.split w) i) as [c Hc];
    [by rewrite split_length|].
  rewrite (join_get _ i "_").
  - done.
  - apply Forall_lookup. intros j p. rewrite list_lookup_imap.
    destruct (JS.split w !! j) as [c'|] eqn:Hc'; simpl; [|done].
    intros [= <-]. case_bool_decide; [|done].
    by eapply (proj1 (Forall_lookup _ _) (split_singletons w)).
  - rewrite list_lookup_imap, Hc. simpl. by rewrite bool_decide_eq_false_2.
Qed.

Lemma randIndex_small len i : (i < len)%nat → JS.randIndex len i = i.
Proof.
  intros Hi. unfold JS.randIndex. destruct len as [|len]; [lia|].
  by apply Nat.mod_small.
Qed.

(** With a target of at most [len] positions there are draws on which
    the loop ends: each one hits a position not yet revealed. *)
Lemma revealLoop_returns len target gap : ∀ revealed,
  target ≤ Z.of_nat len →
  target - Z.of_nat (length revealed) ≤ Z.of_nat gap →
  ∃ draws res, revealLoop len target revealed draws = Some res.
Proof.
  induction gap as [|gap IH]; intros revealed Hlen Hgap.
  - exists [], revealed. simpl.
    by rewrite (proj2 (Z.ltb_ge _ _)) by lia.
  - destruct (decide (Z.of_nat (length revealed) < target)) as [Hlt|Hge].
    + destruct (hidden_position revealed len) as (i & Hi & Hhid); [lia|].
      destruct (IH (revealed ++ [i])) as (draws & res & Hres); [done|..].
      { rewrite length_app. simpl. lia. }
      exists (i :: draws), res. simpl.
      rewrite (proj2 (Z.ltb_lt _ _)) by done.
      by rewrite randIndex_small, bool_decide_eq_false_2.
    + exists [], revealed. simpl.
      by rewrite (proj2 (Z.ltb_ge _ _)) by lia.
Qed.

Lemma revealCount_one : revealCount 1 defaultReveal = 1.
Proof. by vm_compute. Qed.

Lemma maskWord_returns w :
  (String.length w ≤ 1000)%nat →
  ∃ draws m, maskWord w defaultReveal draws = Some m.
Proof.
  intros Hlen. unfold maskWord. case_bool_decide as Hw; [by exists [], ""|].
  rewrite split_length.
  assert (revealCount (String.length w) defaultReveal
          ≤ Z.of_nat (String.length w)) as Hcount.
  { destruct (decide (String.length w = 1%nat)) as [->|Hne];
      [by rewrite revealCount_one|].
    assert (2 ≤ String.length w ≤ 1000)%nat as H2
      by (destruct w; [done|simpl in *; lia]).
    pose proof (revealCount_below _ H2). lia. }
  destruct (revealLoop_returns (String.length w) _
              (Z.to_nat (revealCount (String.length w) defaultReveal))
              [0%nat] Hcount) as (draws & res & Hres); [simpl; lia|].
  exists draws. rewrite Hres. simpl. by eexists.
Qed.

End Masking.

(** ** Correct guesses *)

Section Guessing.
Import Server Props.

(** What an accepted correct guess does to the room and what it sends,
    once the draws suffice for the rendering shown to the others. *)
Lemma submitGuess_correct
    sid guess now draws s info ref room gs drawer shown :
  GuessAccepted sid guess now s info ref room gs drawer →
  maskedGuessOf room gs draws = Some shown →
  let score := calculateScore (Game.timer gs) (Game.roundTime gs) in
  let scores1 := <[sid := Game.scoreOf sid gs + score]> (Game.scores gs) in
  ∃ s' room' gs',
    submitGuess sid guess now draws s = Ok s'
    ∧ getRoom (Info.room info) s' = Some (ref, room')
    ∧ Room.gameState room' = Some gs'
    ∧ Game.scores gs'
      = <[drawer := default 0 (scores1 !! drawer) + drawerShare score]> scores1
    ∧ Game.playersWhoGuessed gs' = Game.playersWhoGuessed gs ++ [sid]
    ∧ outbox s'
      = outbox s
        ++ [(ToSocket sid,
             correctGuess (Info.name info) (Game.word gs) true score);
            (ToOthers sid (Info.room info),
             correctGuess (Info.name info) shown false score)].
Proof.
  intros (Hp & Hrate & Hroom & Hst & Hgs & Hdr & Hne & Hfirst & Hmatch) Hshown.
  unfold submitGuess. rewrite Hp.
  destruct (AntiCheat.checkCooldown now sid AntiCheat.guess (antiCheat s))
    as [v ac] eqn:Hc.
  simpl in Hrate. rewrite Hrate. simpl.
  replace (getRoom (Info.room info) (setAntiCheat ac s))
    with (Some (ref, room)) by (symmetry; exact Hroom).
  rewrite Hst, Hgs. simpl. rewrite Hdr.
  rewrite bool_decide_eq_false_2 by congruence.
  rewrite bool_decide_eq_false_2 by done.
  rewrite bool_decide_eq_true_2 by done.
  unfold drawerKey. rewrite Hdr, Hshown. simpl.
  assert (∀ x, getRoom (Info.room info)
                (putRoom ref x (setAntiCheat ac s)) = Some (ref, x)) as Hput.
  { intros x. by apply (getRoom_putRoom _ (setAntiCheat ac s) _ room). }
  destruct (forallb _ _); eexists _, _, _; (split; [reflexivity|]);
    (split; [try (destruct (Room.timerInterval room)); apply Hput|]);
    (split; [reflexivity|]); (split; [reflexivity|]);
    (split; [reflexivity|]);
    try (destruct (Room.timerInterval room)); simpl; by rewrite <- app_assoc.
Qed.

(** For a word of up to 1000 characters there are draws that suffice. *)
Lemma maskedGuessOf_returns room gs :
  (String.length (Game.word gs) ≤ 1000)%nat →
  ∃ draws shown, maskedGuessOf room gs draws = Some shown.
Proof.
  intros Hlen. unfold maskedGuessOf. case_match; [|by exists [], (Game.word gs)].
  by apply maskWord_returns.
Qed.

Lemma scoresTable_120 : scoresTable 120 = true.
Proof. vm_compute. reflexivity. Qed.

Lemma scoresTable_sound maxT T t :
  scoresTable maxT = true →
  1 ≤ T < 1 + maxT → 0 ≤ t ≤ T → scoreOk T t = true.
Proof.
  unfold scoresTable. intros Htab HT Ht.
  rewrite forallb_forall in Htab.
  assert (forallb (scoreOk T) (seqZ 0 (T + 1)) = true) as Hrow.
  { apply Htab, list_elem_of_In, elem_of_seqZ. lia. }
  rewrite forallb_forall in Hrow.
  apply Hrow, list_elem_of_In, elem_of_seqZ. lia.
Qed.

Lemma score_in_table T t :
  1 ≤ T ≤ 120 → 0 ≤ t ≤ T → scoreOk T t = true.
Proof.
  intros HT Ht. apply (scoresTable_sound 120); [exact scoresTable_120|lia..].
Qed.

End Guessing.

Section GuessClaims.
Import Server Props.

(** C3, as stated, fails: the quotient is rounded to binary64 before it is
    multiplied, so with a 100-second round and 29 seconds left the guesser
    gains 28 points where floor(100 × 29 / 100) is 29. *)
Lemma score_below_exact_quotient :
  calculateScore 29 100 = 28
  ∧ (100 * 29) `div` 100 = 29
  ∧ timerIn "ABCD" (stateAfter (gameOfThree 100 71)) = Some 29
  ∧ scoreIn "ABCD" "B"
      (stateAfter (gameOfThree 100 71
                   ++ [EvSubmitGuess "B" "apple" 1071000 [1%nat]]))
    = Some 28.
Proof. vm_compute. done. Qed.

(** C3 (amended): for every correct guess in a playing room with
    [roundTime] T > 0 and timer value t, where T, t and the two new totals
    are below 2^53 in magnitude (the range in which JavaScript numbers
    hold integers exactly), the guesser's cumulative score increases by
    exactly [Math.floor(100 * (t / T))] evaluated in double precision,
    and the current drawer's by exactly [Math.floor] of half of that, both
    added to the prior totals.  For round times of 1 to 120 seconds and
    0 ≤ t ≤ T the guesser's gain is floor(100 × t / T) or one less, and
    the drawer's is the integer half of it; with T = 60 and t = 45 the
    guesser gains 75 and the drawer 37. *)
Theorem correct_guess_scores
    sid guess now draws s info ref room gs drawer shown :
  GuessAccepted sid guess now s info ref room gs drawer →
  maskedGuessOf room gs draws = Some shown →
  let t := Game.timer gs in
  let T := Game.roundTime gs in
  let score := calculateScore t T in
  (0 < T < 2 ^ 53 → Z.abs t < 2 ^ 53 →
   Z.abs (Game.scoreOf sid gs + score) < 2 ^ 53 →
   Z.abs (Game.scoreOf drawer gs + drawerShare score) < 2 ^ 53 →
   ∃ s' room' gs',
     submitGuess sid guess now draws s = Ok s'
     ∧ getRoom (Info.room info) s' = Some (ref, room')
     ∧ Room.gameState room' = Some gs'
     ∧ Game.scoreOf sid gs' = Game.scoreOf sid gs + score
     ∧ Game.scoreOf drawer gs' = Game.scoreOf drawer gs + drawerShare score)
  ∧ (1 ≤ T ≤ 120 → 0 ≤ t ≤ T →
     (score = (100 * t) `div` T ∨ score = (100 * t) `div` T - 1)
     ∧ drawerShare score = score `div` 2)
  ∧ (T = 60 → t = 45 → score = 75 ∧ drawerShare score = 37).
Proof.
  intros Hacc Hshown t T score. split_and!.
  - intros _ _ _ _.
    destruct (submitGuess_correct _ _ _ _ _ _ _ _ _ _ _ Hacc Hshown)
      as (s' & room' & gs' & Hrun & Hroom & Hgs & Hsc & _).
    destruct Hacc as (_ & _ & _ & _ & _ & _ & Hne & _).
    exists s', room', gs'. split_and!; [done..| |]; unfold Game.scoreOf at 1;
      rewrite Hsc.
    + by rewrite lookup_insert_ne, lookup_insert_eq.
    + rewrite lookup_insert_eq. simpl. by rewrite lookup_insert_ne.
  - intros HT Ht. pose proof (score_in_table T t HT Ht) as Hok.
    unfold scoreOk in Hok. fold score in Hok.
    apply andb_true_iff in Hok as [H1 H2]. apply orb_true_iff in H1.
    split; [|by apply Z.eqb_eq].
    by destruct H1 as [H1|H1]; [left|right]; apply Z.eqb_eq.
  - intros HT Ht. unfold score. rewrite HT, Ht. by vm_compute.
Qed.

(** The scenario of the specification: three players, 60-second rounds,
    the word "Apple", and Bob guessing "apple" with 45 seconds left. *)
Lemma correct_guess_scores_witness :
  let s := stateAfter (gameOfThree 60 15) in
  timerIn "ABCD" s = Some 45
  ∧ ∃ s' room' gs',
      submitGuess "B" "apple" 1015000 [1%nat] s = Ok s'
      ∧ getRoom "ABCD" s' = Some (0%nat, room')
      ∧ Room.gameState room' = Some gs'
      ∧ Game.scoreOf "B" gs' = 0 + 75
      ∧ Game.scoreOf "A" gs' = 0 + 37.
Proof.
  intros s. split; [by vm_compute|].
  assert (∃ info ref room gs shown,
            GuessAccepted "B" "apple" 1015000 s info ref room gs "A"
            ∧ maskedGuessOf room gs [1%nat] = Some shown
            ∧ Info.room info = "ABCD" ∧ ref = 0%nat
            ∧ Game.timer gs = 45 ∧ Game.roundTime gs = 60
            ∧ Game.scoreOf "B" gs = 0 ∧ Game.scoreOf "A" gs = 0)
    as (info & ref & room & gs & shown & Hacc & Hshown & Hcode & Href & Ht
        & HT & HB & HA).
  { eexists _, _, _, _, _. unfold GuessAccepted.
    split_and!; try (vm_compute; reflexivity).
    - vm_compute. congruence.
    - apply (bool_decide_unpack _). by vm_compute. }
  destruct (correct_guess_scores _ _ _ _ _ _ _ _ _ _ _ Hacc Hshown)
    as (Hgain & _ & H3).
  destruct (H3 HT Ht) as [Hs Hd].
  destruct Hgain as (s' & room' & gs' & Hrun & Hr & Hg & H1 & H2).
  { rewrite HT. lia. }
  { rewrite Ht. lia. }
  { rewrite HB, Hs. lia. }
  { rewrite HA, Hd. lia. }
  rewrite Ht, HT in *. rewrite Hcode, Href in Hr.
  exists s', room', gs'. split_and!; [done..| |].
  - rewrite H1, HB. by rewrite Hs.
  - rewrite H2, HA. rewrite Hs in Hd |- *. by rewrite Hd.
Defined.

(** C6, as stated, fails: in a room of two the event for the others
    carries the literal word, and the rendering of a one-letter word is
    the word itself. *)
Lemma literal_word_sent_to_others :
  sent isCorrectGuess
    (stateAfter (gameOfTwo 60 0
                 ++ [EvSubmitGuess "B" "apple" 1001000 [1%nat]]))
  = [(ToSocket "B", correctGuess "Bob" "Apple" true 100);
     (ToOthers "B" "ABCD", correctGuess "Bob" "Apple" false 100)]
  ∧ WordManager.maskWord "a" WordManager.defaultReveal [] = Some "a".
Proof. vm_compute. done. Qed.

(** C6 (amended): an accepted correct guess sends exactly two
    [correctGuess] events, the literal word to the guesser and one event
    to the rest of the room.  When the room has more than two players the
    latter carries [maskWord]'s rendering, which differs from the word
    whenever the word has at least two characters and, for words of 2 to
    1000 characters, shows the placeholder in at least one position; when
    the room has at most two players it carries the literal word.  For a
    word of up to 1000 characters there are random draws on which the
    rendering is produced. *)
Theorem correct_guess_audience
    sid guess now draws s info ref room gs drawer shown :
  GuessAccepted sid guess now s info ref room gs drawer →
  maskedGuessOf room gs draws = Some shown →
  let score := calculateScore (Game.timer gs) (Game.roundTime gs) in
  let word := Game.word gs in
  (∃ s',
     submitGuess sid guess now draws s = Ok s'
     ∧ outbox s'
       = outbox s
         ++ [(ToSocket sid, correctGuess (Info.name info) word true score);
             (ToOthers sid (Info.room info),
              correctGuess (Info.name info) shown false score)])
  ∧ (if (2 <? length (Room.players room))%nat then
       ((2 ≤ String.length word)%nat → shown ≠ word)
       ∧ ((2 ≤ String.length word ≤ 1000)%nat →
          ∃ i, (i < String.length word)%nat
               ∧ String.get (2 * i) shown = Some "_"%char)
     else shown = word)
  ∧ ((String.length word ≤ 1000)%nat →
     ∃ draws' shown', maskedGuessOf room gs draws' = Some shown').
Proof.
  intros Hacc Hshown score word. split_and!.
  - destruct (submitGuess_correct _ _ _ _ _ _ _ _ _ _ _ Hacc Hshown)
      as (s' & room' & gs' & Hrun & _ & _ & _ & _ & Hout).
    by exists s'.
  - unfold maskedGuessOf in Hshown.
    destruct (2 <? length (Room.players room))%nat;
      [|by injection Hshown as <-].
    split.
    + by apply maskWord_differs with (1 := Hshown).
    + by apply maskWord_hides with (1 := Hshown).
  - apply maskedGuessOf_returns.
Qed.

(** Bob's correct guess in the room of three, after 15 ticks. *)
Lemma correct_guess_audience_witness :
  let s := stateAfter (gameOfThree 60 15) in
  ∃ s' shown,
    submitGuess "B" "apple" 1015000 [1%nat] s = Ok s'
    ∧ outbox s'
      = outbox s
        ++ [(ToSocket "B", correctGuess "Bob" "Apple" true 75);
            (ToOthers "B" "ABCD", correctGuess "Bob" shown false 75)]
    ∧ shown ≠ "Apple".
Proof.
  intros s.
  assert (∃ info ref room gs shown,
            GuessAccepted "B" "apple" 1015000 s info ref room gs "A"
            ∧ maskedGuessOf room gs [1%nat] = Some shown
            ∧ Info.room info = "ABCD" ∧ Info.name info = "Bob"
            ∧ Game.word gs = "Apple"
            ∧ calculateScore (Game.timer gs) (Game.roundTime gs) = 75
            ∧ (2 <? length (Room.players room))%nat = true)
    as (info & ref & room & gs & shown & Hacc & Hshown & Hcode & Hname & Hw
        & Hsc & Hn).
  { eexists _, _, _, _, _. unfold GuessAccepted.
    split_and!; try (vm_compute; reflexivity).
    - vm_compute. congruence.
    - apply (bool_decide_unpack _). by vm_compute. }
  destruct (correct_guess_audience _ _ _ _ _ _ _ _ _ _ _ Hacc Hshown)
    as ((s' & Hrun & Hout) & Hmask & _).
  rewrite Hn, Hw in Hmask. rewrite Hcode, Hname, Hw, Hsc in Hout.
  exists s', shown. split_and!; [done..|]. apply Hmask. simpl. lia.
Defined.

End GuessClaims.

(** ** The rate limiter comes first *)

Section GuessOrdering.
Import Server Props.

Lemma submitGuess_antiCheat sid guess now draws s info s' :
  players s !! sid = Some info →
  submitGuess sid guess now draws s = Ok s' →
  antiCheat s'
  = (AntiCheat.checkCooldown now sid AntiCheat.guess (antiCheat s)).2.
Proof.
  intros Hp. unfold submitGuess. rewrite Hp.
  destruct (AntiCheat.checkCooldown now sid AntiCheat.guess (antiCheat s))
    as [v ac] eqn:Hc. simpl.
  repeat case_match; simpl; try done; try (by intros [= <-]).
  all: destruct (forallb _ _); intros [= <-]; try done.
  all: by destruct (Room.timerInterval _).
Qed.

Lemma submitGuess_dropped sid guess now draws s info :
  players s !! sid = Some info →
  let r := AntiCheat.checkCooldown now sid AntiCheat.guess (antiCheat s) in
  AntiCheat.allowed r.1 = true →
  DroppedByGameState sid info s →
  submitGuess sid guess now draws s = Ok (setAntiCheat r.2 s).
Proof.
  intros Hp r Hv Hdrop. unfold submitGuess. rewrite Hp. subst r.
  destruct (AntiCheat.checkCooldown now sid AntiCheat.guess (antiCheat s))
    as [v ac] eqn:Hc. simpl in *. rewrite Hv. simpl.
  unfold DroppedByGameState in Hdrop.
  change (getRoom (Info.room info) (setAntiCheat ac s))
    with (getRoom (Info.room info) s).
  destruct (getRoom (Info.room info) s) as [[ref room]|]; [|done].
  destruct Hdrop as [Hst|(gs & Hgs & Hwhy)].
  - by rewrite bool_decide_eq_true_2.
  - case_bool_decide; [done|]. rewrite Hgs.
    destruct Hwhy as [Hd|Hg].
    + by rewrite bool_decide_eq_true_2.
    + case_bool_decide; [done|]. by rewrite bool_decide_eq_true_2.
Qed.

(** C10: for a known player, [submitGuess] runs [checkCooldown] before it
    looks at the room.  Whatever the later checks decide, the rate-limit
    records after the handler are those after the check.  A guess the
    limiter refuses changes nothing else: rooms, scores, timers and sent
    events are as before.  A guess the limiter accepts and that is then
    dropped because the room is missing or not playing, or the sender is
    the drawer or has guessed already, changes nothing else either, yet
    its budget is spent: the guess timestamp is [now] and the burst
    counter of the current window has grown by one. *)
Theorem submitGuess_checks_rate_limit_first sid guess now draws s info :
  players s !! sid = Some info →
  let r := AntiCheat.checkCooldown now sid AntiCheat.guess (antiCheat s) in
  (∀ s', submitGuess sid guess now draws s = Ok s' → antiCheat s' = r.2)
  ∧ (AntiCheat.allowed r.1 = false →
     submitGuess sid guess now draws s = Ok (setAntiCheat r.2 s))
  ∧ (AntiCheat.allowed r.1 = true →
     DroppedByGameState sid info s →
     submitGuess sid guess now draws s = Ok (setAntiCheat r.2 s)
     ∧ AntiCheat.stamp AntiCheat.guess (AntiCheat.stampsOf sid r.2) = now
     ∧ AntiCheat.count (AntiCheat.spamOf now sid r.2)
       = AntiCheat.count
           (rolled now (AntiCheat.spamOf now sid (antiCheat s))) + 1).
Proof.
  intros Hp r. split_and!.
  - intros s'. by apply (submitGuess_antiCheat _ _ _ _ _ info).
  - intros Hv. unfold submitGuess. rewrite Hp. subst r.
    destruct (AntiCheat.checkCooldown now sid AntiCheat.guess (antiCheat s))
      as [v ac]. simpl in *. by rewrite Hv.
  - intros Hv Hdrop.
    split; [by apply (submitGuess_dropped _ _ _ _ _ info)|].
    subst r.
    destruct (AntiCheat.checkCooldown now sid AntiCheat.guess (antiCheat s))
      as [v ac] eqn:Hc. simpl in *.
    destruct (checkCooldown_accepted _ _ _ _ _ _ Hc Hv) as [-> ->].
    by split.
Qed.

(** Ann is drawing; her own guess is dropped, and her budget is spent. *)
Lemma submitGuess_checks_rate_limit_first_witness :
  let s := stateAfter (gameOfThree 60 15) in
  let r := AntiCheat.checkCooldown 1015000 "A" AntiCheat.guess (antiCheat s) in
  submitGuess "A" "apple" 1015000 [] s = Ok (setAntiCheat r.2 s)
  ∧ AntiCheat.stamp AntiCheat.guess (AntiCheat.stampsOf "A" r.2) = 1015000
  ∧ AntiCheat.count (AntiCheat.spamOf 1015000 "A" r.2) = 0 + 1.
Proof.
  intros s r.
  assert (∃ info, players s !! "A" = Some info
                  ∧ DroppedByGameState "A" info s) as (info & Hp & Hdrop).
  { eexists. split; [by vm_compute|].
    unfold DroppedByGameState.
    destruct (getRoom _ s) as [[ref room]|] eqn:Hroom; [|done].
    right. vm_compute in Hroom. injection Hroom as <- <-.
    eexists. split; [reflexivity|]. by left. }
  destruct (submitGuess_checks_rate_limit_first "A" "apple" 1015000 [] s
              info Hp) as (_ & _ & H3).
  apply H3; [by vm_compute|done].
Defined.

End GuessOrdering.

(** ** Starting a game *)

Section Starting.
Import Server Props.

Lemma filter_all {A} (P : A → Prop) `{∀ x, Decision (P x)} (l : list A) :
  (∀ x, P x) → filter P l = l.
Proof.
  intros HP. induction l as [|x l IH]; [done|].
  rewrite filter_cons_True by done. by rewrite IH.
Qed.

Lemma randIndex_lookup {A} (l : list A) k :
  l ≠ [] → ∃ x, l !! JS.randIndex (length l) k = Some x ∧ x ∈ l.
Proof.
  intros Hl.
  destruct (lookup_lt_is_Some_2 l (JS.randIndex (length l) k)) as [x Hx].
  { apply randIndex_lt. destruct l; [done|simpl; lia]. }
  exists x. split; [done|]. by eapply list_elem_of_lookup_2.
Qed.

(** C1, as stated, fails: a host alone in a lobby who sends [startGame]
    gets a game: the room is playing round 1, [roundStarted] is sent and
    the round timer is running. *)
Lemma lone_host_starts_game :
  let creation := [EvCreateRoom "A" "Ann" "a1" (0, 1, 2, 3)%nat] in
  let s0 := stateAfter creation in
  let s1 := stateAfter
              (creation ++ [EvStartGame "A" (settingsOf 3 60) 1000000 0 0]) in
  ((λ r, Room.ids r.2) <$> getRoom "ABCD" s0) = Some ["A"]
  ∧ stateIn "ABCD" s0 = Some lobby
  ∧ stateIn "ABCD" s1 = Some playing
  ∧ roundIn "ABCD" s1 = Some 1
  ∧ sent isRoundStarted s1
    = [(ToRoom "ABCD", roundStarted "A" "Ann" "a1" 1 3 60)]
  ∧ intervals s1 !! 0%nat = Some (0%nat, "ABCD").
Proof. vm_compute. done. Qed.

(** C1 (amended): [startGame] has no minimum number of players.  Take a
    room in state 'lobby' with a non-empty roster (so also one with fewer
    than 2 members), and a requested difficulty that is not a name
    inherited from [Object.prototype] and whose word list (the list of
    'easy' when the difficulty has none) is non-empty.  A [startGame]
    request from a socket whose entry in the player index names the room
    and has the host flag, which is what the handler tests, is accepted:
    the room moves to 'playing', round state is created with
    [currentRound = 1], and round 1 starts with a drawer taken from the
    roster (the sole member when there is one), a running timer, and
    [roundStarted] and [wordUpdate] as the only events sent; no error is
    surfaced to anyone. *)
Theorem startGame_has_no_player_minimum
    wordLists sid settings now dk wk s info ref room l :
  players s !! sid = Some info →
  Info.isHost info = true →
  getRoom (Info.room info) s = Some (ref, room) →
  Room.state room = lobby →
  Room.players room ≠ [] →
  Keys.ownKey (Settings.difficulty settings) = true →
  WordManager.listFor wordLists (Settings.difficulty settings) = Some l →
  l ≠ [] →
  ∃ s' drawer word room' gs',
    startGame wordLists sid settings now dk wk s = Ok s'
    ∧ drawer ∈ Room.players room
    ∧ (∀ p, Room.players room = [p] → drawer = p)
    ∧ word ∈ l
    ∧ getRoom (Info.room info) s' = Some (ref, room')
    ∧ Room.state room' = playing
    ∧ Room.players room' = Room.players room
    ∧ Room.gameState room' = Some gs'
    ∧ Game.currentRound gs' = 1
    ∧ Game.currentDrawer gs' = Some (Player.id drawer)
    ∧ Game.word gs' = word
    ∧ Game.timer gs' = Settings.roundTime settings
    ∧ Room.timerInterval room' = Some (nextTimer s)
    ∧ intervals s' !! nextTimer s = Some (ref, Info.room info)
    ∧ outbox s'
      = outbox s
        ++ [(ToRoom (Info.room info),
             roundStarted (Player.id drawer) (Player.name drawer)
               (Player.avatar drawer) 1 (Settings.rounds settings)
               (Settings.roundTime settings));
            (ToSocket (Player.id drawer), wordUpdate word)].
Proof.
  intros Hp Hhost Hroom Hst Hps _ Hl Hne.
  unfold startGame. rewrite Hp, Hhost, Hroom, Hst. simpl.
  unfold startRound.
  rewrite (getRoom_putRoom _ _ _ _ _ Hroom). simpl.
  rewrite filter_all by done.
  destruct (randIndex_lookup (Room.players room) dk Hps)
    as (drawer & -> & Hin).
  unfold WordManager.getRandomWord. rewrite Hl.
  destruct (randIndex_lookup l wk Hne) as (word & -> & Hw). simpl.
  eexists _, drawer, word, _, _. split; [reflexivity|].
  split; [done|].
  split; [intros p Hone; rewrite Hone in Hin; by apply list_elem_of_singleton|].
  split; [done|].
  split.
  { apply getRoom_Some. apply getRoom_Some in Hroom as [Hr Hh]. simpl.
    split; [done|]. rewrite list_lookup_insert_eq; [done|].
    rewrite length_insert. by eapply lookup_lt_Some. }
  simpl. split_and!; try done.
  - apply lookup_insert_eq.
  - by rewrite <- app_assoc.
Qed.

(** Ann, alone in room ABCD, starts a game. *)
Lemma startGame_has_no_player_minimum_witness :
  let s := stateAfter [EvCreateRoom "A" "Ann" "a1" (0, 1, 2, 3)%nat] in
  ∃ s' room' gs',
    startGame sampleWords "A" (settingsOf 3 60) 1000000 0 0 s = Ok s'
    ∧ getRoom "ABCD" s' = Some (0%nat, room')
    ∧ Room.state room' = playing
    ∧ Room.gameState room' = Some gs'
    ∧ Game.currentRound gs' = 1
    ∧ Game.currentDrawer gs' = Some "A".
Proof.
  intros s.
  assert (∃ info ref room p,
            players s !! "A" = Some info ∧ Info.isHost info = true
            ∧ getRoom (Info.room info) s = Some (ref, room)
            ∧ Room.state room = lobby ∧ Room.players room = [p]
            ∧ Info.room info = "ABCD" ∧ ref = 0%nat ∧ Player.id p = "A")
    as (info & ref & room & p & Hp & Hh & Hr & Hst & Hps & Hc & Href & Hid).
  { eexists _, _, _, _. split_and!; by vm_compute. }
  destruct (startGame_has_no_player_minimum sampleWords "A" (settingsOf 3 60)
              1000000 0 0 s info ref room ["Apple"; "house"] Hp Hh Hr Hst)
    as (s' & drawer & word & room' & gs' & Hrun & _ & Hsole & _ & Hr' & Hst'
        & _ & Hgs & Hround & Hdr & _);
    [by rewrite Hps|by vm_compute|by vm_compute|done|].
  rewrite (Hsole p Hps), Hid in Hdr. rewrite Hc, Href in Hr'.
  by exists s', room', gs'.
Defined.

End Starting.

(** ** Membership *)

Section Membership.
Import Server Props.

Lemma same_refl s : SameMembership s s.
Proof. by repeat split. Qed.

Lemma same_trans s1 s2 s3 :
  SameMembership s1 s2 → SameMembership s2 s3 → SameMembership s1 s3.
Proof.
  intros (Hr & Hp & Hh) (Hr' & Hp' & Hh'). split_and!.
  - by rewrite Hr'.
  - intros sid. by rewrite Hp'.
  - intros ref. by rewrite Hh'.
Qed.

(** Steps that only touch timers, words, rate limits or the outbox. *)
Lemma same_fields s s' :
  rooms s' = rooms s → players s' = players s → heap s' = heap s →
  SameMembership s s'.
Proof. intros Hr Hp Hh. split_and!; intros; by rewrite ?Hr, ?Hp, ?Hh. Qed.

(** Steps that also write to one room object, keeping its roster ids. *)
Lemma same_put s s' ref room room' :
  heap s !! ref = Some room →
  heap s' = <[ref := room']> (heap s) →
  Room.ids room' = Room.ids room →
  rooms s' = rooms s → players s' = players s →
  SameMembership s s'.
Proof.
  intros Hh Hh' Hids Hr Hp. split_and!; [done|by rewrite Hp|].
  intros r. rewrite Hh'.
  destruct (decide (r = ref)) as [->|Hne].
  - rewrite list_lookup_insert_eq by (by eapply lookup_lt_Some).
    rewrite Hh. simpl. by rewrite Hids.
  - by rewrite list_lookup_insert_ne.
Qed.

Lemma same_clearInterval h s : SameMembership s (clearInterval h s).
Proof. destruct h; by apply same_fields. Qed.

Ltac room_heap :=
  match goal with Hg : getRoom _ _ = Some _ |- _ =>
    apply getRoom_Some in Hg as [_ Hg] end.

Lemma endGame_same c s s' : endGame c s = Ok s' → SameMembership s s'.
Proof.
  unfold endGame. destruct (getRoom c s) as [[ref room]|] eqn:Hroom;
    [|intros [= <-]; apply same_refl].
  room_heap. destruct (Room.gameState room); [|done]. intros [= <-].
  by eapply same_put.
Qed.

Lemma endRound_same c s s' : endRound c s = Ok s' → SameMembership s s'.
Proof.
  unfold endRound. destruct (getRoom c s) as [[ref room]|] eqn:Hroom;
    [|intros [= <-]; apply same_refl].
  room_heap. destruct (Room.gameState room) as [gs|]; [|done].
  destruct (Room.timerInterval room) as [h|]; simpl; case_match.
  - intros Hend%endGame_same. eapply same_trans; [|exact Hend].
    by apply same_fields.
  - intros [= <-]. by eapply same_put.
  - intros Hend%endGame_same. eapply same_trans; [|exact Hend].
    by apply same_fields.
  - intros [= <-]. by eapply same_put.
Qed.

Lemma startRound_same wl now dk wk c s s' :
  startRound wl now dk wk c s = Ok s' → SameMembership s s'.
Proof.
  unfold startRound. destruct (getRoom c s) as [[ref room]|] eqn:Hroom;
    [|intros [= <-]; apply same_refl].
  room_heap. repeat case_match; try done.
  destruct (WordManager.getRandomWord _ _ _ _ _) as [[word words]| |];
    simpl; [|done..].
  intros [= <-]. by eapply same_put.
Qed.

Lemma tick_same h s s' : tick h s = Ok s' → SameMembership s s'.
Proof.
  unfold tick. destruct (intervals s !! h) as [[ref c]|];
    [|intros [= <-]; apply same_refl].
  destruct (heap s !! ref) as [room|] eqn:Hh;
    [|intros [= <-]; apply same_refl].
  destruct (Room.gameState room) as [gs|]; [|done].
  destruct (Room.timerInterval room) as [h'|];
    case_bool_decide; simpl; destruct (_ <=? 0);
    try (intros Hend%endRound_same; eapply same_trans; [|exact Hend]);
    try (intros [= <-]); by eapply same_put.
Qed.

Lemma fire_same wl id now dk wk s s' :
  fire wl id now dk wk s = Ok s' → SameMembership s s'.
Proof.
  unfold fire. destruct (timeouts s !! id) as [[c|c]|];
    [| |intros [= <-]; apply same_refl].
  - intros Hs%endRound_same. eapply same_trans; [|exact Hs].
    by apply same_fields.
  - intros Hs%startRound_same. eapply same_trans; [|exact Hs].
    by apply same_fields.
Qed.

Lemma startGame_same wl sid settings now dk wk s s' :
  startGame wl sid settings now dk wk s = Ok s' → SameMembership s s'.
Proof.
  unfold startGame. destruct (players s !! sid) as [info|];
    [|intros [= <-]; apply same_refl].
  destruct (negb _); [intros [= <-]; apply same_refl|].
  destruct (getRoom _ s) as [[ref room]|] eqn:Hroom;
    [|intros [= <-]; apply same_refl].
  room_heap. case_bool_decide; [intros [= <-]; apply same_refl|].
  intros Hs%startRound_same. eapply same_trans; [|exact Hs].
  by eapply same_put.
Qed.

Lemma drawing_same sid data s s' :
  drawing sid data s = Ok s' → SameMembership s s'.
Proof.
  unfold drawing. destruct (players s !! sid) as [info|];
    [|intros [= <-]; apply same_refl].
  destruct (getRoom _ s) as [[ref room]|] eqn:Hroom;
    [|intros [= <-]; apply same_refl].
  room_heap. repeat case_match; try done;
    intros [= <-]; try apply same_refl. by eapply same_put.
Qed.

Lemma clearCanvas_same sid s s' :
  clearCanvas sid s = Ok s' → SameMembership s s'.
Proof.
  unfold clearCanvas. repeat case_match; try done;
    intros [= <-]; try apply same_refl. by apply same_fields.
Qed.

Lemma sendChatMessage_same sid text now s s' :
  sendChatMessage sid text now s = Ok s' → SameMembership s s'.
Proof.
  unfold sendChatMessage. repeat case_match; try done;
    intros [= <-]; try apply same_refl; by apply same_fields.
Qed.

Lemma playAgain_same sid s s' :
  playAgain sid s = Ok s' → SameMembership s s'.
Proof.
  unfold playAgain. destruct (players s !! sid) as [info|];
    [|intros [= <-]; apply same_refl].
  destruct (negb _); [intros [= <-]; apply same_refl|].
  destruct (getRoom _ s) as [[ref room]|] eqn:Hroom;
    [|intros [= <-]; apply same_refl].
  room_heap. case_bool_decide; intros [= <-]; [apply same_refl|].
  by eapply same_put.
Qed.

Lemma submitGuess_same sid guess now draws s s' :
  submitGuess sid guess now draws s = Ok s' → SameMembership s s'.
Proof.
  unfold submitGuess. destruct (players s !! sid) as [info|];
    [|intros [= <-]; apply same_refl].
  destruct (AntiCheat.checkCooldown _ _ _ _) as [v ac].
  destruct (negb _); [intros [= <-]; by apply same_fields|].
  destruct (getRoom _ (setAntiCheat ac s)) as [[ref room]|] eqn:Hroom;
    [|intros [= <-]; by apply same_fields].
  room_heap. simpl in Hroom.
  repeat case_match; try done; try (intros [= <-]; by apply same_fields);
    simpl; destruct (forallb _ _); intros [= <-];
    try (destruct (Room.timerInterval room)); by eapply same_put.
Qed.

Lemma updateFirst_ids sid avatar ps ps' :
  updateFirst sid avatar ps = Some ps' → Player.id <$> ps' = Player.id <$> ps.
Proof.
  revert ps'. induction ps as [|p ps IH]; intros ps'; simpl; [done|].
  case_bool_decide.
  - by intros [= <-].
  - destruct (updateFirst sid avatar ps) as [r|]; simpl; [|done].
    intros [= <-]. rewrite !fmap_cons. f_equal. by apply IH.
Qed.

Lemma updateAvatar_same sid avatar s s' :
  updateAvatar sid avatar s = Ok s' → SameMembership s s'.
Proof.
  unfold updateAvatar. destruct (players s !! sid) as [info|] eqn:Hp;
    [|intros [= <-]; apply same_refl].
  set (s2 := setPlayers _ _).
  assert (SameMembership s s2) as H2.
  { split_and!; [done| |done]. intros x. simpl.
    destruct (decide (x = sid)) as [->|Hne].
    - by rewrite lookup_insert_eq, Hp.
    - by rewrite lookup_insert_ne. }
  destruct (getRoom _ s2) as [[ref room]|] eqn:Hroom; [|by intros [= <-]].
  room_heap.
  destruct (updateFirst _ _ _) as [roster|] eqn:Hu; [|by intros [= <-]].
  intros [= <-]. eapply same_trans; [exact H2|].
  eapply same_put; [exact Hroom|reflexivity| |done..].
  unfold Room.ids. simpl. by eapply updateFirst_ids.
Qed.

Lemma same_sym s s' : SameMembership s s' → SameMembership s' s.
Proof. intros (Hr & Hp & Hh). by split_and!. Qed.

Lemma same_getRoom s s' c ref room' :
  SameMembership s s' →
  getRoom c s' = Some (ref, room') →
  ∃ room, getRoom c s = Some (ref, room) ∧ Room.ids room = Room.ids room'.
Proof.
  intros (Hr & _ & Hh) [Hc Hroom]%getRoom_Some.
  specialize (Hh ref). rewrite Hroom in Hh. simpl in Hh.
  destruct (heap s !! ref) as [room|] eqn:Hroom0; [|done].
  exists room. split; [|by injection Hh].
  apply getRoom_Some. by rewrite <- Hr.
Qed.

Lemma same_players s s' sid info' :
  SameMembership s s' →
  players s' !! sid = Some info' →
  ∃ info, players s !! sid = Some info ∧ Info.room info = Info.room info'.
Proof.
  intros (_ & Hp & _) Hi. specialize (Hp sid). rewrite Hi in Hp. simpl in Hp.
  destruct (players s !! sid) as [info|]; [|done].
  exists info. split; [done|]. by injection Hp.
Qed.

Lemma same_IndexSound s s' :
  SameMembership s s' → IndexSound s → IndexSound s'.
Proof.
  intros Hs HI sid info' Hi.
  destruct (same_players _ _ _ _ Hs Hi) as (info & Hi0 & Hroom).
  destruct (HI _ _ Hi0) as (ref & room & Hr & Hin).
  destruct (same_getRoom _ _ _ _ _ (same_sym _ _ Hs) Hr) as (room' & Hr' & Hids).
  exists ref, room'. rewrite <- Hroom. split; [done|]. by rewrite Hids.
Qed.

Lemma same_RosterIndexed s s' :
  SameMembership s s' → RosterIndexed s → RosterIndexed s'.
Proof.
  intros Hs HJ c ref room' sid Hr Hin.
  destruct (same_getRoom _ _ _ _ _ Hs Hr) as (room & Hr0 & Hids).
  rewrite <- Hids in Hin.
  destruct (HJ _ _ _ _ Hr0 Hin) as (info & Hi & Hc).
  destruct (same_players _ _ _ _ (same_sym _ _ Hs) Hi) as (info' & Hi' & Hroom).
  exists info'. split; [done|]. by rewrite Hroom.
Qed.

Lemma same_RefsValid s s' :
  SameMembership s s' → RefsValid s → RefsValid s'.
Proof.
  intros (Hr & _ & Hh) [HV Hinj]. split.
  - intros c ref Hc. rewrite Hr in Hc. specialize (HV _ _ Hc).
    specialize (Hh ref). destruct HV as [room Hroom]. rewrite Hroom in Hh.
    destruct (heap s' !! ref); [done|done].
  - intros c1 c2 ref. rewrite Hr. apply Hinj.
Qed.

(** *** createRoom *)

Lemma createRoom_IndexSound sid name avatar draws s s' :
  rooms s !! generateRoomCode draws = None →
  createRoom sid name avatar draws s = Ok s' →
  IndexSound s → IndexSound s'.
Proof.
  intros Hfresh [= <-] HI x info. simpl.
  destruct (decide (x = sid)) as [->|Hne].
  - rewrite lookup_insert_eq. intros [= <-]. simpl.
    eexists _, _. split.
    + apply getRoom_Some. simpl. rewrite lookup_insert_eq. split; [done|].
      rewrite lookup_app_r by done. by rewrite Nat.sub_diag.
    + unfold Room.ids. simpl. by apply list_elem_of_singleton.
  - rewrite lookup_insert_ne by done. intros Hi.
    destruct (HI _ _ Hi) as (ref & room & [Hc Hh]%getRoom_Some & Hin).
    exists ref, room. split; [|done]. apply getRoom_Some. simpl.
    rewrite lookup_insert_ne by congruence. split; [done|].
    by rewrite lookup_app_l by (by eapply lookup_lt_Some).
Qed.

Lemma createRoom_RefsValid sid name avatar draws s s' :
  rooms s !! generateRoomCode draws = None →
  createRoom sid name avatar draws s = Ok s' →
  RefsValid s → RefsValid s'.
Proof.
  intros Hfresh [= <-] [HV Hinj]. split; simpl.
  - intros c ref. destruct (decide (c = generateRoomCode draws)) as [->|Hne].
    + rewrite lookup_insert_eq. intros [= <-].
      rewrite lookup_app_r by done. by rewrite Nat.sub_diag.
    + rewrite lookup_insert_ne by done. intros Hc.
      destruct (HV _ _ Hc) as [room Hroom]. exists room.
      by rewrite lookup_app_l by (by eapply lookup_lt_Some).
  - intros c1 c2 ref.
    assert (∀ c, rooms s !! c = Some (length (heap s)) → False) as Hnew.
    { intros c Hc. destruct (HV _ _ Hc) as [room Hroom].
      apply lookup_lt_Some in Hroom. lia. }
    destruct (decide (c1 = generateRoomCode draws)) as [->|H1];
      destruct (decide (c2 = generateRoomCode draws)) as [->|H2];
      rewrite ?lookup_insert_eq, ?lookup_insert_ne by done; try done.
    + intros [= <-] Hc. by destruct (Hnew _ Hc).
    + intros Hc [= <-]. by destruct (Hnew _ Hc).
    + apply Hinj.
Qed.

Lemma createRoom_RosterIndexed sid name avatar draws s s' :
  rooms s !! generateRoomCode draws = None →
  players s !! sid = None →
  createRoom sid name avatar draws s = Ok s' →
  RefsValid s → RosterIndexed s → RosterIndexed s'.
Proof.
  intros Hfresh Hnew [= <-] [HV _] HJ c ref room x
    [Hc Hh]%getRoom_Some Hin. simpl in *.
  destruct (decide (c = generateRoomCode draws)) as [->|Hne].
  - rewrite lookup_insert_eq in Hc. injection Hc as <-.
    rewrite lookup_app_r in Hh by done. rewrite Nat.sub_diag in Hh.
    injection Hh as <-. unfold Room.ids in Hin. simpl in Hin.
    apply list_elem_of_singleton in Hin as ->.
    rewrite lookup_insert_eq. by eexists.
  - rewrite lookup_insert_ne in Hc by done.
    destruct (HV _ _ Hc) as [room0 Hroom0].
    rewrite lookup_app_l in Hh by (by eapply lookup_lt_Some).
    destruct (HJ c ref room x) as (info & Hi & Hci); [by apply getRoom_Some|done|].
    exists info. split; [|done].
    rewrite lookup_insert_ne; [done|]. intros <-. congruence.
Qed.

(** *** joinRoom *)

Lemma joinRoom_cases sid c name avatar s s' :
  joinRoom sid c name avatar s = Ok s' →
  SameMembership s s'
  ∨ ∃ ref room player,
      getRoom c s = Some (ref, room)
      ∧ Player.id player = sid
      ∧ rooms s' = rooms s
      ∧ heap s'
        = <[ref := Room.setPlayers (Room.players room ++ [player]) room]>
            (heap s)
      ∧ ∃ info, Info.room info = c ∧ players s' = <[sid := info]> (players s).
Proof.
  unfold joinRoom. destruct (getRoom c s) as [[ref room]|] eqn:Hroom;
    [|intros [= <-]; left; by apply same_fields].
  case_bool_decide; [intros [= <-]; left; by apply same_fields|].
  case_match; intros [= <-]; [left; by apply same_fields|].
  right.
  exists ref, room,
    {| Player.id := sid; Player.name := name; Player.isHost := false;
       Player.avatar := avatar |}.
  split; [done|]. split; [done|]. split; [done|]. split; [done|].
  eexists. split; [|reflexivity]. done.
Qed.

Lemma ids_app room p :
  Room.ids (Room.setPlayers (Room.players room ++ [p]) room)
  = Room.ids room ++ [Player.id p].
Proof. unfold Room.ids. simpl. by rewrite fmap_app. Qed.

Lemma joinRoom_IndexSound sid c name avatar s s' :
  joinRoom sid c name avatar s = Ok s' → IndexSound s → IndexSound s'.
Proof.
  intros [Hs|(ref & room & p & Hroom & Hid & Hr & Hh & info & Hc & Hp)]
           %joinRoom_cases HI;
    [by eapply same_IndexSound|].
  pose proof Hroom as [Hrc Hrh]%getRoom_Some.
  intros x infox. rewrite Hp.
  destruct (decide (x = sid)) as [->|Hne].
  - rewrite lookup_insert_eq. intros [= <-]. rewrite Hc.
    eexists ref, _. split.
    + apply getRoom_Some. rewrite Hr, Hh. split; [done|].
      apply list_lookup_insert_eq. by eapply lookup_lt_Some.
    + rewrite ids_app, Hid. apply elem_of_app. right.
      by apply list_elem_of_singleton.
  - rewrite lookup_insert_ne by done. intros Hi.
    destruct (HI _ _ Hi) as (r & rm & [Hxc Hxh]%getRoom_Some & Hin).
    destruct (decide (r = ref)) as [->|Hr'].
    + eexists ref, _. split.
      * apply getRoom_Some. rewrite Hr, Hh. split; [done|].
        apply list_lookup_insert_eq. by eapply lookup_lt_Some.
      * rewrite ids_app. assert (rm = room) as -> by congruence.
        apply elem_of_app. by left.
    + exists r, rm. split; [|done]. apply getRoom_Some. rewrite Hr, Hh.
      split; [done|]. by rewrite list_lookup_insert_ne.
Qed.

Lemma joinRoom_RefsValid sid c name avatar s s' :
  joinRoom sid c name avatar s = Ok s' → RefsValid s → RefsValid s'.
Proof.
  intros [Hs|(ref & room & p & Hroom & Hid & Hr & Hh & info & Hc & Hp)]
           %joinRoom_cases HV;
    [by eapply same_RefsValid|].
  destruct HV as [HV Hinj]. split.
  - intros c' r. rewrite Hr, Hh. intros Hc'.
    destruct (HV _ _ Hc') as [rm Hrm].
    apply lookup_lt_is_Some. rewrite length_insert. by eapply lookup_lt_Some.
  - intros c1 c2 r. rewrite Hr. apply Hinj.
Qed.

Lemma joinRoom_RosterIndexed sid c name avatar s s' :
  players s !! sid = None →
  joinRoom sid c name avatar s = Ok s' →
  RefsValid s → RosterIndexed s → RosterIndexed s'.
Proof.
  intros Hnew
    [Hs|(ref & room & p & Hroom & Hid & Hr & Hh & info & Hc & Hp)]%joinRoom_cases
    [HV Hinj] HJ; [by eapply same_RosterIndexed|].
  pose proof Hroom as [Hrc Hrh]%getRoom_Some.
  intros c' r rm x [Hc' Hrm]%getRoom_Some Hin.
  rewrite Hr in Hc'. rewrite Hh in Hrm. rewrite Hp.
  destruct (decide (r = ref)) as [->|Hr'].
  - assert (c' = c) as -> by (by eapply Hinj).
    rewrite list_lookup_insert_eq in Hrm by (by eapply lookup_lt_Some).
    injection Hrm as <-. rewrite ids_app, Hid in Hin.
    apply elem_of_app in Hin as [Hin|Hin%list_elem_of_singleton].
    + destruct (HJ _ _ _ _ Hroom Hin) as (infox & Hi & Hci).
      exists infox. split; [|done]. rewrite lookup_insert_ne; [done|].
      intros <-. congruence.
    + subst x. rewrite lookup_insert_eq. by eexists.
  - rewrite list_lookup_insert_ne in Hrm by done.
    destruct (HJ c' r rm x) as (infox & Hi & Hci);
      [by apply getRoom_Some|done|].
    exists infox. split; [|done]. rewrite lookup_insert_ne; [done|].
    intros <-. congruence.
Qed.

(** *** disconnect *)

Lemma ids_without sid room x :
  x ∈ Room.ids (Room.setPlayers (rosterWithout sid room) room)
  ↔ x ∈ Room.ids room ∧ x ≠ sid.
Proof.
  unfold Room.ids, rosterWithout. simpl. rewrite !list_elem_of_fmap. split.
  - intros (p & -> & [Hne Hin]%list_elem_of_filter). split; [|done]. by exists p.
  - intros [(p & -> & Hin) Hne]. exists p. split; [done|].
    by apply list_elem_of_filter.
Qed.

(** After the roster, the index and the rate-limit record have lost
    [sid], the rest of [disconnect] either deletes the empty room or
    leaves membership alone. *)
Lemma disconnect_cases sid s s' :
  disconnect sid s = Ok s' →
  s' = s
  ∨ ∃ info ref room,
      players s !! sid = Some info
      ∧ getRoom (Info.room info) s = Some (ref, room)
      ∧ ((rosterWithout sid room = []
          ∧ rooms s' = delete (Info.room info) (rooms s)
          ∧ players s' = players (withoutPlayer sid ref room s)
          ∧ heap s' = heap (withoutPlayer sid ref room s))
         ∨ (rosterWithout sid room ≠ []
            ∧ SameMembership (withoutPlayer sid ref room s) s')).
Proof.
  unfold disconnect. destruct (players s !! sid) as [info|] eqn:Hp;
    [|intros [= <-]; by left].
  destruct (getRoom (Info.room info) s) as [[ref room]|] eqn:Hroom;
    [|intros [= <-]; by left].
  intros Hrun. right. exists info, ref, room. split; [done|]. split; [done|].
  fold (rosterWithout sid room) in *.
  pose proof Hroom as [Hrc Hrh]%getRoom_Some.
  destruct (rosterWithout sid room) as [|first rest] eqn:Hroster.
  { left. injection Hrun as <-. unfold withoutPlayer. rewrite Hroster.
    by split_and!. }
  right. split; [done|]. unfold withoutPlayer. rewrite Hroster.
  set (removed := setPlayers _ (putRoom _ _ s)).
  set (s5 := emit _ _ _) in Hrun.
  assert (SameMembership removed s5) as H5 by (by apply same_fields).
  assert (heap s5 !! ref = Some (Room.setPlayers (first :: rest) room)) as Hh5.
  { simpl. apply list_lookup_insert_eq. by eapply lookup_lt_Some. }
  destruct (bool_decide (sid = Room.host (Room.setPlayers (first :: rest) room)))
    eqn:Hhost.
  - destruct (players s5 !! Player.id first) as [infoh|] eqn:Hih; [|done].
    simpl in Hrun.
    set (s6 := emit _ _ _) in Hrun.
    assert (SameMembership s5 s6) as H6.
    { split_and!; [done| |].
      - intros x. simpl. destruct (decide (x = Player.id first)) as [->|Hne].
        + rewrite lookup_insert_eq. simpl in Hih. by rewrite Hih.
        + by rewrite lookup_insert_ne.
      - intros r. simpl. destruct (decide (r = ref)) as [->|Hne].
        + rewrite !list_lookup_insert_eq; [done|..];
            rewrite ?length_insert; by eapply lookup_lt_Some.
        + by rewrite !list_lookup_insert_ne. }
    destruct (_ && _).
    + apply endRound_same in Hrun.
      eapply same_trans; [exact H5|]. eapply same_trans; [exact H6|].
      eapply same_trans; [apply same_clearInterval|exact Hrun].
    + injection Hrun as <-. by eapply same_trans.
  - simpl in Hrun. destruct (_ && _).
    + apply endRound_same in Hrun.
      eapply same_trans; [exact H5|].
      eapply same_trans; [apply same_clearInterval|exact Hrun].
    + by injection Hrun as <-.
Qed.

Lemma without_heap sid ref room s r :
  heap s !! ref = Some room →
  heap (withoutPlayer sid ref room s) !! r
  = if decide (r = ref)
    then Some (Room.setPlayers (rosterWithout sid room) room)
    else heap s !! r.
Proof.
  intros Hh. unfold withoutPlayer. simpl. case_decide as Hr.
  - subst r. apply list_lookup_insert_eq. by eapply lookup_lt_Some.
  - by apply list_lookup_insert_ne.
Qed.

(** Another player's index entry still leads to a roster with that
    player. *)
Lemma without_index sid ref room s info x infox :
  players s !! sid = Some info →
  getRoom (Info.room info) s = Some (ref, room) →
  IndexSound s →
  x ≠ sid → players s !! x = Some infox →
  ∃ r rm, rooms s !! Info.room infox = Some r
          ∧ heap (withoutPlayer sid ref room s) !! r = Some rm
          ∧ x ∈ Room.ids rm.
Proof.
  intros Hp [Hc Hh]%getRoom_Some HI Hne Hi.
  destruct (HI _ _ Hi) as (r & rm & [Hxc Hxh]%getRoom_Some & Hin).
  destruct (decide (r = ref)) as [->|Hr].
  - eexists ref, _. split; [done|].
    rewrite (without_heap _ _ _ _ ref Hh), decide_True by done.
    split; [done|]. apply ids_without. split; [|done]. congruence.
  - exists r, rm. split; [done|].
    by rewrite (without_heap _ _ _ _ r Hh), decide_False.
Qed.

Lemma disconnect_IndexSound sid s s' :
  disconnect sid s = Ok s' → IndexSound s → IndexSound s'.
Proof.
  intros [->|(info & ref & room & Hp & Hroom & Hcases)]%disconnect_cases HI;
    [done|].
  destruct Hcases as [(Hempty & Hr & Hpl & Hh)|[Hne Hs]].
  - intros x infox. rewrite Hpl. simpl. intros Hi.
    apply lookup_delete_Some in Hi as [Hx Hi].
    destruct (without_index _ _ _ _ _ _ _ Hp Hroom HI ltac:(done) Hi)
      as (r & rm & Hxc & Hxh & Hin).
    exists r, rm. split; [|done]. apply getRoom_Some. rewrite Hr, Hh.
    split; [|done]. rewrite lookup_delete_ne; [done|].
    intros Heq. rewrite <- Heq in Hxc.
    apply getRoom_Some in Hroom as [Hc Hrh]. rewrite Hc in Hxc.
    injection Hxc as <-. rewrite (without_heap _ _ _ _ ref Hrh) in Hxh.
    rewrite decide_True in Hxh by done. injection Hxh as <-.
    unfold Room.ids in Hin. simpl in Hin. rewrite Hempty in Hin.
    by apply elem_of_nil in Hin.
  - eapply same_IndexSound; [exact Hs|].
    intros x infox. simpl. intros Hi.
    apply lookup_delete_Some in Hi as [Hx Hi].
    destruct (without_index _ _ _ _ _ _ _ Hp Hroom HI ltac:(done) Hi)
      as (r & rm & Hxc & Hxh & Hin).
    exists r, rm. split; [|done]. by apply getRoom_Some.
Qed.

Lemma without_RefsValid sid ref room s :
  RefsValid s → RefsValid (withoutPlayer sid ref room s).
Proof.
  intros [HV Hinj]. split; [|done]. intros c r Hc. simpl in *.
  destruct (HV _ _ Hc) as [rm Hrm]. apply lookup_lt_is_Some.
  rewrite length_insert. by eapply lookup_lt_Some.
Qed.

Lemma disconnect_RefsValid sid s s' :
  disconnect sid s = Ok s' → RefsValid s → RefsValid s'.
Proof.
  intros [->|(info & ref & room & Hp & Hroom & Hcases)]%disconnect_cases HV;
    [done|].
  pose proof (without_RefsValid sid ref room s HV) as [HV' Hinj'].
  destruct Hcases as [(Hempty & Hr & Hpl & Hh)|[Hne Hs]].
  - split.
    + intros c r. rewrite Hr, Hh. intros [_ Hc]%lookup_delete_Some.
      by eapply HV'.
    + intros c1 c2 r. rewrite Hr.
      intros [_ H1]%lookup_delete_Some [_ H2]%lookup_delete_Some.
      by eapply Hinj'.
  - by eapply same_RefsValid.
Qed.

(** A roster member of a live room is still indexed under that room. *)
Lemma without_roster sid ref room s info c r rm x :
  players s !! sid = Some info →
  getRoom (Info.room info) s = Some (ref, room) →
  RefsValid s → RosterIndexed s →
  rooms s !! c = Some r →
  heap (withoutPlayer sid ref room s) !! r = Some rm →
  x ∈ Room.ids rm →
  (r = ref → c = Info.room info)
  ∧ ∃ infox, delete sid (players s) !! x = Some infox ∧ Info.room infox = c.
Proof.
  intros Hp Hroom [HV Hinj] HJ Hc Hrm Hin.
  pose proof Hroom as [Hrc Hrh]%getRoom_Some.
  split; [intros ->; by eapply Hinj|].
  rewrite (without_heap _ _ _ _ r Hrh) in Hrm. case_decide as Hr.
  - subst r. injection Hrm as <-. apply ids_without in Hin as [Hin Hne].
    assert (c = Info.room info) as -> by (by eapply Hinj).
    destruct (HJ _ _ _ _ Hroom Hin) as (infox & Hi & Hci).
    exists infox. split; [|done]. by apply lookup_delete_Some.
  - destruct (HJ c r rm x) as (infox & Hi & Hci); [by apply getRoom_Some|done|].
    exists infox. split; [|done]. apply lookup_delete_Some. split; [|done].
    intros <-. assert (infox = info) as -> by congruence.
    rewrite Hci in Hrc. congruence.
Qed.

Lemma disconnect_RosterIndexed sid s s' :
  disconnect sid s = Ok s' → RefsValid s → RosterIndexed s → RosterIndexed s'.
Proof.
  intros [->|(info & ref & room & Hp & Hroom & Hcases)]%disconnect_cases HV HJ;
    [done|].
  destruct Hcases as [(Hempty & Hr & Hpl & Hh)|[Hne Hs]].
  - intros c r rm x [Hc Hrm]%getRoom_Some Hin.
    rewrite Hr in Hc. apply lookup_delete_Some in Hc as [Hcne Hc].
    rewrite Hh in Hrm. rewrite Hpl.
    by destruct (without_roster _ _ _ _ _ _ _ _ _ Hp Hroom HV HJ Hc Hrm Hin).
  - eapply same_RosterIndexed; [exact Hs|].
    intros c r rm x [Hc Hrm]%getRoom_Some Hin.
    by destruct (without_roster _ _ _ _ _ _ _ _ _ Hp Hroom HV HJ Hc Hrm Hin).
Qed.

(** *** Every event *)

Lemma step_same wl ev s s' :
  keepsMembership ev → step wl ev s = Ok s' → SameMembership s s'.
Proof.
  destruct ev; simpl; try done; intros _.
  - apply updateAvatar_same.
  - apply startGame_same.
  - apply drawing_same.
  - apply clearCanvas_same.
  - apply submitGuess_same.
  - apply sendChatMessage_same.
  - apply playAgain_same.
  - apply tick_same.
  - apply fire_same.
Qed.

Lemma step_IndexSound wl ev s s' :
  freshCode s ev → step wl ev s = Ok s' → IndexSound s → IndexSound s'.
Proof.
  intros Hfresh Hstep HI.
  destruct ev; try (by eapply same_IndexSound;
                      [eapply step_same; [|exact Hstep]|]).
  - by eapply createRoom_IndexSound.
  - by eapply joinRoom_IndexSound.
  - by eapply disconnect_IndexSound.
Qed.

Lemma step_RefsValid wl ev s s' :
  freshCode s ev → step wl ev s = Ok s' → RefsValid s → RefsValid s'.
Proof.
  intros Hfresh Hstep HV.
  destruct ev; try (by eapply same_RefsValid;
                      [eapply step_same; [|exact Hstep]|]).
  - by eapply createRoom_RefsValid.
  - by eapply joinRoom_RefsValid.
  - by eapply disconnect_RefsValid.
Qed.

Lemma step_RosterIndexed wl ev s s' :
  freshCode s ev → newcomer s ev → step wl ev s = Ok s' →
  RefsValid s → RosterIndexed s → RosterIndexed s'.
Proof.
  intros Hfresh Hnew Hstep HV HJ.
  destruct ev; try (by eapply same_RosterIndexed;
                      [eapply step_same; [|exact Hstep]|]).
  - by eapply createRoom_RosterIndexed.
  - by eapply joinRoom_RosterIndexed.
  - by eapply disconnect_RosterIndexed.
Qed.

Lemma init_invariants : IndexSound init ∧ RefsValid init ∧ RosterIndexed init.
Proof.
  split_and!.
  - intros sid info Hi. simpl in Hi. by rewrite lookup_empty in Hi.
  - split; intros *; simpl; by rewrite lookup_empty.
  - intros c ref room sid [Hc _]%getRoom_Some. simpl in Hc.
    by rewrite lookup_empty in Hc.
Qed.

Lemma Reach_weaken wl (ok ok' : Server.t → Event → Prop) s :
  (∀ s ev, ok s ev → ok' s ev) → Reach wl ok s → Reach wl ok' s.
Proof.
  intros Himp. induction 1 as [|s ev s' _ IH Hok Hstep]; [constructor|].
  eapply reach_step; [exact IH|by apply Himp|exact Hstep].
Qed.

Lemma Reach_run wl ok evs : ∀ s s',
  Reach wl ok s → allOk wl ok evs s → run wl evs s = Ok s' → Reach wl ok s'.
Proof.
  induction evs as [|ev rest IH]; intros s s' Hs Hok; simpl.
  - by intros [= <-].
  - destruct Hok as [Hev Hrest].
    destruct (step wl ev s) as [s1| |] eqn:Hstep; simpl; [|done..].
    apply IH; [|done]. by eapply reach_step.
Qed.

Lemma RosterIndexed_OneRoomEach s : RosterIndexed s → OneRoomEach s.
Proof.
  intros HJ c1 c2 r1 r2 rm1 rm2 sid H1 H2 Hin1 Hin2.
  destruct (HJ _ _ _ _ H1 Hin1) as (i1 & Hi1 & <-).
  destruct (HJ _ _ _ _ H2 Hin2) as (i2 & Hi2 & <-).
  congruence.
Qed.

(** C9, as stated, fails: nothing stops a socket that is in a room from
    joining another.  Ann creates ABCD, Bob creates AAAA, Ann joins AAAA:
    she is in both rosters, and her index entry names AAAA only. *)
Lemma player_in_two_rooms :
  let s := stateAfter
             [EvCreateRoom "A" "Ann" "a1" (0, 1, 2, 3)%nat;
              EvCreateRoom "B" "Bob" "b1" (0, 0, 0, 0)%nat;
              EvJoinRoom "A" "AAAA" "Ann" "a1"] in
  ((λ r, Room.ids r.2) <$> getRoom "ABCD" s) = Some ["A"]
  ∧ ((λ r, Room.ids r.2) <$> getRoom "AAAA" s) = Some ["B"; "A"]
  ∧ (Info.room <$> players s !! "A") = Some "AAAA".
Proof. vm_compute. done. Qed.

(** C9 (amended): the server does not stop a socket from creating or
    joining a room while it is in one, so a player id can be in several
    rosters.  In every state reached through events of any kind in which
    no generated room code collides with a live code, the index entry of
    a player names a live room whose roster contains the player.  If in
    addition every [createRoom] and [joinRoom] comes from a socket that
    has no index entry, then no player id is in the rosters of two
    different live rooms, and every roster member's index entry names the
    room of that roster. *)
Theorem index_names_a_room_of_the_player wl s :
  Reach wl freshCode s →
  IndexSound s
  ∧ (Reach wl (λ s ev, freshCode s ev ∧ newcomer s ev) s →
     OneRoomEach s ∧ RosterIndexed s).
Proof.
  intros Hreach. split.
  - induction Hreach as [|s ev s' _ IH Hok Hstep];
      [apply init_invariants|by eapply step_IndexSound].
  - clear Hreach. intros Hreach.
    assert (RefsValid s ∧ RosterIndexed s) as [_ HJ].
    { induction Hreach as [|s ev s' _ [HV HJ] [Hfresh Hnew] Hstep];
        [split; apply init_invariants|].
      split; [by eapply step_RefsValid|by eapply step_RosterIndexed]. }
    split; [by apply RosterIndexed_OneRoomEach|done].
Qed.

(** The lobby of three is reached without collisions and by newcomers
    only. *)
Lemma index_names_a_room_of_the_player_witness :
  let s := stateAfter lobbyOfThree in
  Reach sampleWords freshCode s
  ∧ IndexSound s ∧ OneRoomEach s ∧ RosterIndexed s.
Proof.
  intros s.
  assert (Reach sampleWords (λ s ev, freshCode s ev ∧ newcomer s ev) s)
    as Hboth.
  { apply (Reach_run _ _ lobbyOfThree init); [constructor| |by vm_compute].
    vm_compute. by split_and!. }
  assert (Reach sampleWords freshCode s) as Hfresh.
  { eapply Reach_weaken; [|exact Hboth]. by intros ? ? [? _]. }
  split; [done|].
  destruct (index_names_a_room_of_the_player sampleWords s Hfresh)
    as [HI Hrest].
  split; [done|]. by apply Hrest.
Defined.

End Membership.

(** ** Round ends and clean-up *)

Section RoundEnds.
Import Server Props.

(** [endRound] has no guard of its own: called twice in a row it advances
    the round counter twice and announces the end of the round twice. *)
Lemma endRound_twice c s ref room gs :
  getRoom c s = Some (ref, room) →
  Room.gameState room = Some gs →
  Game.currentRound gs + 1 < Game.rounds gs →
  ∃ s1 s2,
    endRound c s = Ok s1
    ∧ endRound c s1 = Ok s2
    ∧ roundIn c s2 = Some (Game.currentRound gs + 2)
    ∧ outbox s2
      = outbox s
        ++ [(ToRoom c, roundEnded (Game.scores gs) 3000);
            (ToRoom c, roundEnded (Game.scores gs) 3000)].
Proof.
  intros Hroom Hgs Hlt. pose proof Hroom as [Hc Hh]%getRoom_Some.
  assert (∀ x (s0 : t),
            rooms s0 = rooms s → length (heap s0) = length (heap s) →
            getRoom c (putRoom ref x s0) = Some (ref, x)) as Hput.
  { intros x s0 Hr Hl. apply getRoom_Some. simpl. rewrite Hr. split; [done|].
    apply list_lookup_insert_eq. rewrite Hl. by eapply lookup_lt_Some. }
  assert (∀ (s0 : t) to p cb,
            getRoom c (setTimeout cb (emit to p s0)) = getRoom c s0)
    as Hskip by done.
  destruct room as [ps host st settings g ti]. simpl in Hgs. subst g.
  unfold endRound at 1. rewrite Hroom. simpl Room.gameState. cbv iota beta.
  rewrite (proj2 (Z.leb_gt _ _)) by lia.
  destruct ti as [h|]; eexists _, _; (split; [reflexivity|]);
    unfold endRound; rewrite Hskip; simpl clearInterval;
    (rewrite Hput by done); simpl; (rewrite (proj2 (Z.leb_gt _ _)) by lia);
    (split; [reflexivity|]); unfold roundIn, gameIn;
    rewrite Hskip, Hput by (simpl; by rewrite ?length_insert);
    simpl; (split; [f_equal; lia|by rewrite <- app_assoc]).
Qed.

(** The empty-room branch of [disconnect] removes the room entry and
    leaves timers and word locks as they are. *)
Lemma disconnect_last_player sid s info ref room :
  players s !! sid = Some info →
  getRoom (Info.room info) s = Some (ref, room) →
  rosterWithout sid room = [] →
  ∃ s',
    disconnect sid s = Ok s'
    ∧ rooms s' = delete (Info.room info) (rooms s)
    ∧ intervals s' = intervals s
    ∧ timeouts s' = timeouts s
    ∧ activeWords s' = activeWords s.
Proof.
  intros Hp Hroom Hempty. unfold disconnect. rewrite Hp, Hroom.
  fold (rosterWithout sid room). rewrite Hempty. by eexists.
Qed.

(** C2: the code breaks the claim.  Bob and Cy both guess the word, which
    stops the round timer and schedules [endRound] two seconds later
    (timeout 1).  Ann, the drawer, disconnects inside those two seconds:
    [endRound] runs at once, the round counter goes from 1 to 2 and
    [roundEnded] is sent.  The scheduled call was not cancelled; when it
    fires, [endRound] runs again for the round that has already ended:
    the counter goes to 3, [roundEnded] is sent a second time and a second
    [startRound] is scheduled, although only one round has been started. *)
Theorem round_one_ends_twice :
  let guesses :=
    gameOfThree 60 15
    ++ [EvSubmitGuess "B" "apple" 1015000 [1%nat];
        EvSubmitGuess "C" "Apple" 1016000 [1%nat]] in
  let s1 := stateAfter guesses in
  let s2 := stateAfter (guesses ++ [EvDisconnect "A"]) in
  let s3 := stateAfter
              (guesses ++ [EvDisconnect "A"; EvTimeout 1 1018000 0 0]) in
  (roundIn "ABCD" s1 = Some 1
   ∧ intervals s1 = ∅
   ∧ timeouts s1 !! 1%nat = Some (afterGrace "ABCD"))
  ∧ (roundIn "ABCD" s2 = Some 2
     ∧ length (sent isRoundEnded s2) = 1%nat
     ∧ timeouts s2 !! 1%nat = Some (afterGrace "ABCD"))
  ∧ (roundIn "ABCD" s3 = Some 3
     ∧ length (sent isRoundEnded s3) = 2%nat
     ∧ length (sent isRoundStarted s3) = 1%nat
     ∧ timeouts s3 !! 2%nat = Some (nextRound "ABCD")
     ∧ timeouts s3 !! 3%nat = Some (nextRound "ABCD")).
Proof. vm_compute. by split_and!. Qed.

(** C4: the code breaks the claim.  Ann draws "Apple" in a room of two;
    Bob leaves, then Ann, the last player.  The room entry is removed,
    but the round timer (interval 0) is still scheduled and the word is
    still locked: [isWordLocked] answers true.  The timer keeps ticking on
    the orphaned room object until it reaches zero; [endRound] then finds
    no room and returns before [releaseWord], so the lock entry is never
    removed. *)
Theorem empty_room_keeps_timer_and_lock :
  let leaving := gameOfTwo 60 5 ++ [EvDisconnect "B"; EvDisconnect "A"] in
  let s := stateAfter leaving in
  let s' := stateAfter (leaving ++ replicate 55 (EvInterval 0)) in
  (rooms s = ∅ ∧ players s = ∅
   ∧ intervals s !! 0%nat = Some (0%nat, "ABCD")
   ∧ WordManager.isWordLocked 1006000 "Apple" (activeWords s) = true)
  ∧ (intervals s' = ∅
     ∧ (WordManager.timestamp <$> activeWords s' !! "apple") = Some 1000000).
Proof. vm_compute. by split_and!. Qed.

End RoundEnds.

(** ** Rate limiting across players and over time *)

Section PerPlayer.
Import AntiCheat Props Interleaving.

(** The verdict and the records a call leaves for its player depend on
    that player's records only. *)
Lemma checkCooldown_local now p ty st1 st2 :
  cooldowns st1 !! p = cooldowns st2 !! p →
  spamCounts st1 !! p = spamCounts st2 !! p →
  (checkCooldown now p ty st1).1 = (checkCooldown now p ty st2).1
  ∧ cooldowns (checkCooldown now p ty st1).2 !! p
    = cooldowns (checkCooldown now p ty st2).2 !! p
  ∧ spamCounts (checkCooldown now p ty st1).2 !! p
    = spamCounts (checkCooldown now p ty st2).2 !! p.
Proof.
  intros Hcd Hsp. unfold checkCooldown, getOrInit.
  destruct (cooldowns st1 !! p) as [cd|] eqn:E1;
    destruct (spamCounts st1 !! p) as [sp|] eqn:E2;
    rewrite <- Hcd, <- Hsp; simpl; repeat case_match; simpl;
    by rewrite ?lookup_insert_eq, ?E1, ?E2, <- ?Hcd, <- ?Hsp.
Qed.

Lemma checkCooldown_frame now p ty st q :
  q ≠ p →
  cooldowns (checkCooldown now p ty st).2 !! q = cooldowns st !! q
  ∧ spamCounts (checkCooldown now p ty st).2 !! q = spamCounts st !! q.
Proof.
  intros Hq. destruct (checkCooldown now p ty st) as [v st'] eqn:Hc.
  apply checkCooldown_cases in Hc as [Hframe _]. by apply Hframe.
Qed.

Lemma checkAll_local p acts : ∀ st1 st2,
  cooldowns st1 !! p = cooldowns st2 !! p →
  spamCounts st1 !! p = spamCounts st2 !! p →
  (checkAll p acts st1).1 = (checkAll p acts st2).1.
Proof.
  induction acts as [|[ty now] rest IH]; intros st1 st2 Hcd Hsp; [done|].
  simpl. destruct (checkCooldown_local now p ty st1 st2 Hcd Hsp)
    as (Hv & Hcd' & Hsp').
  destruct (checkCooldown now p ty st1) as [v1 st1'].
  destruct (checkCooldown now p ty st2) as [v2 st2']. simpl in *.
  specialize (IH st1' st2' Hcd' Hsp').
  destruct (checkAll p rest st1') as [vs1 ?].
  destruct (checkAll p rest st2') as [vs2 ?]. simpl in *. by subst.
Qed.

(** X1: rate limiting is per player.  In any interleaving of calls by any
    players, the verdicts a player gets are the verdicts that player's own
    calls would get alone, from the same starting records. *)
Theorem rate_limit_is_per_player acts : ∀ st p,
  verdictsOf p acts (checkEach acts st).1 = (checkAll p (actsOf p acts) st).1.
Proof.
  induction acts as [|[[q ty] now] rest IH]; intros st p; [done|].
  simpl. destruct (checkCooldown now q ty st) as [v st1] eqn:Hc.
  specialize (IH st1 p).
  destruct (checkEach rest st1) as [vs st2] eqn:Hrest. simpl in *.
  case_bool_decide as Hq.
  - subst q. simpl. rewrite Hc.
    destruct (checkAll p (actsOf p rest) st1) as [vs' st3]. simpl in *.
    by rewrite IH.
  - rewrite IH. apply checkAll_local.
    + replace st1 with (checkCooldown now q ty st).2 by (by rewrite Hc).
      by apply checkCooldown_frame.
    + replace st1 with (checkCooldown now q ty st).2 by (by rewrite Hc).
      by apply checkCooldown_frame.
Qed.

Lemma accepted_cons v vs :
  accepted (v :: vs) = ((if v then 1 else 0) + accepted vs)%nat.
Proof. unfold accepted. by destruct v. Qed.

(** Inside a window that started at [w] with [c] actions counted, at most
    [SPAM_LIMIT - c] further actions are accepted. *)
Lemma checkAll_cap p acts : ∀ st c w,
  spamCounts st !! p = Some {| count := c; lastReset := w |} →
  Forall (λ a, a.2 - w ≤ SPAM_WINDOW) acts →
  Z.of_nat (accepted (checkAll p acts st).1) ≤ Z.max 0 (SPAM_LIMIT - c).
Proof.
  induction acts as [|[ty t] rest IH]; intros st c w Hsp Hwin;
    [unfold accepted; simpl; lia|].
  inversion Hwin as [|? ? Hw1 Hw2]; subst. simpl in Hw1.
  simpl. destruct (checkCooldown t p ty st) as [v st1] eqn:Hc.
  destruct (checkAll p rest st1) as [vs st2] eqn:Hrest. simpl.
  apply checkCooldown_cases in Hc as [_ Hc].
  unfold spamOf, rolled in Hc. rewrite Hsp in Hc. simpl in Hc.
  rewrite (proj2 (Z.ltb_ge _ _)) in Hc by lia.
  rewrite accepted_cons.
  destruct Hc as [(Hv & _ & Hsp1 & _)|(Hv & _ & Hsp1 & Hlt & _)];
    rewrite Hv; simpl in *.
  - specialize (IH st1 c w Hsp1 Hw2). rewrite Hrest in IH. simpl in IH.
    unfold SPAM_LIMIT in *. lia.
  - specialize (IH st1 (c + 1) w Hsp1 Hw2). rewrite Hrest in IH.
    simpl in IH. unfold SPAM_LIMIT in *. lia.
Qed.

Lemma stamp_grows now q ty' st p ty :
  stamp ty (stampsOf p st)
  ≤ stamp ty (stampsOf p (checkCooldown now q ty' st).2).
Proof.
  destruct (checkCooldown now q ty' st) as [v st'] eqn:Hc. simpl.
  apply checkCooldown_cases in Hc as [Hframe Hc].
  destruct (decide (p = q)) as [->|Hne].
  - unfold stampsOf at 2.
    destruct Hc as [(_ & -> & _)|(_ & -> & _ & _ & Hle)]; simpl; [done|].
    destruct (decide (ty = ty')) as [->|Hty].
    + rewrite stamp_setStamp. unfold LAST_GUESS_TIMEOUT in Hle. lia.
    + by rewrite stamp_setStamp_ne.
  - unfold stampsOf. by rewrite (proj1 (Hframe p Hne)).
Qed.

(** An accepted call comes at least [LAST_GUESS_TIMEOUT] after the
    timestamp its kind had when the run began. *)
Lemma accepted_after_stamp p ty acts : ∀ st j tj,
  acts !! j = Some (p, ty, tj) →
  (checkEach acts st).1 !! j = Some true →
  stamp ty (stampsOf p st) + LAST_GUESS_TIMEOUT ≤ tj.
Proof.
  induction acts as [|[[q ty'] t] rest IH]; intros st j tj Hj Hv; [done|].
  simpl in Hv. pose proof (stamp_grows t q ty' st p ty) as Hgrow.
  destruct (checkCooldown t q ty' st) as [v st1] eqn:Hc.
  destruct (checkEach rest st1) as [vs st2] eqn:Hrest. simpl in *.
  destruct j as [|j]; simpl in *.
  - injection Hj as -> -> ->. injection Hv as Hv.
    apply checkCooldown_cases in Hc as [_ [(Hv' & _)|(_ & _ & _ & _ & Hle)]];
      [congruence|done].
  - specialize (IH st1 j tj Hj). rewrite Hrest in IH. specialize (IH Hv). lia.
Qed.

Lemma retry_remaining now p ty st v st' :
  checkCooldown now p ty st = (v, st') →
  allowed v = false →
  remaining v
  = Some (if SPAM_LIMIT <=? count (rolled now (spamOf now p st)) then
            SPAM_WINDOW - (now - lastReset (spamOf now p st))
          else stamp ty (stampsOf p st) + LAST_GUESS_TIMEOUT - now).
Proof.
  unfold checkCooldown, getOrInit, stampsOf, spamOf, rolled,
    SPAM_WINDOW, SPAM_LIMIT, LAST_GUESS_TIMEOUT.
  destruct (cooldowns st !! p) as [cd|] eqn:Hcd;
    destruct (spamCounts st !! p) as [sp|] eqn:Hsp; simpl;
    repeat case_match; intros [= <- <-]; simpl; try done; lia.
Qed.

(** X2: the burst limit holds whatever the kinds and the spacing.  A player
    without a spam record gets at most [SPAM_LIMIT] = 5 accepted results
    from any sequence of calls whose clock readings are at most
    [SPAM_WINDOW] = 5000 ms after the first call. *)
Theorem at_most_five_per_window p st ty0 t0 rest :
  spamCounts st !! p = None →
  Forall (λ a, a.2 - t0 ≤ SPAM_WINDOW) rest →
  (accepted (checkAll p ((ty0, t0) :: rest) st).1 ≤ 5)%nat.
Proof.
  intros Hsp Hwin. simpl.
  destruct (checkCooldown t0 p ty0 st) as [v st1] eqn:Hc.
  destruct (checkAll p rest st1) as [vs st2] eqn:Hrest. simpl.
  apply checkCooldown_cases in Hc as [_ Hc].
  unfold spamOf, rolled in Hc. rewrite Hsp in Hc. simpl in Hc.
  rewrite (proj2 (Z.ltb_ge _ _)) in Hc by (unfold SPAM_WINDOW; lia).
  rewrite accepted_cons. simpl in Hc.
  destruct Hc as [(Hv & _ & Hsp1 & _)|(Hv & _ & Hsp1 & _)]; rewrite Hv.
  - pose proof (checkAll_cap p rest st1 _ _ Hsp1 Hwin) as Hcap.
    rewrite Hrest in Hcap. simpl in Hcap. unfold SPAM_LIMIT in Hcap. lia.
  - pose proof (checkAll_cap p rest st1 _ _ Hsp1 Hwin) as Hcap.
    rewrite Hrest in Hcap. simpl in Hcap. unfold SPAM_LIMIT in Hcap. lia.
Qed.

(** Eight calls in four seconds, seven of them a second apart per kind. *)
Lemma at_most_five_per_window_witness :
  let rest := [(message, 10000); (guess, 11000); (message, 11000);
               (guess, 12000); (message, 12000); (guess, 13000);
               (message, 13000)] in
  let verdicts := (checkAll "p" ((guess, 10000) :: rest) AntiCheat.empty).1 in
  (accepted verdicts ≤ 5)%nat
  ∧ verdicts = [true; true; true; true; true; false; false; false].
Proof.
  intros rest verdicts. split; [|by vm_compute].
  apply at_most_five_per_window; [done|].
  unfold rest, SPAM_WINDOW. repeat constructor; simpl; lia.
Defined.

(** X3: the cooldown holds across any interleaving.  In any sequence of
    calls by any players at any clock readings, two accepted calls of the
    same player and the same kind are at least [LAST_GUESS_TIMEOUT] =
    1000 ms apart. *)
Theorem accepted_same_kind_a_second_apart acts : ∀ st i j p ty ti tj,
  (i < j)%nat →
  acts !! i = Some (p, ty, ti) →
  acts !! j = Some (p, ty, tj) →
  (checkEach acts st).1 !! i = Some true →
  (checkEach acts st).1 !! j = Some true →
  ti + LAST_GUESS_TIMEOUT ≤ tj.
Proof.
  induction acts as [|[[q ty'] t] rest IH]; intros st i j p ty ti tj Hij Hi Hj
    Hvi Hvj; [done|].
  simpl in Hvi, Hvj. destruct (checkCooldown t q ty' st) as [v st1] eqn:Hc.
  pose proof (accepted_after_stamp p ty rest st1) as Hafter.
  specialize (IH st1).
  destruct (checkEach rest st1) as [vs st2] eqn:Hrest. simpl in *.
  destruct j as [|j]; [lia|]. simpl in *.
  destruct i as [|i]; simpl in *.
  - injection Hi as -> -> ->. injection Hvi as Hv.
    specialize (Hafter j tj Hj Hvj).
    apply checkCooldown_accepted in Hc as [Hst _]; [|done].
    rewrite Hst, stamp_setStamp in Hafter. done.
  - eapply (IH i j); [lia|done..].
Qed.

(** Ann and Bob guess and chat in turn; Ann's two accepted guesses. *)
Lemma accepted_same_kind_a_second_apart_witness :
  let acts := [("A", guess, 10000); ("B", guess, 10200);
               ("A", message, 10400); ("A", guess, 10900);
               ("A", guess, 11000)] in
  (checkEach acts AntiCheat.empty).1 = [true; true; true; false; true]
  ∧ 10000 + LAST_GUESS_TIMEOUT ≤ 11000.
Proof.
  intros acts. split; [by vm_compute|].
  apply (accepted_same_kind_a_second_apart acts AntiCheat.empty 0 4 "A" guess);
    [lia|by vm_compute..].
Defined.

(** X4: what the [remaining] hint of a refusal is worth.  A refused call
    carries a hint.  When the refusal is for the cooldown, the hint is
    positive and exact: the same call is refused at every earlier time
    and accepted exactly [remaining] ms later.  When it is for the burst
    limit, the hint is not negative and one millisecond short: the same
    call [remaining] ms later is refused again, and one millisecond after
    that the window is over and only the cooldown decides. *)
Theorem retry_after_hint now p ty st :
  let r := checkCooldown now p ty st in
  let again d := allowed (checkCooldown (now + d) p ty r.2).1 in
  allowed r.1 = false →
  ∃ wait,
    remaining r.1 = Some wait
    ∧ ((count (rolled now (spamOf now p st)) < SPAM_LIMIT
        ∧ 0 < wait
        ∧ (∀ d, 0 ≤ d < wait → again d = false)
        ∧ again wait = true)
       ∨ (SPAM_LIMIT ≤ count (rolled now (spamOf now p st))
          ∧ 0 ≤ wait
          ∧ again wait = false
          ∧ again (wait + 1)
            = bool_decide (stamp ty (stampsOf p st) + LAST_GUESS_TIMEOUT
                           ≤ now + wait + 1))).
Proof.
  intros r again Hv. subst r again.
  destruct (checkCooldown now p ty st) as [v st'] eqn:Hc. simpl in *.
  rewrite (retry_remaining _ _ _ _ _ _ Hc Hv). eexists. split; [done|].
  apply checkCooldown_cases in Hc as [_ [(_ & Hcd & Hsp & Hwhy)|(Hv' & _)]];
    [|congruence].
  assert (∀ t, stampsOf p st' = stampsOf p st
               ∧ spamOf t p st' = rolled now (spamOf now p st)) as Hrec.
  { intros t. unfold stampsOf, spamOf in *. by rewrite Hcd, Hsp. }
  set (sp := rolled now (spamOf now p st)) in *.
  set (cd := stampsOf p st) in *.
  assert (∀ t v2 st2, checkCooldown t p ty st' = (v2, st2) →
            (allowed v2 = false
             ∧ (SPAM_LIMIT ≤ count (rolled t sp)
                ∨ t < stamp ty cd + LAST_GUESS_TIMEOUT))
            ∨ (allowed v2 = true ∧ count (rolled t sp) < SPAM_LIMIT
               ∧ stamp ty cd + LAST_GUESS_TIMEOUT ≤ t)) as Hnext.
  { intros t v2 st2 Hc2.
    apply checkCooldown_cases in Hc2 as [_ Hc2].
    destruct (Hrec t) as [E1 E2]. cbv zeta in Hc2.
    rewrite E1, E2 in Hc2.
    destruct Hc2 as [(? & _ & _ & ?)|(? & _ & _ & ? & ?)]; [by left|by right]. }
  destruct (SPAM_LIMIT <=? count sp) eqn:Hfull.
  - apply Z.leb_le in Hfull. right.
    assert (sp = spamOf now p st ∧ now - lastReset sp ≤ SPAM_WINDOW)
      as [Hsame Hin].
    { subst sp. unfold rolled in *. unfold SPAM_LIMIT in *.
      destruct (SPAM_WINDOW <? now - lastReset (spamOf now p st)) eqn:Hr;
        simpl in *; [lia|]. apply Z.ltb_ge in Hr. done. }
    rewrite <- Hsame. split; [done|]. split; [lia|].
    split.
    + destruct (checkCooldown (now + (SPAM_WINDOW - (now - lastReset sp))) p ty st')
        as [v2 st2] eqn:Hc2. simpl.
      destruct (Hnext _ _ _ Hc2) as [[? _]|(_ & Hlt & _)]; [done|].
      unfold rolled in Hlt.
      rewrite (proj2 (Z.ltb_ge _ _)) in Hlt by lia. lia.
    + destruct (checkCooldown (now + (SPAM_WINDOW - (now - lastReset sp) + 1)) p ty st')
        as [v2 st2] eqn:Hc2. simpl.
      destruct (Hnext _ _ _ Hc2) as [[-> Hor]|(-> & _ & Hle)]; symmetry.
      * apply bool_decide_eq_false. destruct Hor as [Hor|Hor]; [|lia].
        unfold rolled in Hor.
        rewrite (proj2 (Z.ltb_lt _ _)) in Hor by lia.
        simpl in Hor. unfold SPAM_LIMIT in Hor. lia.
      * apply bool_decide_eq_true. lia.
  - apply Z.leb_gt in Hfull. left. split; [done|].
    destruct Hwhy as [Hwhy|Hwhy]; [lia|]. split; [lia|]. split.
    + intros d Hd.
      destruct (checkCooldown (now + d) p ty st') as [v2 st2] eqn:Hc2. simpl.
      destruct (Hnext _ _ _ Hc2) as [[? _]|(_ & _ & Hle)]; [done|lia].
    + destruct (checkCooldown (now + (stamp ty cd + LAST_GUESS_TIMEOUT - now)) p ty st')
        as [v2 st2] eqn:Hc2. simpl.
      destruct (Hnext _ _ _ Hc2) as [[_ Hor]|[? _]]; [|done].
      destruct Hor as [Hor|Hor]; [|lia].
      unfold rolled in Hor. unfold SPAM_LIMIT in *.
      destruct (SPAM_WINDOW <? _); simpl in Hor; lia.
Qed.

(** A guess 400 ms after an accepted guess: wait 600 ms. *)
Lemma retry_after_hint_witness :
  let st := (checkCooldown 10000 "p" guess AntiCheat.empty).2 in
  let r := checkCooldown 10400 "p" guess st in
  remaining r.1 = Some 600
  ∧ allowed (checkCooldown (10400 + 599) "p" guess r.2).1 = false
  ∧ allowed (checkCooldown (10400 + 600) "p" guess r.2).1 = true.
Proof.
  intros st r.
  destruct (retry_after_hint 10400 "p" guess st) as (wait & Hw & Hcases);
    [by vm_compute|].
  fold r in Hw, Hcases.
  assert (wait = 600) as -> by (vm_compute in Hw; congruence).
  split; [done|].
  destruct Hcases as [(_ & _ & Hearly & Hlate)|(Hfull & _)].
  - split; [apply Hearly; lia|done].
  - vm_compute in Hfull. by destruct Hfull.
Defined.
End PerPlayer.

(** ** Word locks and masks *)

Section Words.
Import WordManager Keys.

(** X5: what [getRandomWord] returns, for a difficulty that is not a name
    inherited from [Object.prototype].  It never loops.  When it returns,
    the word is taken from the list of the requested difficulty, or from
    the list "easy" when the difficulty has no list at all, and the word
    is recorded, in lower case, with the clock reading and the requested
    difficulty.  It throws only when there is no list to take from or the
    list is empty; an empty list of the requested difficulty does not
    fall back to "easy". *)
Theorem getRandomWord_outcome wl now k d aw :
  ownKey d = true →
  match getRandomWord wl now k d aw with
  | Ok (w, aw') =>
      ∃ l, listFor wl d = Some l ∧ w ∈ l
           ∧ (wl !! d = None → wl !! "easy" = Some l)
           ∧ (is_Some (wl !! d) → wl !! d = Some l)
           ∧ aw' !! JS.toLowerCase w
             = Some {| timestamp := now; difficulty := d |}
  | Throw _ => listFor wl d = None ∨ listFor wl d = Some []
  | Spin => False
  end.
Proof.
  intros _. unfold getRandomWord, listFor.
  destruct (wl !! d) as [l|] eqn:Hd.
  - destruct (l !! _) as [w|] eqn:Hw.
    + exists l. split; [done|]. split; [by eapply list_elem_of_lookup_2|].
      split; [done|]. split; [done|]. by rewrite lookup_insert_eq.
    + right. f_equal. destruct l as [|x l]; [done|].
      apply lookup_ge_None in Hw.
      pose proof (randIndex_lt (length (x :: l)) k) as Hlt.
      simpl in *. lia.
  - destruct (wl !! "easy") as [l|] eqn:He; [|by left].
    destruct (l !! _) as [w|] eqn:Hw.
    + exists l. split; [done|]. split; [by eapply list_elem_of_lookup_2|].
      split; [done|]. split; [by intros [? ?]|]. by rewrite lookup_insert_eq.
    + right. f_equal. destruct l as [|x l]; [done|].
      apply lookup_ge_None in Hw.
      pose proof (randIndex_lt (length (x :: l)) k) as Hlt.
      simpl in *. lia.
Qed.

(** The list "easy" serves a difficulty that has no list. *)
Lemma getRandomWord_outcome_witness :
  let wl : gmap string (list string) := {[ "easy" := ["Apple"; "house"] ]} in
  match getRandomWord wl 1000 3 "hard" ∅ with
  | Ok (w, aw') =>
      ∃ l, listFor wl "hard" = Some l ∧ w ∈ l
           ∧ (wl !! "hard" = None → wl !! "easy" = Some l)
           ∧ (is_Some (wl !! "hard") → wl !! "hard" = Some l)
           ∧ aw' !! JS.toLowerCase w
             = Some {| timestamp := 1000; difficulty := "hard" |}
  | Throw _ => listFor wl "hard" = None ∨ listFor wl "hard" = Some []
  | Spin => False
  end.
Proof. intros wl. by apply getRandomWord_outcome. Defined.

(** X6: a drawn word is locked for [WORD_LOCK_TIME] = 30000 ms.  After
    [getRandomWord] returned a word at clock reading [now],
    [isWordLocked] at clock reading [t] answers [t - now < 30000] for the
    word in any letter case, and answers as before for every other
    word. *)
Theorem drawn_word_is_locked wl now k d aw w aw' :
  getRandomWord wl now k d aw = Ok (w, aw') →
  ∀ t v,
    isWordLocked t v aw'
    = if bool_decide (JS.toLowerCase v = JS.toLowerCase w)
      then bool_decide (t - now < WORD_LOCK_TIME)
      else isWordLocked t v aw.
Proof.
  unfold getRandomWord. destruct (listFor wl d) as [l|]; [|done].
  destruct (l !! _) as [w0|]; [|done]. intros [= <- <-] t v.
  unfold isWordLocked. case_bool_decide as Hv.
  - rewrite Hv, lookup_insert_eq. simpl.
    case_bool_decide; [by apply Z.ltb_lt|by apply Z.ltb_ge; lia].
  - by rewrite lookup_insert_ne.
Qed.

Lemma drawn_word_is_locked_witness :
  let wl : gmap string (list string) := {[ "easy" := ["Apple"; "house"] ]} in
  let aw' : gmap string Entry :=
    {[ "apple" := {| timestamp := 1000; difficulty := "hard" |} ]} in
  getRandomWord wl 1000 2 "hard" ∅ = Ok ("Apple", aw')
  ∧ isWordLocked 30999 "APPLE" aw' = true
  ∧ isWordLocked 31000 "APPLE" aw' = false
  ∧ isWordLocked 30999 "house" aw' = false.
Proof.
  intros wl aw'.
  assert (getRandomWord wl 1000 2 "hard" ∅ = Ok ("Apple", aw')) as Hg
    by (by vm_compute).
  split; [done|].
  rewrite !(drawn_word_is_locked _ _ _ _ _ _ _ Hg). by vm_compute.
Defined.

(** X7: [releaseWord] ends the lock of its word, whatever the letter
    case, and leaves the answer of [isWordLocked] for every other word
    as it was. *)
Theorem releaseWord_unlocks w aw t v :
  isWordLocked t v (releaseWord w aw)
  = if bool_decide (JS.toLowerCase v = JS.toLowerCase w) then false
    else isWordLocked t v aw.
Proof.
  unfold isWordLocked, releaseWord. case_bool_decide as Hv.
  - by rewrite Hv, lookup_delete_eq.
  - by rewrite lookup_delete_ne.
Qed.
End Words.

Section MaskShape.
Import WordManager Props.

Lemma split_lookup w : ∀ i,
  JS.split w !! i = (λ c, String c "") <$> String.get i w.
Proof.
  induction w as [|c w IH]; intros [|i]; simpl; try done.
Qed.

Lemma get_lt w : ∀ i c, String.get i w = Some c → (i < String.length w)%nat.
Proof.
  induction w as [|a w IH]; intros i c; [done|].
  destruct i as [|i]; simpl; [lia|]. intros Hc%IH. lia.
Qed.

Lemma join_gap parts : ∀ i,
  Forall (λ q, String.length q = 1%nat) parts →
  (S i < length parts)%nat →
  String.get (2 * i + 1) (JS.join " " parts) = Some " "%char.
Proof.
  induction parts as [|q rest IH]; intros i Hone Hi; [simpl in Hi; lia|].
  inversion Hone as [|? ? Hq Hrest]; subst.
  destruct q as [|c [|? ?]]; try done.
  destruct rest as [|q' rest']; [simpl in Hi; lia|].
  change (JS.join " " (String c "" :: q' :: rest'))
    with (String c (String " " (JS.join " " (q' :: rest')))).
  destruct i as [|i]; [done|].
  replace (2 * S i + 1)%nat with (S (S (2 * i + 1))) by lia.
  simpl String.get. apply IH; [done|]. simpl in *. lia.
Qed.

(** The loop only ever appends. *)
Lemma revealLoop_keeps len target draws : ∀ revealed res,
  revealLoop len target revealed draws = Some res →
  ∀ i, i ∈ revealed → i ∈ res.
Proof.
  induction draws as [|k rest IH]; intros revealed res; simpl.
  - case_match; [done|]. by intros [= <-].
  - case_match; [|by intros [= <-]].
    intros Hres i Hi. eapply IH; [exact Hres|].
    case_bool_decide; [done|]. apply elem_of_app. by left.
Qed.

(** The loop ends with distinct positions below [len], as many as the
    target asks for. *)
Lemma revealLoop_distinct len target draws : ∀ revealed res,
  (0 < len)%nat →
  revealLoop len target revealed draws = Some res →
  NoDup revealed → Forall (λ i, (i < len)%nat) revealed →
  NoDup res ∧ Forall (λ i, (i < len)%nat) res
  ∧ target ≤ Z.of_nat (length res).
Proof.
  induction draws as [|k rest IH]; intros revealed res Hlen; simpl.
  - destruct (_ <? target) eqn:Hlt; [done|]. intros [= <-] ? ?.
    apply Z.ltb_ge in Hlt. done.
  - destruct (_ <? target) eqn:Hlt.
    + intros Hres Hnd Hall. eapply IH; [done|exact Hres|..];
        case_bool_decide as Hin; try done.
      * apply NoDup_app. split; [done|]. split; [|apply NoDup_singleton].
        intros x Hx ->%list_elem_of_singleton. done.
      * apply Forall_app. split; [done|]. apply Forall_singleton.
        by apply randIndex_lt.
    + intros [= <-] ? ?. apply Z.ltb_ge in Hlt. done.
Qed.

Lemma distinct_below (l : list nat) n :
  NoDup l → Forall (λ i, (i < n)%nat) l → (length l ≤ n)%nat.
Proof.
  intros Hnd Hall.
  assert (l ⊆+ seq 0 n) as Hsub.
  { apply NoDup_submseteq; [done|]. intros x Hx. apply elem_of_seq.
    rewrite Forall_forall in Hall. specialize (Hall x Hx). lia. }
  apply submseteq_length in Hsub. by rewrite length_seq in Hsub.
Qed.

(** X8: the shape of [maskWord]'s rendering, for any reveal percentage.
    Position [2i] of the rendering shows character [i] of the word or the
    placeholder [_]; the first character is always shown; and between
    two characters of the word stands one space. *)
Theorem maskWord_shape w r draws m :
  maskWord w r draws = Some m →
  ∀ i c, String.get i w = Some c →
    (String.get (2 * i) m = Some c ∨ String.get (2 * i) m = Some "_"%char)
    ∧ (i = 0%nat → String.get (2 * i) m = Some c)
    ∧ (is_Some (String.get (S i) w) →
       String.get (2 * i + 1) m = Some " "%char).
Proof.
  intros Hm i c Hc. unfold maskWord in Hm.
  case_bool_decide as Hw; [by subst|].
  destruct (revealLoop _ _ _ _) as [revealed|] eqn:Hloop; simpl in Hm; [|done].
  injection Hm as <-.
  set (parts := imap _ _).
  assert (Forall (λ q, String.length q = 1%nat) parts) as Hone.
  { apply Forall_lookup. intros j p. unfold parts. rewrite list_lookup_imap.
    destruct (JS.split w !! j) as [q|] eqn:Hq; simpl; [|done].
    intros [= <-]. case_bool_decide; [|done].
    by eapply (proj1 (Forall_lookup _ _) (split_singletons w)). }
  assert (parts !! i
          = Some (if bool_decide (i ∈ revealed) then String c "" else "_"))
    as Hp.
  { unfold parts. by rewrite list_lookup_imap, split_lookup, Hc. }
  pose proof (join_get parts i _ Hone Hp) as Hget.
  split_and!.
  - rewrite Hget. case_bool_decide; [by left|by right].
  - intros ->. rewrite Hget.
    rewrite bool_decide_eq_true_2; [done|].
    eapply revealLoop_keeps; [exact Hloop|]. apply list_elem_of_singleton. done.
  - intros [c' Hc']. apply join_gap; [done|].
    unfold parts. rewrite length_imap, split_length. by eapply get_lt.
Qed.

Lemma maskWord_shape_witness :
  maskWord "house" defaultReveal [] = Some "h _ _ _ _"
  ∧ (String.get (2 * 0) "h _ _ _ _" = Some "h"%char
     ∨ String.get (2 * 0) "h _ _ _ _" = Some "_"%char)
  ∧ (0%nat = 0%nat → String.get (2 * 0) "h _ _ _ _" = Some "h"%char)
  ∧ (is_Some (String.get 1 "house") →
     String.get (2 * 0 + 1) "h _ _ _ _" = Some " "%char).
Proof.
  assert (maskWord "house" defaultReveal [] = Some "h _ _ _ _") as Hm
    by (by vm_compute).
  split; [done|].
  exact (maskWord_shape "house" defaultReveal [] _ Hm 0 "h"%char eq_refl).
Defined.

(** X9: when [maskWord] returns.  Take a non-empty word of fewer than
    2^53 characters and a reveal percentage whose product with the length
    of the word is a finite number (not NaN, not an infinity).  There are
    random draws on which the reveal loop ends exactly when the number of
    positions to reveal, [max(1, floor(length * revealPercentage))], is
    at most the length of the word; with a larger number the loop never
    ends, whatever is drawn. *)
Theorem maskWord_returns_iff w r :
  w ≠ "" →
  Z.of_nat (String.length w) < 2 ^ 53 →
  PrimFloat.is_finite
    (PrimFloat.mul (JS.float_of_Z (Z.of_nat (String.length w))) r) = true →
  (∃ draws m, maskWord w r draws = Some m)
  ↔ revealCount (String.length w) r ≤ Z.of_nat (String.length w).
Proof.
  intros Hw _ _. unfold maskWord. rewrite bool_decide_eq_false_2 by done.
  rewrite split_length.
  assert (0 < String.length w)%nat as Hlen by (destruct w; [done|simpl; lia]).
  split.
  - intros (draws & m & Hm).
    destruct (revealLoop _ _ _ _) as [revealed|] eqn:Hloop; [|done].
    apply revealLoop_distinct in Hloop as (Hnd & Hall & Hge); [|done|..].
    + pose proof (distinct_below _ _ Hnd Hall). lia.
    + apply NoDup_singleton.
    + by apply Forall_singleton.
  - intros Hcount.
    destruct (revealLoop_returns (String.length w)
                (revealCount (String.length w) r)
                (String.length w) [0%nat]) as (draws & res & Hres);
      [done|simpl; lia|].
    exists draws. rewrite Hres. simpl. by eexists.
Qed.

(** Revealing twice the word cannot end. *)
Lemma maskWord_returns_iff_witness :
  revealCount 3 0x1p+1 = 6
  ∧ ¬ ∃ draws m, maskWord "cat" 0x1p+1 draws = Some m.
Proof.
  split; [by vm_compute|].
  intros H%maskWord_returns_iff; [|done|by vm_compute|by vm_compute].
  vm_compute in H. by apply H.
Defined.
End MaskShape.

(** ** The hint schedule and the score *)

Section HelperTables.
Import Server Props Tables.

Lemma hintsTable_120 : hintsTable 120 = true.
Proof. vm_compute. reflexivity. Qed.

Lemma scoreStepsTable_120 : scoreStepsTable 120 = true.
Proof. vm_compute. reflexivity. Qed.

Lemma hintsTable_sound maxT T e :
  hintsTable maxT = true →
  1 ≤ T < 1 + maxT → 0 ≤ e ≤ T → hintOk T e = true.
Proof.
  unfold hintsTable. intros Htab HT He.
  rewrite forallb_forall in Htab.
  assert (forallb (hintOk T) (seqZ 0 (T + 1)) = true) as Hrow.
  { apply Htab, list_elem_of_In, elem_of_seqZ. lia. }
  rewrite forallb_forall in Hrow.
  apply Hrow, list_elem_of_In, elem_of_seqZ. lia.
Qed.

Lemma scoreStepsTable_sound maxT T :
  scoreStepsTable maxT = true →
  1 ≤ T < 1 + maxT →
  scoreEndsOk T = true ∧ ∀ t, 0 ≤ t < T → scoreStepOk T t = true.
Proof.
  unfold scoreStepsTable. intros Htab HT.
  rewrite forallb_forall in Htab.
  assert (scoreEndsOk T && forallb (scoreStepOk T) (seqZ 0 T) = true) as Hrow.
  { apply Htab, list_elem_of_In, elem_of_seqZ. lia. }
  apply andb_true_iff in Hrow as [Hends Hrow]. split; [done|].
  intros t Ht. rewrite forallb_forall in Hrow.
  apply Hrow, list_elem_of_In, elem_of_seqZ. lia.
Qed.

(** X10: the hint schedule in exact terms.  For a round of 1 to 120
    seconds and an elapsed time within the round, the double-precision
    comparisons of [calculateHint] agree with the exact thresholds: no
    hint before 3/10 of the round, the number of letters from 3/10, the
    first letter from 6/10, first and last letter from 8/10. *)
Theorem hint_schedule word timeElapsed roundTime :
  1 ≤ roundTime ≤ 120 → 0 ≤ timeElapsed ≤ roundTime →
  calculateHint word timeElapsed roundTime
  = if 10 * timeElapsed <? 3 * roundTime then ""
    else if 10 * timeElapsed <? 6 * roundTime then
      "It has " +:+ pretty (String.length word) +:+ " letters"
    else if 10 * timeElapsed <? 8 * roundTime then
      "Starts with: " +:+ charOrUndefined word 0
    else
      "Starts with: " +:+ charOrUndefined word 0 +:+ "..."
        +:+ charOrUndefined word (String.length word - 1).
Proof.
  intros HT He.
  pose proof (hintsTable_sound 120 roundTime timeElapsed hintsTable_120) as Hok.
  specialize (Hok ltac:(lia) He). unfold hintOk in Hok.
  apply andb_true_iff in Hok as [Hok H3]. apply andb_true_iff in Hok as [H1 H2].
  apply eqb_prop in H1, H2, H3.
  unfold calculateHint. cbv zeta. by rewrite H1, H2, H3.
Qed.

Lemma hint_schedule_witness :
  calculateHint "house" 18 60 = "It has 5 letters"
  ∧ calculateHint "house" 17 60 = ""
  ∧ calculateHint "house" 48 60 = "Starts with: h...e".
Proof.
  rewrite !hint_schedule by lia. by vm_compute.
Defined.

(** X11: the score grows with the time left.  For a round of 1 to 120
    seconds, [calculateScore] is monotone in the time left, stays within
    0 and 100, is 0 with no time left and 100 with the whole round
    left. *)
Theorem score_grows_with_time_left roundTime t t' :
  1 ≤ roundTime ≤ 120 → 0 ≤ t ≤ t' → t' ≤ roundTime →
  0 ≤ calculateScore t roundTime
  ∧ calculateScore t roundTime ≤ calculateScore t' roundTime
  ∧ calculateScore t' roundTime ≤ 100
  ∧ calculateScore 0 roundTime = 0
  ∧ calculateScore roundTime roundTime = 100.
Proof.
  intros HT Ht Ht'.
  destruct (scoreStepsTable_sound 120 roundTime scoreStepsTable_120)
    as [Hends Hstep]; [lia|].
  apply andb_true_iff in Hends as [H0%Z.eqb_eq H100%Z.eqb_eq].
  assert (∀ n a, 0 ≤ a → a + Z.of_nat n ≤ roundTime →
            calculateScore a roundTime
            ≤ calculateScore (a + Z.of_nat n) roundTime) as Hmono.
  { induction n as [|n IH]; intros a Ha Hb.
    - rewrite Z.add_0_r. lia.
    - specialize (IH a Ha ltac:(lia)).
      specialize (Hstep (a + Z.of_nat n) ltac:(lia)).
      unfold scoreStepOk in Hstep. apply Z.leb_le in Hstep.
      replace (a + Z.of_nat (S n)) with (a + Z.of_nat n + 1) by lia. lia. }
  pose proof (Hmono (Z.to_nat t) 0 ltac:(lia) ltac:(lia)) as Hlow.
  pose proof (Hmono (Z.to_nat (t' - t)) t ltac:(lia) ltac:(lia)) as Hmid.
  pose proof (Hmono (Z.to_nat (roundTime - t')) t' ltac:(lia) ltac:(lia))
    as Hhigh.
  rewrite Z2Nat.id in Hlow, Hmid, Hhigh by lia.
  replace (0 + t) with t in Hlow by lia.
  replace (t + (t' - t)) with t' in Hmid by lia.
  replace (t' + (roundTime - t')) with roundTime in Hhigh by lia.
  lia.
Qed.

Lemma score_grows_with_time_left_witness :
  0 ≤ calculateScore 29 100
  ∧ calculateScore 29 100 ≤ calculateScore 30 100
  ∧ calculateScore 30 100 ≤ 100
  ∧ calculateScore 0 100 = 0
  ∧ calculateScore 100 100 = 100.
Proof. apply score_grows_with_time_left; lia. Defined.
End HelperTables.

(** ** Room objects in reachable states *)

Section RoomObjects.
Import Server Props Invariants.

Ltac room_heap :=
  match goal with Hg : getRoom _ _ = Some _ |- _ =>
    apply getRoom_Some in Hg as [_ Hg] end.

(** Writes to room objects that keep [RoomOk], handler by handler. *)

Lemma heapok_same s s' : heap s' = heap s → HeapOk s → HeapOk s'.
Proof. unfold HeapOk. by intros ->. Qed.

Lemma heapok_put s s' ref room room' :
  heap s !! ref = Some room →
  heap s' = <[ref := room']> (heap s) →
  (RoomOk room → RoomOk room') →
  HeapOk s → HeapOk s'.
Proof.
  unfold HeapOk. intros Hh -> Hroom Hok. apply Forall_insert; [done|].
  apply Hroom. by eapply Forall_lookup_1.
Qed.

Lemma heapok_clearInterval h s : HeapOk s → HeapOk (clearInterval h s).
Proof. by destruct h. Qed.

Ltac room_ok :=
  intros (Hcap & Hcoh & Hhost & Hg); unfold RoomOk; simpl;
  split_and!; try done.

Lemma endGame_ok c s s' : endGame c s = Ok s' → HeapOk s → HeapOk s'.
Proof.
  unfold endGame. destruct (getRoom c s) as [[ref room]|] eqn:Hroom;
    [|by intros [= <-]].
  room_heap. destruct (Room.gameState room) as [gs|] eqn:Hgs; [|done].
  intros [= <-]. eapply heapok_put; [exact Hroom|reflexivity|].
  room_ok. by rewrite Hgs.
Qed.

Lemma endRound_ok c s s' : endRound c s = Ok s' → HeapOk s → HeapOk s'.
Proof.
  unfold endRound. destruct (getRoom c s) as [[ref room]|] eqn:Hroom;
    [|by intros [= <-]].
  room_heap. destruct (Room.gameState room) as [gs|] eqn:Hgs; [|done].
  destruct (Room.timerInterval room) as [h|]; simpl; case_match;
    try (intros Hend Hok; eapply endGame_ok; [exact Hend|];
         by eapply heapok_same; [|exact Hok]);
    (intros [= <-]; eapply heapok_put; [exact Hroom|reflexivity|]; room_ok;
     [split; [|done]; intros Hl%Hcoh; congruence
     |intros gs' [= <-]; simpl; by apply Hg]).
Qed.

Lemma startRound_ok wl now dk wk c s s' :
  startRound wl now dk wk c s = Ok s' → HeapOk s → HeapOk s'.
Proof.
  unfold startRound. destruct (getRoom c s) as [[ref room]|] eqn:Hroom;
    [|by intros [= <-]].
  room_heap. destruct (Room.gameState room) as [gs|] eqn:Hgs;
    destruct (filter _ _ !! _) as [drawer|]; try done.
  destruct (WordManager.getRandomWord _ _ _ _ _) as [[word words]| |];
    simpl; [|done..].
  intros [= <-]. eapply heapok_put; [exact Hroom|reflexivity|].
  room_ok.
  - split; [|done]. intros Hl%Hcoh. congruence.
  - intros gs' [= <-]. simpl. split; [apply NoDup_nil_2|].
    intros d _. apply not_elem_of_nil.
Qed.

Lemma tick_ok h s s' : tick h s = Ok s' → HeapOk s → HeapOk s'.
Proof.
  unfold tick. destruct (intervals s !! h) as [[ref c]|]; [|by intros [= <-]].
  destruct (heap s !! ref) as [room|] eqn:Hh; [|by intros [= <-]].
  destruct (Room.gameState room) as [gs|] eqn:Hgs; [|done].
  set (s1 := putRoom _ _ _).
  assert (HeapOk s → HeapOk s1) as H1.
  { eapply heapok_put; [exact Hh|reflexivity|]. room_ok.
    - split; [|done]. intros Hl%Hcoh. congruence.
    - intros gs' [= <-]. simpl. by apply Hg. }
  destruct (Room.timerInterval room) as [h'|];
    case_bool_decide; simpl; destruct (_ <=? 0);
    try (intros Hend Hok; eapply endRound_ok; [exact Hend|]);
    try (intros [= <-] Hok);
    (eapply heapok_same; [|exact (H1 Hok)]); done.
Qed.

Lemma fire_ok wl id now dk wk s s' :
  fire wl id now dk wk s = Ok s' → HeapOk s → HeapOk s'.
Proof.
  unfold fire. destruct (timeouts s !! id) as [[c|c]|]; [| |by intros [= <-]].
  - intros Hs Hok. by eapply endRound_ok; [exact Hs|].
  - intros Hs Hok. by eapply startRound_ok; [exact Hs|].
Qed.

Lemma createRoom_ok sid name avatar draws s s' :
  createRoom sid name avatar draws s = Ok s' → HeapOk s → HeapOk s'.
Proof.
  intros [= <-] Hok. unfold HeapOk. simpl. apply Forall_app. split; [done|].
  apply Forall_singleton. unfold RoomOk, Room.ids. simpl. split_and!; try done.
  - lia.
  - right. by apply list_elem_of_singleton.
Qed.

Lemma joinRoom_ok sid c name avatar s s' :
  joinRoom sid c name avatar s = Ok s' →
  LiveNonEmpty s → HeapOk s → HeapOk s'.
Proof.
  unfold joinRoom. destruct (getRoom c s) as [[ref room]|] eqn:Hroom;
    [|by intros [= <-]].
  intros Hrun Hlive. specialize (Hlive _ _ _ Hroom). room_heap. revert Hrun.
  case_bool_decide as Hstate; [by intros [= <-]|].
  destruct (8 <=? _)%nat eqn:Hfull; intros [= <-]; [done|].
  apply Nat.leb_gt in Hfull.
  eapply heapok_put; [exact Hroom|reflexivity|].
  room_ok.
  - rewrite length_app. simpl. lia.
  - right. destruct Hhost as [?|Hhost]; [done|].
    unfold Room.ids in *. simpl. rewrite fmap_app. apply elem_of_app. by left.
Qed.

Lemma updateFirst_length sid avatar ps ps' :
  updateFirst sid avatar ps = Some ps' → length ps' = length ps.
Proof.
  intros Hu%updateFirst_ids. apply (f_equal length) in Hu.
  by rewrite !length_fmap in Hu.
Qed.

Lemma updateAvatar_ok sid avatar s s' :
  updateAvatar sid avatar s = Ok s' → HeapOk s → HeapOk s'.
Proof.
  unfold updateAvatar. destruct (players s !! sid) as [info|];
    [|by intros [= <-]].
  destruct (getRoom _ _) as [[ref room]|] eqn:Hroom; [|by intros [= <-]].
  room_heap. simpl in Hroom.
  destruct (updateFirst _ _ _) as [roster|] eqn:Hu; [|by intros [= <-]].
  intros [= <-]. eapply heapok_put; [exact Hroom|reflexivity|].
  pose proof (updateFirst_length _ _ _ _ Hu) as Hlen.
  pose proof (updateFirst_ids _ _ _ _ Hu) as Hids.
  room_ok.
  - lia.
  - destruct Hhost as [Hnil|Hhost].
    + left. rewrite Hnil in Hlen. by destruct roster.
    + right. unfold Room.ids in *. simpl. by rewrite Hids.
Qed.

Lemma startGame_ok wl sid settings now dk wk s s' :
  startGame wl sid settings now dk wk s = Ok s' → HeapOk s → HeapOk s'.
Proof.
  unfold startGame. destruct (players s !! sid) as [info|];
    [|by intros [= <-]].
  destruct (negb _); [by intros [= <-]|].
  destruct (getRoom _ s) as [[ref room]|] eqn:Hroom; [|by intros [= <-]].
  room_heap. case_bool_decide; [by intros [= <-]|].
  intros Hs Hok. eapply startRound_ok; [exact Hs|].
  eapply heapok_put; [exact Hroom|reflexivity| |exact Hok].
  room_ok. intros gs [= <-]. simpl. split; [apply NoDup_nil_2|done].
Qed.

Lemma drawing_ok sid data s s' :
  drawing sid data s = Ok s' → HeapOk s → HeapOk s'.
Proof.
  unfold drawing. destruct (players s !! sid) as [info|];
    [|by intros [= <-]].
  destruct (getRoom _ s) as [[ref room]|] eqn:Hroom; [|by intros [= <-]].
  room_heap. case_bool_decide; [by intros [= <-]|].
  destruct (Room.gameState room) as [gs|] eqn:Hgs; [|done].
  case_bool_decide; intros [= <-]; [done|].
  eapply heapok_put; [exact Hroom|reflexivity|].
  room_ok.
  - split; [|done]. intros Hl%Hcoh. congruence.
  - intros gs' [= <-]. simpl. by apply Hg.
Qed.

Lemma clearCanvas_ok sid s s' :
  clearCanvas sid s = Ok s' → HeapOk s → HeapOk s'.
Proof.
  unfold clearCanvas. repeat case_match; try done; by intros [= <-].
Qed.

Lemma sendChatMessage_ok sid text now s s' :
  sendChatMessage sid text now s = Ok s' → HeapOk s → HeapOk s'.
Proof.
  unfold sendChatMessage. repeat case_match; try done; by intros [= <-].
Qed.

Lemma playAgain_ok sid s s' :
  playAgain sid s = Ok s' → HeapOk s → HeapOk s'.
Proof.
  unfold playAgain. destruct (players s !! sid) as [info|];
    [|by intros [= <-]].
  destruct (negb _); [by intros [= <-]|].
  destruct (getRoom _ s) as [[ref room]|] eqn:Hroom; [|by intros [= <-]].
  room_heap. case_bool_decide; intros [= <-]; [done|].
  eapply heapok_put; [exact Hroom|reflexivity|]. room_ok.
Qed.

Lemma submitGuess_ok sid guess now draws s s' :
  submitGuess sid guess now draws s = Ok s' → HeapOk s → HeapOk s'.
Proof.
  unfold submitGuess. destruct (players s !! sid) as [info|];
    [|by intros [= <-]].
  destruct (AntiCheat.checkCooldown _ _ _ _) as [v ac].
  destruct (negb _); [by intros [= <-]|].
  destruct (getRoom _ (setAntiCheat ac s)) as [[ref room]|] eqn:Hroom;
    [|by intros [= <-]].
  room_heap. simpl in Hroom.
  case_bool_decide; [by intros [= <-]|].
  destruct (Room.gameState room) as [gs|] eqn:Hgs; [|done].
  case_bool_decide as Hdrawer; [by intros [= <-]|].
  case_bool_decide as Hguessed; [by intros [= <-]|].
  case_bool_decide; [|by intros [= <-]].
  destruct (maskedGuessOf _ _ _); simpl; [|done].
  intros Hrun Hok.
  assert (heap s'
          = <[ref := Room.setGameState
                       (Some (Game.setScoresGuessed
                                (<[drawerKey gs :=
                                     default 0
                                       (<[sid := Game.scoreOf sid gs
                                                 + calculateScore
                                                     (Game.timer gs)
                                                     (Game.roundTime gs)]>
                                          (Game.scores gs) !! drawerKey gs)
                                     + drawerShare
                                         (calculateScore (Game.timer gs)
                                            (Game.roundTime gs))]>
                                   (<[sid := Game.scoreOf sid gs
                                             + calculateScore (Game.timer gs)
                                                 (Game.roundTime gs)]>
                                      (Game.scores gs)))
                                (Game.playersWhoGuessed gs ++ [sid]) gs))
                       room]> (heap s)) as Hheap.
  { destruct (forallb _ _); injection Hrun as <-;
      [by destruct (Room.timerInterval room)|done]. }
  eapply heapok_put; [exact Hroom|exact Hheap| |exact Hok].
  room_ok.
  - split; [|done]. intros Hl%Hcoh. congruence.
  - intros gs' [= <-]. simpl. destruct (Hg gs Hgs) as [Hnd Hd]. split.
    + apply NoDup_app. split; [done|]. split; [|apply NoDup_singleton].
      intros x Hx ->%list_elem_of_singleton. done.
    + intros d Hdr. rewrite elem_of_app, list_elem_of_singleton.
      intros [Hin| ->]; [by eapply Hd|]. by rewrite Hdr in Hdrawer.
Qed.

Lemma disconnect_ok sid s s' :
  disconnect sid s = Ok s' → HeapOk s → HeapOk s'.
Proof.
  unfold disconnect. destruct (players s !! sid) as [info|];
    [|by intros [= <-]].
  destruct (getRoom _ s) as [[ref room]|] eqn:Hroom; [|by intros [= <-]].
  room_heap. intros Hrun Hok.
  pose proof (Forall_lookup_1 _ _ _ _ Hok Hroom) as (Hcap & Hcoh & Hhost & Hg).
  fold (rosterWithout sid room) in *.
  assert ((length (rosterWithout sid room) ≤ 8)%nat) as Hcap'.
  { unfold rosterWithout. etrans; [apply length_filter|done]. }
  destruct (rosterWithout sid room) as [|first rest] eqn:Hroster.
  { injection Hrun as <-. unfold HeapOk. simpl.
    apply Forall_insert; [done|]. unfold RoomOk. simpl.
    split_and!; try done. by left. }
  set (room1 := Room.setPlayers (first :: rest) room) in *.
  set (s5 := emit _ _ _) in Hrun.
  assert (heap s5 = <[ref := room1]> (heap s)) as Hh5 by done.
  destruct (bool_decide (sid = Room.host room1)) eqn:Hhost'.
  - destruct (players s5 !! Player.id first) as [infoh|]; [|done].
    simpl in Hrun. set (s6 := emit _ _ _) in Hrun.
    assert (HeapOk s6) as H6.
    { unfold HeapOk. simpl. rewrite list_insert_insert_eq.
      apply Forall_insert; [done|]. unfold RoomOk, Room.ids. simpl.
      split_and!; try done. right. apply list_elem_of_here. }
    destruct (_ && _).
    + eapply endRound_ok; [exact Hrun|]. by apply heapok_clearInterval.
    + by injection Hrun as <-.
  - apply bool_decide_eq_false in Hhost'. simpl in Hhost', Hrun.
    assert (HeapOk s5) as H5.
    { unfold HeapOk. rewrite Hh5. apply Forall_insert; [done|].
      unfold RoomOk. simpl. split_and!; try done. right.
      destruct Hhost as [Hnil|Hhost].
      - unfold rosterWithout in Hroster. by rewrite Hnil in Hroster.
      - unfold room1. rewrite <- Hroster. apply ids_without. split; [done|].
        congruence. }
    destruct (_ && _).
    + eapply endRound_ok; [exact Hrun|]. by apply heapok_clearInterval.
    + by injection Hrun as <-.
Qed.

(** Only [joinRoom] needs to know that the room it finds is not empty. *)
Lemma step_ok wl ev s s' :
  step wl ev s = Ok s' → LiveNonEmpty s → HeapOk s → HeapOk s'.
Proof.
  destruct ev; simpl; intros Hstep Hlive.
  - by eapply createRoom_ok.
  - by eapply joinRoom_ok.
  - by eapply updateAvatar_ok.
  - by eapply startGame_ok.
  - by eapply drawing_ok.
  - by eapply clearCanvas_ok.
  - by eapply submitGuess_ok.
  - by eapply sendChatMessage_ok.
  - by eapply playAgain_ok.
  - by eapply disconnect_ok.
  - by eapply tick_ok.
  - by eapply fire_ok.
Qed.

(** *** Live rooms are never empty *)

Lemma same_LiveNonEmpty s s' :
  SameMembership s s' → LiveNonEmpty s → LiveNonEmpty s'.
Proof.
  intros Hs Hlive c ref room' Hroom.
  destruct (same_getRoom _ _ _ _ _ Hs Hroom) as (room & Hroom0 & Hids).
  specialize (Hlive _ _ _ Hroom0). unfold Room.ids in Hids.
  intros Hnil. rewrite Hnil in Hids. by destruct (Room.players room).
Qed.

(** [createRoom] keeps the room references valid whether or not the code
    it generates is live. *)
Lemma createRoom_refs sid name avatar draws s s' :
  createRoom sid name avatar draws s = Ok s' → RefsValid s → RefsValid s'.
Proof.
  intros [= <-] [HV Hinj]. split; simpl.
  - intros c ref. destruct (decide (c = generateRoomCode draws)) as [->|Hne].
    + rewrite lookup_insert_eq. intros [= <-].
      rewrite lookup_app_r by done. by rewrite Nat.sub_diag.
    + rewrite lookup_insert_ne by done. intros Hc.
      destruct (HV _ _ Hc) as [room Hroom]. exists room.
      by rewrite lookup_app_l by (by eapply lookup_lt_Some).
  - intros c1 c2 ref.
    assert (∀ c, rooms s !! c = Some (length (heap s)) → False) as Hnew.
    { intros c Hc. destruct (HV _ _ Hc) as [room Hroom].
      apply lookup_lt_Some in Hroom. lia. }
    destruct (decide (c1 = generateRoomCode draws)) as [->|H1];
      destruct (decide (c2 = generateRoomCode draws)) as [->|H2];
      rewrite ?lookup_insert_eq, ?lookup_insert_ne by done; try done.
    + intros [= <-] Hc. by destruct (Hnew _ Hc).
    + intros Hc [= <-]. by destruct (Hnew _ Hc).
    + apply Hinj.
Qed.

Lemma step_refs wl ev s s' :
  step wl ev s = Ok s' → RefsValid s → RefsValid s'.
Proof.
  intros Hstep HV.
  destruct ev; try (by eapply same_RefsValid;
                      [eapply step_same; [|exact Hstep]|]).
  - by eapply createRoom_refs.
  - by eapply joinRoom_RefsValid.
  - by eapply disconnect_RefsValid.
Qed.

Lemma createRoom_live sid name avatar draws s s' :
  createRoom sid name avatar draws s = Ok s' →
  RefsValid s → LiveNonEmpty s → LiveNonEmpty s'.
Proof.
  intros [= <-] [HV _] Hlive c ref room [Hc Hh]%getRoom_Some. simpl in *.
  destruct (decide (c = generateRoomCode draws)) as [->|Hne].
  - rewrite lookup_insert_eq in Hc. injection Hc as <-.
    rewrite lookup_app_r in Hh by done. rewrite Nat.sub_diag in Hh.
    by injection Hh as <-.
  - rewrite lookup_insert_ne in Hc by done.
    destruct (HV _ _ Hc) as [room0 Hroom0].
    rewrite lookup_app_l in Hh by (by eapply lookup_lt_Some).
    eapply Hlive. by apply getRoom_Some.
Qed.

Lemma joinRoom_live sid c name avatar s s' :
  joinRoom sid c name avatar s = Ok s' → LiveNonEmpty s → LiveNonEmpty s'.
Proof.
  intros [Hs|(ref & room & p & Hroom & Hid & Hr & Hh & _)]%joinRoom_cases
    Hlive; [by eapply same_LiveNonEmpty|].
  pose proof Hroom as [Hrc Hrh]%getRoom_Some.
  intros c' r rm [Hc' Hrm]%getRoom_Some. rewrite Hr in Hc'. rewrite Hh in Hrm.
  destruct (decide (r = ref)) as [->|Hne].
  - rewrite list_lookup_insert_eq in Hrm by (by eapply lookup_lt_Some).
    injection Hrm as <-. simpl. by destruct (Room.players room).
  - rewrite list_lookup_insert_ne in Hrm by done.
    eapply Hlive. by apply getRoom_Some.
Qed.

Lemma disconnect_live sid s s' :
  disconnect sid s = Ok s' →
  RefsValid s → LiveNonEmpty s → LiveNonEmpty s'.
Proof.
  intros [->|(info & ref & room & Hp & Hroom & Hcases)]%disconnect_cases
    [HV Hinj] Hlive; [done|].
  pose proof Hroom as [Hrc Hrh]%getRoom_Some.
  destruct Hcases as [(Hempty & Hr & Hpl & Hh)|[Hne Hs]].
  - intros c r rm [Hc Hrm]%getRoom_Some. rewrite Hr in Hc.
    apply lookup_delete_Some in Hc as [Hcne Hc]. rewrite Hh in Hrm.
    rewrite (without_heap _ _ _ _ r Hrh) in Hrm. case_decide as Hr'.
    + subst r. destruct Hcne. by eapply Hinj.
    + eapply Hlive. by apply getRoom_Some.
  - eapply same_LiveNonEmpty; [exact Hs|].
    intros c r rm [Hc Hrm]%getRoom_Some. simpl in Hc.
    rewrite (without_heap _ _ _ _ r Hrh) in Hrm. case_decide as Hr'.
    + by injection Hrm as <-.
    + eapply Hlive. by apply getRoom_Some.
Qed.

Lemma step_live wl ev s s' :
  step wl ev s = Ok s' → RefsValid s → LiveNonEmpty s → LiveNonEmpty s'.
Proof.
  intros Hstep HV Hlive.
  destruct ev; try (by eapply same_LiveNonEmpty;
                      [eapply step_same; [|exact Hstep]|]).
  - by eapply createRoom_live.
  - by eapply joinRoom_live.
  - by eapply disconnect_live.
Qed.

Lemma Reach_rooms wl ok s :
  Reach wl ok s → RefsValid s ∧ HeapOk s ∧ LiveNonEmpty s.
Proof.
  induction 1 as [|s ev s' _ (HV & Hok & Hlive) _ Hstep].
  - split; [apply init_invariants|]. split; [by apply Forall_nil|].
    intros c ref room [Hc _]%getRoom_Some. simpl in Hc.
    by rewrite lookup_empty in Hc.
  - split; [by eapply step_refs|]. split; [by eapply step_ok|].
    by eapply step_live.
Qed.
End RoomObjects.

Section Reachable.
Import Server Props Invariants Events.

Lemma allOk_any wl evs : ∀ s, allOk wl anyEvent evs s.
Proof.
  induction evs as [|ev rest IH]; intros s; simpl; [done|].
  split; [done|]. by destruct (step wl ev s).
Qed.

Lemma Reach_stateAfter evs :
  match run sampleWords evs init with Ok _ => True | _ => False end →
  Reach sampleWords anyEvent (stateAfter evs).
Proof.
  unfold stateAfter. destruct (run sampleWords evs init) as [s| |] eqn:Hrun;
    [intros _|done..].
  eapply Reach_run; [constructor|apply allOk_any|exact Hrun].
Qed.

(** X12: in every state the server reaches, through events of any kind,
    a room that can be looked up by its code has at least one and at most
    eight players. *)
Theorem live_room_has_one_to_eight_players wl ok s c ref room :
  Reach wl ok s →
  getRoom c s = Some (ref, room) →
  (1 ≤ length (Room.players room) ≤ 8)%nat.
Proof.
  intros (_ & Hok & Hlive)%Reach_rooms Hroom.
  specialize (Hlive _ _ _ Hroom). apply getRoom_Some in Hroom as [_ Hh].
  destruct (Forall_lookup_1 _ _ _ _ Hok Hh) as (Hcap & _).
  split; [|done]. destruct (Room.players room); [done|simpl; lia].
Qed.

Lemma live_room_has_one_to_eight_players_witness :
  ∃ room,
    getRoom "ABCD" (stateAfter lobbyOfThree) = Some (0%nat, room)
    ∧ (1 ≤ length (Room.players room) ≤ 8)%nat.
Proof.
  eexists. split; [by vm_compute|].
  eapply (live_room_has_one_to_eight_players sampleWords anyEvent
            (stateAfter lobbyOfThree) "ABCD" 0%nat);
    [apply Reach_stateAfter; by vm_compute|by vm_compute].
Defined.

(** X13: in every state the server reaches, the list of those who
    guessed the word of a round names nobody twice and never the drawer
    of the round. *)
Theorem guessers_listed_once_and_never_the_drawer wl ok s ref room gs :
  Reach wl ok s →
  heap s !! ref = Some room →
  Room.gameState room = Some gs →
  NoDup (Game.playersWhoGuessed gs)
  ∧ ∀ d, Game.currentDrawer gs = Some d → d ∉ Game.playersWhoGuessed gs.
Proof.
  intros (_ & Hok & _)%Reach_rooms Hh Hgs.
  destruct (Forall_lookup_1 _ _ _ _ Hok Hh) as (_ & _ & _ & Hg). by apply Hg.
Qed.

Lemma guessers_listed_once_and_never_the_drawer_witness :
  let s := stateAfter (gameOfThree 60 15
                       ++ [EvSubmitGuess "B" "apple" 1015000 [1%nat];
                           EvSubmitGuess "B" "apple" 1017000 [1%nat]]) in
  ∃ room gs,
    heap s !! 0%nat = Some room
    ∧ Room.gameState room = Some gs
    ∧ Game.playersWhoGuessed gs = ["B"]
    ∧ NoDup (Game.playersWhoGuessed gs)
    ∧ ∀ d, Game.currentDrawer gs = Some d → d ∉ Game.playersWhoGuessed gs.
Proof.
  intros s. eexists _, _. split; [by vm_compute|]. split; [by vm_compute|].
  split; [by vm_compute|].
  eapply (guessers_listed_once_and_never_the_drawer sampleWords anyEvent s
            0%nat); [|by vm_compute..].
  apply Reach_stateAfter. by vm_compute.
Defined.

(** X14: in every state the server reaches, the host of a room that can
    be looked up is one of the room's players. *)
Theorem host_is_in_the_room wl ok s c ref room :
  Reach wl ok s →
  getRoom c s = Some (ref, room) →
  Room.host room ∈ Room.ids room.
Proof.
  intros (_ & Hok & Hlive)%Reach_rooms Hroom.
  specialize (Hlive _ _ _ Hroom). apply getRoom_Some in Hroom as [_ Hh].
  by destruct (Forall_lookup_1 _ _ _ _ Hok Hh) as (_ & _ & [?|?] & _).
Qed.

Lemma host_is_in_the_room_witness :
  let s := stateAfter (lobbyOfThree ++ [EvDisconnect "A"]) in
  ∃ room,
    getRoom "ABCD" s = Some (0%nat, room)
    ∧ Room.host room = "B"
    ∧ Room.host room ∈ Room.ids room.
Proof.
  intros s. eexists. split; [by vm_compute|]. split; [by vm_compute|].
  eapply (host_is_in_the_room sampleWords anyEvent s "ABCD" 0%nat);
    [|by vm_compute].
  apply Reach_stateAfter. by vm_compute.
Defined.

(** X15: in every state the server reaches, a room object is in state
    'lobby' exactly when it has no round state ([gameState] is null). *)
Theorem round_state_exactly_out_of_lobby wl ok s ref room :
  Reach wl ok s →
  heap s !! ref = Some room →
  (Room.state room = lobby ↔ Room.gameState room = None).
Proof.
  intros (_ & Hok & _)%Reach_rooms Hh.
  by destruct (Forall_lookup_1 _ _ _ _ Hok Hh) as (_ & Hcoh & _).
Qed.

Lemma round_state_exactly_out_of_lobby_witness :
  let s := stateAfter (gameOfThree 60 15) in
  ∃ room,
    heap s !! 0%nat = Some room
    ∧ Room.state room = playing
    ∧ (Room.state room = lobby ↔ Room.gameState room = None).
Proof.
  intros s. eexists. split; [by vm_compute|]. split; [by vm_compute|].
  eapply (round_state_exactly_out_of_lobby sampleWords anyEvent s 0%nat);
    [|by vm_compute].
  apply Reach_stateAfter. by vm_compute.
Defined.
End Reachable.

Section NoThrow.
Import Server Props Invariants Events.

Ltac room_heap :=
  match goal with Hg : getRoom _ _ = Some _ |- _ =>
    apply getRoom_Some in Hg as [_ Hg] end.

Lemma getRandomWord_throws wl now k d aw e :
  WordManager.getRandomWord wl now k d aw = Throw e →
  WordManager.listFor wl d = None ∨ WordManager.listFor wl d = Some [].
Proof.
  unfold WordManager.getRandomWord.
  destruct (WordManager.listFor wl d) as [l|]; [|by left].
  destruct (decide (l = [])) as [->|Hne]; [by right|].
  by destruct (randIndex_lookup l k Hne) as (w & -> & _).
Qed.

(** With a round state in place the round and the game can end. *)
Lemma endGame_returns c s ref room gs :
  getRoom c s = Some (ref, room) → Room.gameState room = Some gs →
  ∃ s', endGame c s = Ok s'.
Proof. intros Hroom Hgs. unfold endGame. rewrite Hroom, Hgs. by eexists. Qed.

Lemma endRound_returns c s ref room gs :
  getRoom c s = Some (ref, room) → Room.gameState room = Some gs →
  ∃ s', endRound c s = Ok s'.
Proof.
  intros Hroom Hgs. unfold endRound. rewrite Hroom, Hgs.
  case_match; [|by eexists].
  eapply endGame_returns; [|exact Hgs].
  apply getRoom_Some in Hroom as [Hc Hh]. apply getRoom_Some.
  by destruct (Room.timerInterval room).
Qed.

Lemma Reach_orderly wl s :
  Reach wl orderly s →
  RefsValid s ∧ HeapOk s ∧ LiveNonEmpty s ∧ RosterIndexed s.
Proof.
  intros Hreach. destruct (Reach_rooms _ _ _ Hreach) as (HV & Hok & Hlive).
  split_and!; try done. clear HV Hok Hlive.
  induction Hreach as [|s0 ev s' Hr IH [Hfresh Hnew] Hstep];
    [apply init_invariants|].
  destruct (Reach_rooms _ _ _ Hr) as (HV0 & _).
  by eapply step_RosterIndexed.
Qed.

(** The new host is in the index, and a playing room has a round state to
    end. *)
Lemma disconnect_returns sid s :
  RefsValid s → HeapOk s → RosterIndexed s →
  ∃ s', disconnect sid s = Ok s'.
Proof.
  intros HV Hok HJ. unfold disconnect.
  destruct (players s !! sid) as [info|] eqn:Hp; [|by eexists].
  destruct (getRoom _ s) as [[ref room]|] eqn:Hroom; [|by eexists].
  pose proof Hroom as [Hrc Hrh]%getRoom_Some.
  pose proof (Forall_lookup_1 _ _ _ _ Hok Hrh) as (_ & Hcoh & _).
  fold (rosterWithout sid room) in *.
  destruct (rosterWithout sid room) as [|first rest] eqn:Hroster;
    [by eexists|].
  set (room1 := Room.setPlayers (first :: rest) room) in *.
  set (s5 := emit _ _ _).
  assert (∀ room2 s6,
            Room.state room2 = Room.state room →
            Room.gameState room2 = Room.gameState room →
            getRoom (Info.room info) s6 = Some (ref, room2) →
            ∃ s',
              (if bool_decide (Room.state room2 = playing)
                  && bool_decide
                       (Some sid
                        = (gs ← Room.gameState room2; Game.currentDrawer gs))
               then endRound (Info.room info)
                      (clearInterval (Room.timerInterval room2) s6)
               else Ok s6) = Ok s') as Hend.
  { intros room2 s6 Hst Hgs Hr6. destruct (_ && _) eqn:Hcond; [|by eexists].
    apply andb_true_iff in Hcond as [Hplay%bool_decide_eq_true _].
    destruct (Room.gameState room2) as [gs|] eqn:Hgs2.
    - eapply endRound_returns; [|exact Hgs2].
      apply getRoom_Some in Hr6 as [? ?]. apply getRoom_Some.
      by destruct (Room.timerInterval room2).
    - symmetry in Hgs. apply Hcoh in Hgs. congruence. }
  assert (getRoom (Info.room info) s5 = Some (ref, room1)) as Hr5.
  { apply getRoom_Some. split; [done|]. simpl.
    apply list_lookup_insert_eq. by eapply lookup_lt_Some. }
  case_bool_decide as Hhost.
  - assert (Player.id first ∈ Room.ids room ∧ Player.id first ≠ sid)
      as [Hin Hne].
    { apply ids_without. rewrite Hroster. unfold Room.ids. simpl.
      apply list_elem_of_here. }
    destruct (HJ _ _ _ _ Hroom Hin) as (infoh & Hih & _).
    assert (players s5 !! Player.id first = Some infoh) as ->.
    { simpl. by rewrite lookup_delete_ne. }
    simpl. apply (Hend (Room.setHost (Player.id first) room1)); [done..|].
    apply getRoom_Some. split; [done|]. simpl.
    apply list_lookup_insert_eq. rewrite length_insert.
    by eapply lookup_lt_Some.
  - simpl. by apply (Hend room1).
Qed.

(** In a lobby nobody drew before, so every player can draw; only the
    word can be missing. *)
Lemma startGame_throws wl sid settings now dk wk s e :
  LiveNonEmpty s →
  startGame wl sid settings now dk wk s = Throw e →
  WordManager.listFor wl (Settings.difficulty settings) = None
  ∨ WordManager.listFor wl (Settings.difficulty settings) = Some [].
Proof.
  intros Hlive. unfold startGame.
  destruct (players s !! sid) as [info|]; [|done].
  destruct (negb _); [done|].
  destruct (getRoom _ s) as [[ref room]|] eqn:Hroom; [|done].
  case_bool_decide; [done|]. unfold startRound.
  rewrite (getRoom_putRoom _ _ _ _ _ Hroom). simpl.
  rewrite filter_all by done.
  destruct (randIndex_lookup (Room.players room) dk (Hlive _ _ _ Hroom))
    as (drawer & -> & _).
  destruct (WordManager.getRandomWord _ _ _ _ _) as [[w ws]|e'|] eqn:Hw;
    simpl; [done| |done].
  intros _. by eapply getRandomWord_throws.
Qed.

(** X16: no message from a client makes a handler throw, save one.  In
    every state reached without code collisions and with rooms created
    and joined by sockets that are in no room, a handler of a client
    message with a payload of the expected types ([createRoom],
    [joinRoom], [updateAvatar], [startGame], [drawing], [clearCanvas],
    [submitGuess], [sendChatMessage], [playAgain], [disconnect]) throws
    only if it is [startGame] and the word list of the requested
    difficulty is missing or empty. *)
Theorem client_messages_do_not_throw wl s ev e :
  Reach wl orderly s →
  fromClient ev → ownKeys ev →
  step wl ev s = Throw e →
  ∃ sid settings now dk wk,
    ev = EvStartGame sid settings now dk wk
    ∧ (WordManager.listFor wl (Settings.difficulty settings) = None
       ∨ WordManager.listFor wl (Settings.difficulty settings) = Some []).
Proof.
  intros (HV & Hok & Hlive & HJ)%Reach_orderly Hclient _ Hstep.
  assert (∀ c ref room,
            getRoom c s = Some (ref, room) →
            Room.state room = playing → Room.gameState room ≠ None) as Hcoh.
  { intros c ref room [_ Hh]%getRoom_Some Hplay Hnone.
    destruct (Forall_lookup_1 _ _ _ _ Hok Hh) as (_ & Hc & _).
    apply Hc in Hnone. congruence. }
  destruct ev; simpl in Hstep, Hclient; try done.
  - unfold joinRoom in Hstep. by repeat case_match.
  - unfold updateAvatar in Hstep. by repeat case_match.
  - eexists _, _, _, _, _. split; [done|]. by eapply startGame_throws.
  - unfold drawing in Hstep.
    destruct (players s !! sid) as [info|]; [|done].
    destruct (getRoom _ s) as [[ref room]|] eqn:Hroom; [|done].
    case_bool_decide as Hst; [done|].
    specialize (Hcoh _ _ _ Hroom Hst).
    destruct (Room.gameState room); [by case_bool_decide|done].
  - unfold clearCanvas in Hstep.
    destruct (players s !! sid) as [info|]; [|done].
    destruct (getRoom _ s) as [[ref room]|] eqn:Hroom; [|done].
    case_bool_decide as Hst; [done|].
    specialize (Hcoh _ _ _ Hroom Hst).
    destruct (Room.gameState room); [by case_bool_decide|done].
  - unfold submitGuess in Hstep.
    destruct (players s !! sid) as [info|]; [|done].
    destruct (AntiCheat.checkCooldown _ _ _ _) as [v ac].
    destruct (negb _); [done|].
    destruct (getRoom _ (setAntiCheat ac s)) as [[ref room]|] eqn:Hroom;
      [|done].
    change (getRoom (Info.room info) (setAntiCheat ac s))
      with (getRoom (Info.room info) s) in Hroom.
    case_bool_decide as Hst; [done|].
    specialize (Hcoh _ _ _ Hroom Hst).
    destruct (Room.gameState room); [|done].
    repeat case_match; try done.
    all: simpl in Hstep; by repeat case_match.
  - unfold sendChatMessage in Hstep. by repeat case_match.
  - unfold playAgain in Hstep. by repeat case_match.
  - destruct (disconnect_returns sid s) as [s' Hs']; try done. congruence.
Qed.

Lemma client_messages_do_not_throw_witness :
  let s := stateAfter lobbyOfThree in
  let ev := EvStartGame "A" (settingsOf 3 60) 1000000 0 0 in
  step ∅ ev s = Throw "TypeError: list is undefined"
  ∧ ∃ sid settings now dk wk,
      ev = EvStartGame sid settings now dk wk
      ∧ (WordManager.listFor ∅ (Settings.difficulty settings) = None
         ∨ WordManager.listFor ∅ (Settings.difficulty settings) = Some []).
Proof.
  intros s ev.
  assert (step ∅ ev s = Throw "TypeError: list is undefined") as Hthrow
    by (by vm_compute).
  split; [done|].
  apply (client_messages_do_not_throw ∅ s ev "TypeError: list is undefined");
    [|done|reflexivity|exact Hthrow].
  assert (run ∅ lobbyOfThree init = Ok s) as Hrun by (by vm_compute).
  apply (Reach_run _ _ lobbyOfThree init); [constructor| |exact Hrun].
  vm_compute. by split_and!.
Defined.
End NoThrow.

(** ** The life cycle of a room *)

Section Cycle.
Import Server Props Invariants Events Lifecycle.

Ltac room_heap :=
  match goal with Hg : getRoom _ _ = Some _ |- _ =>
    apply getRoom_Some in Hg as [_ Hg] end.

(** What each handler does to the phase of the room objects. *)

Lemma kept_same s s' : heap s' = heap s → Kept s s'.
Proof. intros Hh ref r Hr. exists r. by rewrite Hh. Qed.

Lemma kept_trans s1 s2 s3 : Kept s1 s2 → Kept s2 s3 → Kept s1 s3.
Proof.
  intros H12 H23 ref r Hr. destruct (H12 _ _ Hr) as (r2 & Hr2 & Hp2).
  destruct (H23 _ _ Hr2) as (r3 & Hr3 & Hp3). exists r3. split; [done|].
  congruence.
Qed.

Lemma kept_put s s' ref room room' :
  heap s !! ref = Some room →
  heap s' = <[ref := room']> (heap s) →
  phase room' = phase room →
  Kept s s'.
Proof.
  intros Hh Hh' Hp r rm Hrm. rewrite Hh'.
  destruct (decide (r = ref)) as [->|Hne].
  - exists room'. rewrite list_lookup_insert_eq by (by eapply lookup_lt_Some).
    split; [done|]. congruence.
  - exists rm. by rewrite list_lookup_insert_ne.
Qed.

Lemma kept_moves from to s s' : Kept s s' → Moves from to s s'.
Proof.
  intros Hk ref r Hr. destruct (Hk _ _ Hr) as (r' & Hr' & Hp).
  exists r'. split; [done|by left].
Qed.

Lemma moves_put from to s s' ref room room' :
  heap s !! ref = Some room →
  heap s' = <[ref := room']> (heap s) →
  from (phase room) → Room.state room' = to →
  Moves from to s s'.
Proof.
  intros Hh Hh' Hfrom Hto r rm Hrm. rewrite Hh'.
  destruct (decide (r = ref)) as [->|Hne].
  - exists room'. rewrite list_lookup_insert_eq by (by eapply lookup_lt_Some).
    split; [done|]. right. split; [congruence|done].
  - exists rm. rewrite list_lookup_insert_ne by done. split; [done|by left].
Qed.

Lemma kept_then_moves from to s1 s2 s3 :
  Kept s1 s2 → Moves from to s2 s3 → Moves from to s1 s3.
Proof.
  intros H12 H23 ref r Hr. destruct (H12 _ _ Hr) as (r2 & Hr2 & Hp2).
  destruct (H23 _ _ Hr2) as (r3 & Hr3 & Hp3). exists r3. split; [done|].
  destruct Hp3 as [Hp3|[Hfrom Hto]]; [left; congruence|right].
  split; [|done]. by rewrite <- Hp2.
Qed.

Lemma moves_then_kept from to s1 s2 s3 :
  Moves from to s1 s2 → Kept s2 s3 → Moves from to s1 s3.
Proof.
  intros H12 H23 ref r Hr. destruct (H12 _ _ Hr) as (r2 & Hr2 & Hp2).
  destruct (H23 _ _ Hr2) as (r3 & Hr3 & Hp3). exists r3. split; [done|].
  destruct Hp2 as [Hp2|[Hfrom Hto]]; [left; congruence|right].
  split; [done|]. injection Hp3 as Hst _. congruence.
Qed.

Lemma kept_clearInterval h s : Kept s (clearInterval h s).
Proof. destruct h; by apply kept_same. Qed.

Lemma endGame_moves c s s' :
  endGame c s = Ok s' → Moves inRound ended s s'.
Proof.
  unfold endGame. destruct (getRoom c s) as [[ref room]|] eqn:Hroom;
    [|intros [= <-]; by apply kept_moves, kept_same].
  room_heap. destruct (Room.gameState room) as [gs|] eqn:Hgs; [|done].
  intros [= <-]. eapply moves_put; [exact Hroom|reflexivity| |done].
  unfold inRound, phase. by rewrite Hgs.
Qed.

Lemma endRound_moves c s s' :
  endRound c s = Ok s' → Moves inRound ended s s'.
Proof.
  unfold endRound. destruct (getRoom c s) as [[ref room]|] eqn:Hroom;
    [|intros [= <-]; by apply kept_moves, kept_same].
  room_heap. destruct (Room.gameState room) as [gs|] eqn:Hgs; [|done].
  destruct (Room.timerInterval room) as [h|]; simpl; case_match;
    try (intros Hend%endGame_moves;
         eapply kept_then_moves; [|exact Hend]; by apply kept_same);
    (intros [= <-]; apply kept_moves;
     eapply kept_put; [exact Hroom|reflexivity|];
     unfold phase; simpl; by rewrite Hgs).
Qed.

Lemma startRound_kept wl now dk wk c s s' :
  startRound wl now dk wk c s = Ok s' → Kept s s'.
Proof.
  unfold startRound. destruct (getRoom c s) as [[ref room]|] eqn:Hroom;
    [|intros [= <-]; by apply kept_same].
  room_heap. destruct (Room.gameState room) as [gs|] eqn:Hgs;
    destruct (filter _ _ !! _) as [drawer|]; try done.
  destruct (WordManager.getRandomWord _ _ _ _ _) as [[word words]| |];
    simpl; [|done..].
  intros [= <-]. eapply kept_put; [exact Hroom|reflexivity|].
  unfold phase; simpl; by rewrite Hgs.
Qed.

Lemma tick_moves h s s' : tick h s = Ok s' → Moves inRound ended s s'.
Proof.
  unfold tick. destruct (intervals s !! h) as [[ref c]|];
    [|intros [= <-]; by apply kept_moves, kept_same].
  destruct (heap s !! ref) as [room|] eqn:Hh;
    [|intros [= <-]; by apply kept_moves, kept_same].
  destruct (Room.gameState room) as [gs|] eqn:Hgs; [|done].
  set (s1 := putRoom _ _ _).
  assert (Kept s s1) as H1.
  { eapply kept_put; [exact Hh|reflexivity|].
    unfold phase; simpl; by rewrite Hgs. }
  destruct (Room.timerInterval room) as [h'|];
    case_bool_decide; simpl; destruct (_ <=? 0);
    try (intros Hend%endRound_moves; eapply kept_then_moves; [|exact Hend]);
    try (intros [= <-]; apply kept_moves);
    (eapply kept_trans; [exact H1|]); by apply kept_same.
Qed.

Lemma fire_moves wl id now dk wk s s' :
  fire wl id now dk wk s = Ok s' → Moves inRound ended s s'.
Proof.
  unfold fire. destruct (timeouts s !! id) as [[c|c]|];
    [| |intros [= <-]; by apply kept_moves, kept_same].
  - intros Hs%endRound_moves. eapply kept_then_moves; [|exact Hs].
    by apply kept_same.
  - intros Hs%startRound_kept. apply kept_moves.
    eapply kept_trans; [|exact Hs]. by apply kept_same.
Qed.

Lemma createRoom_kept sid name avatar draws s s' :
  createRoom sid name avatar draws s = Ok s' → Kept s s'.
Proof.
  intros [= <-] ref r Hr. exists r. split; [|done]. simpl.
  by rewrite lookup_app_l by (by eapply lookup_lt_Some).
Qed.

Lemma joinRoom_kept sid c name avatar s s' :
  joinRoom sid c name avatar s = Ok s' → Kept s s'.
Proof.
  unfold joinRoom. destruct (getRoom c s) as [[ref room]|] eqn:Hroom;
    [|intros [= <-]; by apply kept_same].
  room_heap. repeat case_match; intros [= <-]; try (by apply kept_same).
  by eapply kept_put.
Qed.

Lemma updateAvatar_kept sid avatar s s' :
  updateAvatar sid avatar s = Ok s' → Kept s s'.
Proof.
  unfold updateAvatar. destruct (players s !! sid) as [info|];
    [|intros [= <-]; by apply kept_same].
  destruct (getRoom _ _) as [[ref room]|] eqn:Hroom;
    [|intros [= <-]; by apply kept_same].
  room_heap. simpl in Hroom.
  destruct (updateFirst _ _ _) as [roster|];
    intros [= <-]; [|by apply kept_same].
  by eapply kept_put.
Qed.

Lemma startGame_moves wl sid settings now dk wk s s' :
  startGame wl sid settings now dk wk s = Ok s' →
  Moves (λ ph, ph.1 = lobby) playing s s'.
Proof.
  unfold startGame. destruct (players s !! sid) as [info|];
    [|intros [= <-]; by apply kept_moves, kept_same].
  destruct (negb _); [intros [= <-]; by apply kept_moves, kept_same|].
  destruct (getRoom _ s) as [[ref room]|] eqn:Hroom;
    [|intros [= <-]; by apply kept_moves, kept_same].
  room_heap.
  case_bool_decide as Hst; [intros [= <-]; by apply kept_moves, kept_same|].
  intros Hs%startRound_kept. eapply moves_then_kept; [|exact Hs].
  by eapply moves_put.
Qed.

Lemma drawing_kept sid data s s' : drawing sid data s = Ok s' → Kept s s'.
Proof.
  unfold drawing. destruct (players s !! sid) as [info|];
    [|intros [= <-]; by apply kept_same].
  destruct (getRoom _ s) as [[ref room]|] eqn:Hroom;
    [|intros [= <-]; by apply kept_same].
  room_heap. case_bool_decide; [intros [= <-]; by apply kept_same|].
  destruct (Room.gameState room) as [gs|] eqn:Hgs; [|done].
  case_bool_decide; intros [= <-]; [by apply kept_same|].
  eapply kept_put; [exact Hroom|reflexivity|].
  unfold phase; simpl; by rewrite Hgs.
Qed.

Lemma clearCanvas_kept sid s s' : clearCanvas sid s = Ok s' → Kept s s'.
Proof.
  unfold clearCanvas. repeat case_match; try done;
    intros [= <-]; by apply kept_same.
Qed.

Lemma sendChatMessage_kept sid text now s s' :
  sendChatMessage sid text now s = Ok s' → Kept s s'.
Proof.
  unfold sendChatMessage. repeat case_match; try done;
    intros [= <-]; by apply kept_same.
Qed.

Lemma playAgain_moves sid s s' :
  playAgain sid s = Ok s' → Moves (λ ph, ph.1 = ended) lobby s s'.
Proof.
  unfold playAgain. destruct (players s !! sid) as [info|];
    [|intros [= <-]; by apply kept_moves, kept_same].
  destruct (negb _); [intros [= <-]; by apply kept_moves, kept_same|].
  destruct (getRoom _ s) as [[ref room]|] eqn:Hroom;
    [|intros [= <-]; by apply kept_moves, kept_same].
  room_heap.
  case_bool_decide as Hst; intros [= <-]; [by apply kept_moves, kept_same|].
  by eapply moves_put.
Qed.

Lemma submitGuess_kept sid guess now draws s s' :
  submitGuess sid guess now draws s = Ok s' → Kept s s'.
Proof.
  unfold submitGuess. destruct (players s !! sid) as [info|];
    [|intros [= <-]; by apply kept_same].
  destruct (AntiCheat.checkCooldown _ _ _ _) as [v ac].
  destruct (negb _); [intros [= <-]; by apply kept_same|].
  destruct (getRoom _ (setAntiCheat ac s)) as [[ref room]|] eqn:Hroom;
    [|intros [= <-]; by apply kept_same].
  room_heap. simpl in Hroom.
  case_bool_decide; [intros [= <-]; by apply kept_same|].
  destruct (Room.gameState room) as [gs|] eqn:Hgs; [|done].
  case_bool_decide; [intros [= <-]; by apply kept_same|].
  case_bool_decide; [intros [= <-]; by apply kept_same|].
  case_bool_decide; [|intros [= <-]; by apply kept_same].
  destruct (maskedGuessOf _ _ _); simpl; [|done].
  destruct (forallb _ _); intros [= <-];
    try (destruct (Room.timerInterval room));
    (eapply kept_put; [exact Hroom|reflexivity|]);
    unfold phase; simpl; by rewrite Hgs.
Qed.

Lemma disconnect_moves sid s s' :
  disconnect sid s = Ok s' → Moves inRound ended s s'.
Proof.
  unfold disconnect. destruct (players s !! sid) as [info|];
    [|intros [= <-]; by apply kept_moves, kept_same].
  destruct (getRoom _ s) as [[ref room]|] eqn:Hroom;
    [|intros [= <-]; by apply kept_moves, kept_same].
  room_heap. intros Hrun.
  destruct (filter _ _) as [|first rest] eqn:Hroster.
  { injection Hrun as <-. apply kept_moves. by eapply kept_put. }
  set (room1 := Room.setPlayers (first :: rest) room) in *.
  set (s5 := emit _ _ _) in Hrun.
  assert (Kept s s5) as H5 by (by eapply kept_put).
  assert (heap s5 !! ref = Some room1) as Hh5.
  { simpl. apply list_lookup_insert_eq. by eapply lookup_lt_Some. }
  destruct (bool_decide (sid = Room.host room1)).
  - destruct (players s5 !! Player.id first) as [infoh|]; [|done].
    simpl in Hrun. set (s6 := emit _ _ _) in Hrun.
    assert (Kept s5 s6) as H6 by (by eapply kept_put).
    destruct (_ && _).
    + apply endRound_moves in Hrun. eapply kept_then_moves; [|exact Hrun].
      eapply kept_trans; [exact H5|]. eapply kept_trans; [exact H6|].
      apply kept_clearInterval.
    + injection Hrun as <-. apply kept_moves. by eapply kept_trans.
  - simpl in Hrun. destruct (_ && _).
    + apply endRound_moves in Hrun. eapply kept_then_moves; [|exact Hrun].
      eapply kept_trans; [exact H5|]. apply kept_clearInterval.
    + injection Hrun as <-. by apply kept_moves.
Qed.

(** X17: the life cycle of a room.  In every state the server reaches, an
    event whose handler returns keeps every room object, and changes the
    state of a room object only in these ways: 'lobby' to 'playing' on
    [startGame]; 'playing' to 'ended' on a timer tick, a timeout or a
    [disconnect]; 'ended' to 'lobby' on [playAgain]. *)
Theorem room_state_cycle wl ok s ev s' ref room :
  Reach wl ok s →
  step wl ev s = Ok s' →
  heap s !! ref = Some room →
  ∃ room',
    heap s' !! ref = Some room'
    ∧ (Room.state room' = Room.state room
       ∨ turnOf ev = Some (Room.state room, Room.state room')).
Proof.
  intros (_ & Hok & _)%Reach_rooms Hstep Hh.
  destruct (Forall_lookup_1 _ _ _ _ Hok Hh) as (_ & Hcoh & _).
  assert (∀ r', phase r' = phase room → Room.state r' = Room.state room)
    as Hsame by (by intros r' [= -> _]).
  assert (Kept s s' →
          ∃ room', heap s' !! ref = Some room'
                   ∧ Room.state room' = Room.state room) as Hkept.
  { intros Hk. destruct (Hk _ _ Hh) as (r' & Hr' & Hp). exists r'. auto. }
  assert (Moves inRound ended s s' →
          ∃ room', heap s' !! ref = Some room'
                   ∧ (Room.state room' = Room.state room
                      ∨ (Room.state room = playing
                         ∧ Room.state room' = ended))) as Hends.
  { intros Hm. destruct (Hm _ _ Hh) as (r' & Hr' & Hp). exists r'.
    split; [done|]. destruct Hp as [Hp|[Hin Hto]]; [by left; auto|].
    unfold inRound, phase in Hin. simpl in Hin.
    destruct (Room.state room) eqn:Hst.
    - destruct Hcoh as [Hcoh _]. rewrite Hcoh in Hin by done. done.
    - by right.
    - by left. }
  destruct ev; simpl in Hstep.
  - destruct (Hkept (createRoom_kept _ _ _ _ _ _ Hstep)) as (r' & ? & ?).
    exists r'. auto.
  - destruct (Hkept (joinRoom_kept _ _ _ _ _ _ Hstep)) as (r' & ? & ?).
    exists r'. auto.
  - destruct (Hkept (updateAvatar_kept _ _ _ _ Hstep)) as (r' & ? & ?).
    exists r'. auto.
  - destruct (startGame_moves _ _ _ _ _ _ _ _ Hstep _ _ Hh) as (r' & Hr' & Hp).
    exists r'. split; [done|]. destruct Hp as [Hp|[Hfrom Hto]]; [auto|].
    right. simpl in *. by rewrite Hfrom, Hto.
  - destruct (Hkept (drawing_kept _ _ _ _ Hstep)) as (r' & ? & ?).
    exists r'. auto.
  - destruct (Hkept (clearCanvas_kept _ _ _ Hstep)) as (r' & ? & ?).
    exists r'. auto.
  - destruct (Hkept (submitGuess_kept _ _ _ _ _ _ Hstep)) as (r' & ? & ?).
    exists r'. auto.
  - destruct (Hkept (sendChatMessage_kept _ _ _ _ _ Hstep)) as (r' & ? & ?).
    exists r'. auto.
  - destruct (playAgain_moves _ _ _ Hstep _ _ Hh) as (r' & Hr' & Hp).
    exists r'. split; [done|]. destruct Hp as [Hp|[Hfrom Hto]]; [auto|].
    right. simpl in *. by rewrite Hfrom, Hto.
  - destruct (Hends (disconnect_moves _ _ _ Hstep)) as (r' & Hr' & Hp).
    exists r'. split; [done|]. destruct Hp as [Hp|[Hfrom Hto]]; [auto|].
    right. simpl. by rewrite Hfrom, Hto.
  - destruct (Hends (tick_moves _ _ _ Hstep)) as (r' & Hr' & Hp).
    exists r'. split; [done|]. destruct Hp as [Hp|[Hfrom Hto]]; [auto|].
    right. simpl. by rewrite Hfrom, Hto.
  - destruct (Hends (fire_moves _ _ _ _ _ _ _ Hstep)) as (r' & Hr' & Hp).
    exists r'. split; [done|]. destruct Hp as [Hp|[Hfrom Hto]]; [auto|].
    right. simpl. by rewrite Hfrom, Hto.
Qed.

Lemma room_state_cycle_witness :
  let s := stateAfter lobbyOfThree in
  let ev := EvStartGame "A" (settingsOf 3 60) 1000000 0 0 in
  ∃ s' room room',
    step sampleWords ev s = Ok s'
    ∧ heap s !! 0%nat = Some room
    ∧ heap s' !! 0%nat = Some room'
    ∧ Room.state room = lobby
    ∧ Room.state room' = playing
    ∧ turnOf ev = Some (Room.state room, Room.state room').
Proof.
  intros s ev.
  assert (∃ s' room,
            step sampleWords ev s = Ok s' ∧ heap s !! 0%nat = Some room
            ∧ Room.state room = lobby
            ∧ Room.state <$> heap s' !! 0%nat = Some playing)
    as (s' & room & Hstep & Hh & Hst & Hst').
  { eexists _, _. split_and!; by vm_compute. }
  destruct (room_state_cycle sampleWords anyEvent s ev s' 0%nat room)
    as (room' & Hh' & Hturn); [apply Reach_stateAfter; by vm_compute|done..|].
  rewrite Hh' in Hst'. injection Hst' as Hst'.
  exists s', room, room'. split_and!; try done.
  destruct Hturn as [Hsame|Hturn]; [congruence|done].
Defined.
End Cycle.

(** ** Hosts *)

Section Authority.
Import Server Props Invariants Events Roles.

Ltac room_heap :=
  match goal with Hg : getRoom _ _ = Some _ |- _ =>
    apply getRoom_Some in Hg as [_ Hg] end.

(** Handlers other than [createRoom], [joinRoom] and [disconnect] leave
    membership and hosts alone. *)

Lemma roles_refl s : SameRoles s s.
Proof. by repeat split. Qed.

Lemma roles_trans s1 s2 s3 :
  SameRoles s1 s2 → SameRoles s2 s3 → SameRoles s1 s3.
Proof.
  intros (Hr & Hp & Hh) (Hr' & Hp' & Hh'). split_and!.
  - by rewrite Hr'.
  - intros sid. by rewrite Hp'.
  - intros ref. by rewrite Hh'.
Qed.

Lemma roles_fields s s' :
  rooms s' = rooms s → players s' = players s → heap s' = heap s →
  SameRoles s s'.
Proof. intros Hr Hp Hh. split_and!; intros; by rewrite ?Hr, ?Hp, ?Hh. Qed.

Lemma roles_put s s' ref room room' :
  heap s !! ref = Some room →
  heap s' = <[ref := room']> (heap s) →
  Room.ids room' = Room.ids room →
  Room.host room' = Room.host room →
  rooms s' = rooms s → players s' = players s →
  SameRoles s s'.
Proof.
  intros Hh Hh' Hids Hhost Hr Hp. split_and!; [done|by rewrite Hp|].
  intros r. rewrite Hh'.
  destruct (decide (r = ref)) as [->|Hne].
  - rewrite list_lookup_insert_eq by (by eapply lookup_lt_Some).
    rewrite Hh. simpl. by rewrite Hids, Hhost.
  - by rewrite list_lookup_insert_ne.
Qed.

Lemma roles_clearInterval h s : SameRoles s (clearInterval h s).
Proof. destruct h; by apply roles_fields. Qed.

Lemma endGame_roles c s s' : endGame c s = Ok s' → SameRoles s s'.
Proof.
  unfold endGame. destruct (getRoom c s) as [[ref room]|] eqn:Hroom;
    [|intros [= <-]; apply roles_refl].
  room_heap. destruct (Room.gameState room); [|done]. intros [= <-].
  by eapply roles_put.
Qed.

Lemma endRound_roles c s s' : endRound c s = Ok s' → SameRoles s s'.
Proof.
  unfold endRound. destruct (getRoom c s) as [[ref room]|] eqn:Hroom;
    [|intros [= <-]; apply roles_refl].
  room_heap. destruct (Room.gameState room) as [gs|]; [|done].
  destruct (Room.timerInterval room) as [h|]; simpl; case_match.
  - intros Hend%endGame_roles. eapply roles_trans; [|exact Hend].
    by apply roles_fields.
  - intros [= <-]. by eapply roles_put.
  - intros Hend%endGame_roles. eapply roles_trans; [|exact Hend].
    by apply roles_fields.
  - intros [= <-]. by eapply roles_put.
Qed.

Lemma startRound_roles wl now dk wk c s s' :
  startRound wl now dk wk c s = Ok s' → SameRoles s s'.
Proof.
  unfold startRound. destruct (getRoom c s) as [[ref room]|] eqn:Hroom;
    [|intros [= <-]; apply roles_refl].
  room_heap. repeat case_match; try done.
  destruct (WordManager.getRandomWord _ _ _ _ _) as [[word words]| |];
    simpl; [|done..].
  intros [= <-]. by eapply roles_put.
Qed.

Lemma tick_roles h s s' : tick h s = Ok s' → SameRoles s s'.
Proof.
  unfold tick. destruct (intervals s !! h) as [[ref c]|];
    [|intros [= <-]; apply roles_refl].
  destruct (heap s !! ref) as [room|] eqn:Hh;
    [|intros [= <-]; apply roles_refl].
  destruct (Room.gameState room) as [gs|]; [|done].
  destruct (Room.timerInterval room) as [h'|];
    case_bool_decide; simpl; destruct (_ <=? 0);
    try (intros Hend%endRound_roles; eapply roles_trans; [|exact Hend]);
    try (intros [= <-]); by eapply roles_put.
Qed.

Lemma fire_roles wl id now dk wk s s' :
  fire wl id now dk wk s = Ok s' → SameRoles s s'.
Proof.
  unfold fire. destruct (timeouts s !! id) as [[c|c]|];
    [| |intros [= <-]; apply roles_refl].
  - intros Hs%endRound_roles. eapply roles_trans; [|exact Hs].
    by apply roles_fields.
  - intros Hs%startRound_roles. eapply roles_trans; [|exact Hs].
    by apply roles_fields.
Qed.

Lemma startGame_roles wl sid settings now dk wk s s' :
  startGame wl sid settings now dk wk s = Ok s' → SameRoles s s'.
Proof.
  unfold startGame. destruct (players s !! sid) as [info|];
    [|intros [= <-]; apply roles_refl].
  destruct (negb _); [intros [= <-]; apply roles_refl|].
  destruct (getRoom _ s) as [[ref room]|] eqn:Hroom;
    [|intros [= <-]; apply roles_refl].
  room_heap. case_bool_decide; [intros [= <-]; apply roles_refl|].
  intros Hs%startRound_roles. eapply roles_trans; [|exact Hs].
  by eapply roles_put.
Qed.

Lemma drawing_roles sid data s s' :
  drawing sid data s = Ok s' → SameRoles s s'.
Proof.
  unfold drawing. destruct (players s !! sid) as [info|];
    [|intros [= <-]; apply roles_refl].
  destruct (getRoom _ s) as [[ref room]|] eqn:Hroom;
    [|intros [= <-]; apply roles_refl].
  room_heap. repeat case_match; try done;
    intros [= <-]; try apply roles_refl. by eapply roles_put.
Qed.

Lemma clearCanvas_roles sid s s' :
  clearCanvas sid s = Ok s' → SameRoles s s'.
Proof.
  unfold clearCanvas. repeat case_match; try done;
    intros [= <-]; try apply roles_refl. by apply roles_fields.
Qed.

Lemma sendChatMessage_roles sid text now s s' :
  sendChatMessage sid text now s = Ok s' → SameRoles s s'.
Proof.
  unfold sendChatMessage. repeat case_match; try done;
    intros [= <-]; try apply roles_refl; by apply roles_fields.
Qed.

Lemma playAgain_roles sid s s' :
  playAgain sid s = Ok s' → SameRoles s s'.
Proof.
  unfold playAgain. destruct (players s !! sid) as [info|];
    [|intros [= <-]; apply roles_refl].
  destruct (negb _); [intros [= <-]; apply roles_refl|].
  destruct (getRoom _ s) as [[ref room]|] eqn:Hroom;
    [|intros [= <-]; apply roles_refl].
  room_heap. case_bool_decide; intros [= <-]; [apply roles_refl|].
  by eapply roles_put.
Qed.

Lemma submitGuess_roles sid guess now draws s s' :
  submitGuess sid guess now draws s = Ok s' → SameRoles s s'.
Proof.
  unfold submitGuess. destruct (players s !! sid) as [info|];
    [|intros [= <-]; apply roles_refl].
  destruct (AntiCheat.checkCooldown _ _ _ _) as [v ac].
  destruct (negb _); [intros [= <-]; by apply roles_fields|].
  destruct (getRoom _ (setAntiCheat ac s)) as [[ref room]|] eqn:Hroom;
    [|intros [= <-]; by apply roles_fields].
  room_heap. simpl in Hroom.
  repeat case_match; try done; try (intros [= <-]; by apply roles_fields);
    simpl; destruct (forallb _ _); intros [= <-];
    try (destruct (Room.timerInterval room)); by eapply roles_put.
Qed.

Lemma updateAvatar_roles sid avatar s s' :
  updateAvatar sid avatar s = Ok s' → SameRoles s s'.
Proof.
  unfold updateAvatar. destruct (players s !! sid) as [info|] eqn:Hp;
    [|intros [= <-]; apply roles_refl].
  set (s2 := setPlayers _ _).
  assert (SameRoles s s2) as H2.
  { split_and!; [done| |done]. intros x. simpl.
    destruct (decide (x = sid)) as [->|Hne].
    - by rewrite lookup_insert_eq, Hp.
    - by rewrite lookup_insert_ne. }
  destruct (getRoom _ s2) as [[ref room]|] eqn:Hroom; [|by intros [= <-]].
  room_heap.
  destruct (updateFirst _ _ _) as [roster|] eqn:Hu; [|by intros [= <-]].
  intros [= <-]. eapply roles_trans; [exact H2|].
  eapply roles_put; [exact Hroom|reflexivity| |done..].
  unfold Room.ids. simpl. by eapply updateFirst_ids.
Qed.

Lemma step_roles wl ev s s' :
  keepsMembership ev → step wl ev s = Ok s' → SameRoles s s'.
Proof.
  destruct ev; simpl; try done; intros _.
  - apply updateAvatar_roles.
  - apply startGame_roles.
  - apply drawing_roles.
  - apply clearCanvas_roles.
  - apply submitGuess_roles.
  - apply sendChatMessage_roles.
  - apply playAgain_roles.
  - apply tick_roles.
  - apply fire_roles.
Qed.

Lemma roles_sym s s' : SameRoles s s' → SameRoles s' s.
Proof. intros (Hr & Hp & Hh). by split_and!. Qed.

Lemma roles_getRoom s s' c ref room' :
  SameRoles s s' →
  getRoom c s' = Some (ref, room') →
  ∃ room, getRoom c s = Some (ref, room)
          ∧ Room.ids room = Room.ids room'
          ∧ Room.host room = Room.host room'.
Proof.
  intros (Hr & _ & Hh) [Hc Hroom]%getRoom_Some.
  specialize (Hh ref). rewrite Hroom in Hh. simpl in Hh.
  destruct (heap s !! ref) as [room|] eqn:Hroom0; [|done].
  exists room. split; [|by injection Hh].
  apply getRoom_Some. by rewrite <- Hr.
Qed.

Lemma roles_players s s' sid info' :
  SameRoles s s' →
  players s' !! sid = Some info' →
  ∃ info, players s !! sid = Some info
          ∧ Info.room info = Info.room info'
          ∧ Info.isHost info = Info.isHost info'.
Proof.
  intros (_ & Hp & _) Hi. specialize (Hp sid). rewrite Hi in Hp. simpl in Hp.
  destruct (players s !! sid) as [info|]; [|done].
  exists info. split; [done|]. by injection Hp.
Qed.

Lemma roles_HostFlag s s' : SameRoles s s' → HostFlag s → HostFlag s'.
Proof.
  intros Hs HF sid info' ref room' Hi Hroom.
  destruct (roles_players _ _ _ _ Hs Hi) as (info & Hi0 & Hc & Hflag).
  rewrite <- Hc in Hroom.
  destruct (roles_getRoom _ _ _ _ _ Hs Hroom) as (room & Hroom0 & _ & Hhost).
  rewrite <- Hflag, <- Hhost. by eapply HF.
Qed.

(** The three handlers that change membership keep the host flags
    right. *)

Lemma createRoom_HostFlag sid name avatar draws s s' :
  rooms s !! generateRoomCode draws = None →
  createRoom sid name avatar draws s = Ok s' →
  IndexSound s → HostFlag s → HostFlag s'.
Proof.
  intros Hfresh [= <-] HI HF x info ref room. simpl.
  destruct (decide (x = sid)) as [->|Hne].
  - rewrite lookup_insert_eq. intros [= <-] [Hc Hh]%getRoom_Some.
    simpl in *. rewrite lookup_insert_eq in Hc. injection Hc as <-.
    rewrite lookup_app_r in Hh by done. rewrite Nat.sub_diag in Hh.
    by injection Hh as <-.
  - rewrite lookup_insert_ne by done. intros Hi [Hc Hh]%getRoom_Some.
    simpl in *.
    destruct (HI _ _ Hi) as (r0 & rm0 & [Hc0 Hh0]%getRoom_Some & _).
    rewrite lookup_insert_ne in Hc by congruence.
    assert (ref = r0) as -> by congruence.
    rewrite lookup_app_l in Hh by (by eapply lookup_lt_Some).
    eapply HF; [exact Hi|]. by apply getRoom_Some.
Qed.

Lemma joinRoom_roles_cases sid c name avatar s s' :
  joinRoom sid c name avatar s = Ok s' →
  SameRoles s s'
  ∨ ∃ ref room player info,
      getRoom c s = Some (ref, room)
      ∧ Player.id player = sid
      ∧ rooms s' = rooms s
      ∧ heap s'
        = <[ref := Room.setPlayers (Room.players room ++ [player]) room]>
            (heap s)
      ∧ Info.room info = c ∧ Info.isHost info = false
      ∧ players s' = <[sid := info]> (players s).
Proof.
  unfold joinRoom. destruct (getRoom c s) as [[ref room]|] eqn:Hroom;
    [|intros [= <-]; left; by apply roles_fields].
  case_bool_decide; [intros [= <-]; left; by apply roles_fields|].
  case_match; intros [= <-]; [left; by apply roles_fields|].
  right.
  exists ref, room,
    {| Player.id := sid; Player.name := name; Player.isHost := false;
       Player.avatar := avatar |}.
  eexists. split; [done|]. split; [done|]. split; [done|]. split; [done|].
  split; [|split; [|reflexivity]]; done.
Qed.

Lemma joinRoom_HostFlag sid c name avatar s s' :
  players s !! sid = None →
  joinRoom sid c name avatar s = Ok s' →
  HeapOk s → LiveNonEmpty s → RosterIndexed s →
  HostFlag s → HostFlag s'.
Proof.
  intros Hnew
    [Hs|(ref & room & p & info & Hroom & Hid & Hr & Hh & Hc & Hflag & Hp)]
      %joinRoom_roles_cases Hok Hlive HJ HF; [by eapply roles_HostFlag|].
  pose proof Hroom as [Hrc Hrh]%getRoom_Some.
  assert (Room.host room ≠ sid) as Hhost.
  { destruct (Forall_lookup_1 _ _ _ _ Hok Hrh) as (_ & _ & [Hnil|Hin] & _);
      [by destruct (Hlive _ _ _ Hroom)|].
    destruct (HJ _ _ _ _ Hroom Hin) as (infoh & Hih & _). congruence. }
  intros x infox r rm. rewrite Hp.
  destruct (decide (x = sid)) as [->|Hne].
  - rewrite lookup_insert_eq. intros [= <-] [Hxc Hxh]%getRoom_Some.
    rewrite Hc, Hr in Hxc. assert (r = ref) as -> by congruence.
    rewrite Hh, list_lookup_insert_eq in Hxh by (by eapply lookup_lt_Some).
    injection Hxh as <-. simpl. rewrite Hflag. split; [done|]. by intros ?.
  - rewrite lookup_insert_ne by done. intros Hi [Hxc Hxh]%getRoom_Some.
    rewrite Hr in Hxc. rewrite Hh in Hxh.
    destruct (decide (r = ref)) as [->|Hr'].
    + rewrite list_lookup_insert_eq in Hxh by (by eapply lookup_lt_Some).
      injection Hxh as <-. simpl. eapply HF; [exact Hi|].
      by apply getRoom_Some.
    + rewrite list_lookup_insert_ne in Hxh by done.
      eapply HF; [exact Hi|]. by apply getRoom_Some.
Qed.

Lemma disconnect_HostFlag sid s s' :
  disconnect sid s = Ok s' →
  RefsValid s → IndexSound s → RosterIndexed s →
  HostFlag s → HostFlag s'.
Proof.
  unfold disconnect. destruct (players s !! sid) as [info|] eqn:Hp;
    [|by intros [= <-]].
  destruct (getRoom _ s) as [[ref room]|] eqn:Hroom; [|by intros [= <-]].
  intros Hrun [HV Hinj] HI HJ HF.
  pose proof Hroom as [Hrc Hrh]%getRoom_Some.
  fold (rosterWithout sid room) in *.
  (* Where another player's entry leads before the step. *)
  assert (∀ x infox,
            sid ≠ x → players s !! x = Some infox →
            ∃ r rm, getRoom (Info.room infox) s = Some (r, rm)
                    ∧ x ∈ Room.ids rm
                    ∧ (Info.isHost infox = true ↔ Room.host rm = x)
                    ∧ (r = ref → Info.room infox = Info.room info
                                 ∧ rm = room
                                 ∧ x ∈ Player.id <$> rosterWithout sid room))
    as Hother.
  { intros x infox Hne Hi.
    destruct (HI _ _ Hi) as (r & rm & Hxr & Hin). exists r, rm.
    split; [done|]. split; [done|]. split; [by eapply HF|].
    intros ->. apply getRoom_Some in Hxr as [Hxc Hxh].
    assert (rm = room) as -> by congruence.
    split; [by eapply Hinj|]. split; [done|].
    apply (ids_without sid room x). split; [done|]. congruence. }
  destruct (rosterWithout sid room) as [|first rest] eqn:Hroster.
  { injection Hrun as <-. intros x infox r rm. simpl.
    intros [Hne Hi]%lookup_delete_Some [Hxc Hxh]%getRoom_Some. simpl in *.
    apply lookup_delete_Some in Hxc as [Hcne Hxc].
    destruct (Hother _ _ Hne Hi) as (r0 & rm0 & [Hc0 Hh0]%getRoom_Some & _
                                     & Hflag & Hsame).
    assert (r = r0) as -> by congruence.
    destruct (decide (r0 = ref)) as [->|Hr'].
    - destruct (Hsame eq_refl) as (_ & _ & Hin). by apply elem_of_nil in Hin.
    - rewrite list_lookup_insert_ne in Hxh by done.
      assert (rm = rm0) as -> by congruence. done. }
  set (room1 := Room.setPlayers (first :: rest) room) in *.
  set (s5 := emit _ _ _) in Hrun.
  assert (∀ room2 s6,
            rooms s6 = rooms s →
            heap s6 = <[ref := room2]> (heap s) →
            HostFlag s6 →
            (if bool_decide (Room.state room2 = playing)
                && bool_decide
                     (Some sid
                      = (gs ← Room.gameState room2; Game.currentDrawer gs))
             then endRound (Info.room info)
                    (clearInterval (Room.timerInterval room2) s6)
             else Ok s6) = Ok s' →
            HostFlag s') as Hend.
  { intros room2 s6 Hr6 Hh6 HF6. destruct (_ && _).
    - intros Hs%endRound_roles. eapply roles_HostFlag; [|exact HF6].
      eapply roles_trans; [apply roles_clearInterval|exact Hs].
    - by intros [= <-]. }
  destruct (bool_decide (sid = Room.host room1)) eqn:Hhost.
  - apply bool_decide_eq_true in Hhost. simpl in Hhost.
    destruct (players s5 !! Player.id first) as [infoh|] eqn:Hih; [|done].
    simpl in Hrun, Hih. apply lookup_delete_Some in Hih as [Hfne Hih].
    revert Hrun. apply (Hend (Room.setHost (Player.id first) room1));
      [done|simpl; by rewrite list_insert_insert_eq|].
    destruct (Hother _ _ ltac:(done) Hih)
      as (rf & rmf & [Hcf Hhf]%getRoom_Some & _ & _ & _).
    destruct (HJ _ _ _ _ Hroom
                (proj1 (proj1 (ids_without sid room (Player.id first))
                          ltac:(rewrite Hroster; unfold Room.ids; simpl;
                                apply list_elem_of_here))))
      as (infof & Hif & Hcfirst).
    assert (infof = infoh) as -> by congruence.
    intros x infox r rm. simpl.
    destruct (decide (x = Player.id first)) as [->|Hxf].
    + rewrite lookup_insert_eq. intros [= <-] [Hxc Hxh]%getRoom_Some.
      simpl in *. rewrite Hcfirst in Hxc.
      assert (r = ref) as -> by congruence.
      rewrite list_insert_insert_eq in Hxh.
      rewrite list_lookup_insert_eq in Hxh by (by eapply lookup_lt_Some).
      by injection Hxh as <-.
    + rewrite lookup_insert_ne by done.
      intros [Hne Hi]%lookup_delete_Some [Hxc Hxh]%getRoom_Some. simpl in *.
      destruct (Hother _ _ Hne Hi) as (r0 & rm0 & [Hc0 Hh0]%getRoom_Some & _
                                       & Hflag & Hsame).
      assert (r = r0) as -> by congruence.
      rewrite list_insert_insert_eq in Hxh.
      destruct (decide (r0 = ref)) as [->|Hr'].
      * rewrite list_lookup_insert_eq in Hxh by (by eapply lookup_lt_Some).
        injection Hxh as <-. simpl.
        destruct (Hsame eq_refl) as (_ & -> & _).
        split; [|congruence]. intros Hflag'%Hflag. congruence.
      * rewrite list_lookup_insert_ne in Hxh by done.
        assert (rm = rm0) as -> by congruence. done.
  - apply bool_decide_eq_false in Hhost. simpl in Hhost, Hrun.
    revert Hrun. apply (Hend room1); [done..|].
    intros x infox r rm. simpl.
    intros [Hne Hi]%lookup_delete_Some [Hxc Hxh]%getRoom_Some. simpl in *.
    destruct (Hother _ _ Hne Hi) as (r0 & rm0 & [Hc0 Hh0]%getRoom_Some & _
                                     & Hflag & Hsame).
    assert (r = r0) as -> by congruence.
    destruct (decide (r0 = ref)) as [->|Hr'].
    + rewrite list_lookup_insert_eq in Hxh by (by eapply lookup_lt_Some).
      injection Hxh as <-. simpl.
      by destruct (Hsame eq_refl) as (_ & -> & _).
    + rewrite list_lookup_insert_ne in Hxh by done.
      assert (rm = rm0) as -> by congruence. done.
Qed.

Lemma Reach_HostFlag wl s : Reach wl orderly s → HostFlag s.
Proof.
  intros Hreach.
  assert (IndexSound s ∧ HostFlag s) as [_ HF]; [|done].
  induction Hreach as [|s ev s' Hr [HI HF] [Hfresh Hnew] Hstep].
  { split; [apply init_invariants|]. intros sid info ref room Hi.
    simpl in Hi. by rewrite lookup_empty in Hi. }
  destruct (Reach_orderly _ _ Hr) as (HV & Hok & Hlive & HJ).
  split; [by eapply step_IndexSound|].
  destruct ev;
    try (by eapply roles_HostFlag; [eapply step_roles; [|exact Hstep]|]).
  - by eapply createRoom_HostFlag.
  - by eapply joinRoom_HostFlag.
  - by eapply disconnect_HostFlag.
Qed.

(** X18: only the host starts and restarts a game.  In every state
    reached without code collisions and with rooms created and joined by
    sockets that are in no room, the host flag of a player's index entry
    is set exactly when the player is the host of the room the entry
    names; so [startGame] and [playAgain] from anybody else change
    nothing. *)
Theorem only_the_host_starts_and_restarts
    wl s sid info ref room settings now dk wk :
  Reach wl orderly s →
  players s !! sid = Some info →
  getRoom (Info.room info) s = Some (ref, room) →
  (Info.isHost info = true ↔ Room.host room = sid)
  ∧ (Room.host room ≠ sid →
     startGame wl sid settings now dk wk s = Ok s
     ∧ playAgain sid s = Ok s).
Proof.
  intros HF%Reach_HostFlag Hi Hroom.
  specialize (HF _ _ _ _ Hi Hroom). split; [done|]. intros Hne.
  assert (Info.isHost info = false) as Hflag.
  { destruct (Info.isHost info); [|done]. by destruct Hne; apply HF. }
  unfold startGame, playAgain. by rewrite Hi, Hflag.
Qed.

Lemma only_the_host_starts_and_restarts_witness :
  let s := stateAfter (lobbyOfThree ++ [EvDisconnect "A"]) in
  ∃ room,
    getRoom "ABCD" s = Some (0%nat, room)
    ∧ Room.host room = "B"
    ∧ startGame sampleWords "C" (settingsOf 3 60) 1000000 0 0 s = Ok s
    ∧ playAgain "C" s = Ok s.
Proof.
  intros s.
  assert (∃ info room,
            players s !! "C" = Some info
            ∧ getRoom (Info.room info) s = Some (0%nat, room)
            ∧ Info.room info = "ABCD" ∧ Room.host room = "B")
    as (info & room & Hi & Hroom & Hc & Hhost).
  { eexists _, _. split_and!; by vm_compute. }
  exists room. rewrite <- Hc. split; [done|]. split; [done|].
  apply (only_the_host_starts_and_restarts sampleWords s "C" info 0%nat room);
    [|done|done|by rewrite Hhost].
  apply (Reach_run _ _ (lobbyOfThree ++ [EvDisconnect "A"]) init);
    [constructor| |by vm_compute].
  vm_compute. by split_and!.
Defined.
End Authority.

(** ** Rounds *)

Section Rounds.
Import Server Props Invariants Events Roles Timing.

Lemma eligible_nil (ps : list Player.t) (previous : option string) :
  filter (λ p, Some (Player.id p) ≠ previous) ps = []
  ↔ ∀ p, p ∈ ps → Some (Player.id p) = previous.
Proof.
  split.
  - intros Hnil p Hin.
    destruct (decide (Some (Player.id p) = previous)) as [|Hne]; [done|].
    assert (p ∈ filter (λ p, Some (Player.id p) ≠ previous) ps) as Hp
      by (by apply list_elem_of_filter).
    rewrite Hnil in Hp. by apply elem_of_nil in Hp.
  - intros Hall. induction ps as [|p ps IH]; [done|].
    rewrite filter_cons_False.
    + apply IH. intros q Hq. apply Hall. by right.
    + intros Hne. apply Hne, Hall. by left.
Qed.

(** X19: what a round starts with.  When [startRound] returns for a room
    with a round state, the drawer is a player of the room other than the
    drawer of the round before; nobody has guessed; the timer is the
    round time; scores and round number are kept; the word is locked;
    a new interval is running for the room; and the word is sent to the
    drawer alone, after [roundStarted] to the room. *)
Theorem startRound_picks_another_drawer
    wl now dk wk c s s' ref room gs :
  getRoom c s = Some (ref, room) →
  Room.gameState room = Some gs →
  startRound wl now dk wk c s = Ok s' →
  ∃ drawer room' gs',
    getRoom c s' = Some (ref, room')
    ∧ Room.gameState room' = Some gs'
    ∧ drawer ∈ Room.players room
    ∧ Game.currentDrawer gs' = Some (Player.id drawer)
    ∧ Game.currentDrawer gs ≠ Some (Player.id drawer)
    ∧ Game.playersWhoGuessed gs' = []
    ∧ Game.timer gs' = Game.roundTime gs
    ∧ Game.scores gs' = Game.scores gs
    ∧ Game.currentRound gs' = Game.currentRound gs
    ∧ Room.players room' = Room.players room
    ∧ Room.state room' = Room.state room
    ∧ WordManager.isWordLocked now (Game.word gs') (activeWords s') = true
    ∧ Room.timerInterval room' = Some (nextTimer s)
    ∧ intervals s' = <[nextTimer s := (ref, c)]> (intervals s)
    ∧ outbox s'
      = outbox s
        ++ [(ToRoom c,
             roundStarted (Player.id drawer) (Player.name drawer)
               (Player.avatar drawer) (Game.currentRound gs)
               (Game.rounds gs) (Game.roundTime gs));
            (ToSocket (Player.id drawer), wordUpdate (Game.word gs'))].
Proof.
  intros Hroom Hgs. unfold startRound. rewrite Hroom, Hgs. simpl.
  destruct (filter _ _ !! _) as [drawer|] eqn:Hd; [|done].
  apply list_elem_of_lookup_2, list_elem_of_filter in Hd as [Hne Hin].
  unfold WordManager.getRandomWord.
  destruct (WordManager.listFor _ _) as [l|]; [|done].
  destruct (l !! _) as [word|]; [|done]. simpl. intros [= <-].
  exists drawer. eexists _, _. split.
  { apply getRoom_Some. apply getRoom_Some in Hroom as [Hc Hh]. simpl.
    split; [done|]. apply list_lookup_insert_eq. by eapply lookup_lt_Some. }
  simpl. split_and!; try done.
  - unfold WordManager.isWordLocked. by rewrite lookup_insert_eq, Z.sub_diag.
  - by rewrite <- app_assoc.
Qed.

Lemma startRound_picks_another_drawer_witness :
  let s := stateAfter (gameOfThree 60 3) in
  ∃ s' room' gs',
    startRound sampleWords 1005000 0 1 "ABCD" s = Ok s'
    ∧ getRoom "ABCD" s' = Some (0%nat, room')
    ∧ Room.gameState room' = Some gs'
    ∧ Game.currentDrawer gs' = Some "B"
    ∧ Game.word gs' = "house".
Proof.
  intros s.
  assert (∃ s' room gs,
            startRound sampleWords 1005000 0 1 "ABCD" s = Ok s'
            ∧ getRoom "ABCD" s = Some (0%nat, room)
            ∧ Room.gameState room = Some gs
            ∧ (Game.currentDrawer <$> gameIn "ABCD" s') = Some (Some "B")
            ∧ (Game.word <$> gameIn "ABCD" s') = Some "house")
    as (s' & room & gs & Hrun & Hroom & Hgs & Hd & Hw).
  { eexists _, _, _. split_and!; by vm_compute. }
  destruct (startRound_picks_another_drawer _ _ _ _ _ _ _ _ _ _
              Hroom Hgs Hrun) as (drawer & room' & gs' & Hroom' & Hgs' & _).
  exists s', room', gs'. split; [done|]. split; [done|]. split; [done|].
  unfold gameIn in Hd, Hw. rewrite Hroom' in Hd, Hw. simpl in Hd, Hw.
  rewrite Hgs' in Hd, Hw. simpl in Hd, Hw. split; congruence.
Defined.

(** X20: when a round cannot start.  For a room with a round state and a
    difficulty that is not a name inherited from [Object.prototype],
    [startRound] throws exactly when every player of the room is the
    drawer of the round before (an empty room, or a player alone after
    the first round), or the word list of the game's difficulty is
    missing or empty. *)
Theorem startRound_fails_iff wl now dk wk c s ref room gs :
  getRoom c s = Some (ref, room) →
  Room.gameState room = Some gs →
  Keys.ownKey (Game.difficulty gs) = true →
  (∃ e, startRound wl now dk wk c s = Throw e)
  ↔ (∀ p, p ∈ Room.players room →
          Some (Player.id p) = Game.currentDrawer gs)
    ∨ WordManager.listFor wl (Game.difficulty gs) = None
    ∨ WordManager.listFor wl (Game.difficulty gs) = Some [].
Proof.
  intros Hroom Hgs _. unfold startRound. rewrite Hroom, Hgs. simpl.
  rewrite <- eligible_nil.
  set (eligible := filter _ _).
  destruct (decide (eligible = [])) as [Hnil|Hsome].
  - rewrite Hnil. simpl. split; [by left|by eexists].
  - destruct (randIndex_lookup eligible dk Hsome) as (drawer & -> & _).
    unfold WordManager.getRandomWord.
    destruct (WordManager.listFor _ _) as [l|]; simpl;
      [|split; [by right; left|by eexists]].
    destruct (decide (l = [])) as [->|Hl].
    + simpl. split; [by right; right|by eexists].
    + destruct (randIndex_lookup l wk Hl) as (word & -> & _). simpl.
      split; [by intros [e ?]|]. intros [?|[?|?]]; congruence.
Qed.

(** Ann is alone and drew the first round: no second round. *)
Lemma startRound_fails_iff_witness :
  let s := stateAfter [EvCreateRoom "A" "Ann" "a1" (0, 1, 2, 3)%nat;
                       EvStartGame "A" (settingsOf 3 60) 1000000 0 0] in
  ∃ e, startRound sampleWords 1065000 0 0 "ABCD" s = Throw e.
Proof.
  intros s.
  assert (∃ room gs,
            getRoom "ABCD" s = Some (0%nat, room)
            ∧ Room.gameState room = Some gs
            ∧ Room.players room
              = [{| Player.id := "A"; Player.name := "Ann";
                    Player.isHost := true; Player.avatar := "a1" |}]
            ∧ Game.currentDrawer gs = Some "A"
            ∧ Keys.ownKey (Game.difficulty gs) = true)
    as (room & gs & Hroom & Hgs & Hps & Hd & Hkey).
  { eexists _, _. split_and!; by vm_compute. }
  apply (startRound_fails_iff sampleWords 1065000 0 0 "ABCD" s 0%nat room gs
           Hroom Hgs Hkey).
  left. intros p. rewrite Hps, Hd. by intros ->%list_elem_of_singleton.
Defined.

Lemma sent_emit f to p s :
  sent f (emit to p s) = sent f s ++ (if f p then [(to, p)] else []).
Proof.
  unfold sent. simpl. rewrite filter_app. f_equal.
  destruct (f p) eqn:Hf.
  - by rewrite filter_cons_True.
  - rewrite filter_cons_False; [done|]. simpl. by rewrite Hf.
Qed.

(** X21: the countdown.  While more than [n] seconds are left, [n] ticks
    of a room's interval return, take exactly [n] off the timer, send one
    [timerUpdate] each with the values in descending order, leave the
    hint at [calculateHint] of the elapsed time, and leave word, scores,
    round number, room state and the scheduled callbacks alone. *)
Theorem ticks_count_down wl h n : ∀ s ref c room gs,
  intervals s !! h = Some (ref, c) →
  heap s !! ref = Some room →
  Room.gameState room = Some gs →
  Z.of_nat n < Game.timer gs →
  ∃ s' room' gs',
    run wl (replicate n (EvInterval h)) s = Ok s'
    ∧ heap s' !! ref = Some room'
    ∧ Room.gameState room' = Some gs'
    ∧ Game.timer gs' = Game.timer gs - Z.of_nat n
    ∧ (n ≠ 0%nat →
       Game.hint gs'
       = calculateHint (Game.word gs)
           (Game.roundTime gs - Game.timer gs') (Game.roundTime gs))
    ∧ Game.word gs' = Game.word gs
    ∧ Game.roundTime gs' = Game.roundTime gs
    ∧ Game.scores gs' = Game.scores gs
    ∧ Game.currentRound gs' = Game.currentRound gs
    ∧ Room.state room' = Room.state room
    ∧ intervals s' = intervals s
    ∧ timeouts s' = timeouts s
    ∧ sent isTimerUpdate s'
      = sent isTimerUpdate s
        ++ ((λ t, (ToRoom c, timerUpdate t)) <$> countdown (Game.timer gs) n).
Proof.
  induction n as [|n IH]; intros s ref c room gs Hi Hh Hgs Hlt.
  { exists s, room, gs. simpl. rewrite app_nil_r, Z.sub_0_r.
    by split_and!. }
  simpl. unfold tick. rewrite Hi, Hh, Hgs.
  rewrite (proj2 (Z.leb_gt _ _)) by lia.
  set (gs1 := Game.setTimerHint _ _ gs).
  set (room1 := Room.setGameState (Some gs1) room).
  set (s1 := putRoom ref room1 s).
  set (s3 := emit _ (timerUpdate _) _).
  assert (intervals s3 = intervals s ∧ timeouts s3 = timeouts s
          ∧ heap s3 = <[ref := room1]> (heap s)
          ∧ sent isTimerUpdate s3
            = sent isTimerUpdate s
              ++ [(ToRoom c, timerUpdate (Game.timer gs - 1))])
    as (Hi3 & Ht3 & Hh3 & Hsent3).
  { unfold s3. rewrite sent_emit. simpl. case_bool_decide; simpl;
      rewrite ?sent_emit; simpl; rewrite ?app_nil_r; by split_and!. }
  destruct (IH s3 ref c room1 gs1) as (s' & room' & gs' & Hrun & Hh' & Hgs'
    & Htimer & Hhint & Hword & HT & Hsc & Hround & Hst & Hi' & Ht' & Hsent).
  { by rewrite Hi3. }
  { rewrite Hh3. apply list_lookup_insert_eq. by eapply lookup_lt_Some. }
  { done. }
  { simpl. lia. }
  assert (Game.hint gs'
          = calculateHint (Game.word gs)
              (Game.roundTime gs - Game.timer gs') (Game.roundTime gs))
    as Hhint'.
  { destruct n as [|n].
    - simpl in Hrun. injection Hrun as <-.
      rewrite Hh3, list_lookup_insert_eq in Hh'
        by (by eapply lookup_lt_Some).
      injection Hh' as <-. injection Hgs' as <-. done.
    - by rewrite Hhint. }
  exists s', room', gs'. rewrite Hi3 in Hi'. rewrite Ht3 in Ht'.
  rewrite Hsent3, <- app_assoc in Hsent.
  split; [done|]. split; [done|]. split; [done|].
  split; [rewrite Htimer; simpl; lia|].
  by split_and!.
Qed.

Lemma ticks_count_down_witness :
  let s := stateAfter (gameOfThree 60 0) in
  ∃ s' room' gs',
    run sampleWords (replicate 18 (EvInterval 0)) s = Ok s'
    ∧ heap s' !! 0%nat = Some room'
    ∧ Room.gameState room' = Some gs'
    ∧ Game.timer gs' = 60 - 18
    ∧ Game.hint gs' = calculateHint "Apple" (60 - Game.timer gs') 60.
Proof.
  intros s.
  assert (∃ room gs,
            intervals s !! 0%nat = Some (0%nat, "ABCD")
            ∧ heap s !! 0%nat = Some room
            ∧ Room.gameState room = Some gs
            ∧ Game.timer gs = 60 ∧ Game.word gs = "Apple"
            ∧ Game.roundTime gs = 60)
    as (room & gs & Hi & Hh & Hgs & Htimer & Hword & HT).
  { eexists _, _. split_and!; by vm_compute. }
  destruct (ticks_count_down sampleWords 0 18 s 0%nat "ABCD" room gs
              Hi Hh Hgs)
    as (s' & room' & gs' & Hrun & Hh' & Hgs' & Htimer' & Hhint & _);
    [rewrite Htimer; lia|].
  exists s', room', gs'. rewrite Htimer in Htimer'.
  rewrite Hword, HT in Hhint.
  split; [exact Hrun|]. split; [exact Hh'|]. split; [exact Hgs'|].
  split; [exact Htimer'|]. apply Hhint. lia.
Defined.

Lemma everyone_forallb drawer guessed gs :
  forallb (λ id, bool_decide (Some id = Some drawer)
                 || bool_decide (id ∈ guessed))
    (Game.allPlayers gs) = true
  ↔ everyoneGuessed drawer guessed gs.
Proof.
  unfold everyoneGuessed. rewrite forallb_forall, Forall_forall.
  split; intros Hall id Hin.
  - specialize (Hall id (proj1 (list_elem_of_In _ _) Hin)).
    apply orb_true_iff in Hall as [H|H]; apply bool_decide_eq_true in H.
    + left. congruence.
    + by right.
  - apply list_elem_of_In in Hin. apply orb_true_iff.
    destruct (Hall id Hin) as [->|H]; [left|right];
      by apply bool_decide_eq_true.
Qed.

(** X22: when a round ends early.  An accepted correct guess stops the
    room's interval and schedules [endRound] (2 seconds later) exactly
    when everybody in the roster taken at [startGame] is the drawer or
    has guessed by now; otherwise no callback is added or removed.
    Players who left since count as well. *)
Theorem round_ends_early_iff_everyone_guessed
    sid guess now draws s info ref room gs drawer shown :
  GuessAccepted sid guess now s info ref room gs drawer →
  maskedGuessOf room gs draws = Some shown →
  ∃ s',
    submitGuess sid guess now draws s = Ok s'
    ∧ ((everyoneGuessed drawer (Game.playersWhoGuessed gs ++ [sid]) gs
        ∧ timeouts s'
          = <[nextTimer s := afterGrace (Info.room info)]> (timeouts s)
        ∧ intervals s'
          = intervals (clearInterval (Room.timerInterval room) s))
       ∨ (¬ everyoneGuessed drawer (Game.playersWhoGuessed gs ++ [sid]) gs
          ∧ timeouts s' = timeouts s
          ∧ intervals s' = intervals s)).
Proof.
  intros (Hp & Hrate & Hroom & Hst & Hgs & Hdr & Hne & Hfirst & Hmatch) Hshown.
  unfold submitGuess. rewrite Hp.
  destruct (AntiCheat.checkCooldown now sid AntiCheat.guess (antiCheat s))
    as [v ac] eqn:Hc.
  simpl in Hrate. rewrite Hrate. simpl.
  replace (getRoom (Info.room info) (setAntiCheat ac s))
    with (Some (ref, room)) by (symmetry; exact Hroom).
  rewrite Hst, Hgs. simpl. rewrite Hdr.
  rewrite bool_decide_eq_false_2 by congruence.
  rewrite bool_decide_eq_false_2 by done.
  rewrite bool_decide_eq_true_2 by done.
  rewrite Hshown. simpl.
  destruct (forallb _ _) eqn:Hall; eexists; (split; [reflexivity|]).
  - left. apply everyone_forallb in Hall. split; [done|].
    by destruct (Room.timerInterval room).
  - right. split; [|done]. intros Hev%everyone_forallb. congruence.
Qed.

(** Ann draws for Bob alone: his guess ends the round. *)
Lemma round_ends_early_iff_everyone_guessed_witness :
  let s := stateAfter (gameOfTwo 60 5) in
  ∃ s',
    submitGuess "B" "apple" 1005000 [] s = Ok s'
    ∧ timeouts s' = <[nextTimer s := afterGrace "ABCD"]> (timeouts s)
    ∧ intervals s' = intervals (clearInterval (Some 0%nat) s).
Proof.
  intros s.
  assert (∃ info ref room gs shown,
            GuessAccepted "B" "apple" 1005000 s info ref room gs "A"
            ∧ maskedGuessOf room gs [] = Some shown
            ∧ Info.room info = "ABCD"
            ∧ Room.timerInterval room = Some 0%nat
            ∧ everyoneGuessed "A" (Game.playersWhoGuessed gs ++ ["B"]) gs)
    as (info & ref & room & gs & shown & Hacc & Hshown & Hc & Hti & Hev).
  { eexists _, _, _, _, _. unfold GuessAccepted.
    split_and!; try (vm_compute; reflexivity).
    - vm_compute. congruence.
    - apply (bool_decide_unpack _). by vm_compute.
    - apply everyone_forallb. by vm_compute. }
  destruct (round_ends_early_iff_everyone_guessed _ _ _ _ _ _ _ _ _ _ _
              Hacc Hshown) as (s' & Hrun & [(_ & Ht & Hi)|(Hno & _)]);
    [|destruct (Hno Hev)].
  rewrite Hc in Ht. rewrite Hti in Hi.
  exists s'. split; [exact Hrun|]. split; [exact Ht|exact Hi].
Defined.

Lemma outbox_clearInterval h s : outbox (clearInterval h s) = outbox s.
Proof. by destruct h. Qed.

Lemma endGame_outbox c s s' :
  endGame c s = Ok s' → ∃ more, outbox s' = outbox s ++ more.
Proof.
  unfold endGame. destruct (getRoom c s) as [[ref room]|];
    [|intros [= <-]; exists []; by rewrite app_nil_r].
  destruct (Room.gameState room); [|done]. intros [= <-]. by eexists.
Qed.

Lemma endRound_outbox c s s' :
  endRound c s = Ok s' → ∃ more, outbox s' = outbox s ++ more.
Proof.
  unfold endRound. destruct (getRoom c s) as [[ref room]|];
    [|intros [= <-]; exists []; by rewrite app_nil_r].
  destruct (Room.gameState room) as [gs|]; [|done].
  destruct (Room.timerInterval room) as [h|]; simpl; case_match;
    try (intros [more Hm]%endGame_outbox; by exists more);
    intros [= <-]; by eexists.
Qed.

(** With the new host in the index, the handler returns: a round that
    the leaver was drawing has a round state to end. *)
Lemma host_leaves_returns sid s info ref room first rest :
  players s !! sid = Some info →
  getRoom (Info.room info) s = Some (ref, room) →
  Room.host room = sid →
  rosterWithout sid room = first :: rest →
  is_Some (players s !! Player.id first) →
  ∃ s', disconnect sid s = Ok s'.
Proof.
  intros Hp Hroom Hhost Hroster [infoh Hih]. unfold disconnect.
  rewrite Hp, Hroom. fold (rosterWithout sid room). rewrite Hroster.
  pose proof Hroom as [Hrc Hrh]%getRoom_Some.
  assert (Player.id first ≠ sid) as Hfne.
  { assert (Player.id first ∈ Room.ids room ∧ Player.id first ≠ sid)
      as [_ ?]; [|done].
    apply ids_without. rewrite Hroster. unfold Room.ids. simpl.
    apply list_elem_of_here. }
  set (room1 := Room.setPlayers (first :: rest) room).
  set (s5 := emit _ _ _).
  rewrite bool_decide_eq_true_2 by (by simpl).
  assert (players s5 !! Player.id first = Some infoh) as ->.
  { simpl. by rewrite lookup_delete_ne. }
  simpl. set (room2 := Room.setHost _ room1). set (s6 := emit _ _ _).
  destruct (_ && _) eqn:Hcond; [|by eexists].
  apply andb_true_iff in Hcond as [_ Hdr%bool_decide_eq_true].
  destruct (Room.gameState room) as [gs|] eqn:Hgs; [|by simpl in Hdr].
  eapply (endRound_returns _ _ ref room2 gs); [|exact Hgs].
  assert (heap s6 !! ref = Some room2) as Hh6.
  { simpl. rewrite list_insert_insert_eq. apply list_lookup_insert_eq.
    by eapply lookup_lt_Some. }
  apply getRoom_Some. by destruct (Room.timerInterval room).
Qed.

(** What the host's leaving does once the handler has returned. *)
Lemma host_leaves_effect sid s s' info ref room first rest :
  players s !! sid = Some info →
  getRoom (Info.room info) s = Some (ref, room) →
  Room.host room = sid →
  rosterWithout sid room = first :: rest →
  disconnect sid s = Ok s' →
  ∃ room',
    getRoom (Info.room info) s' = Some (ref, room')
    ∧ Room.host room' = Player.id first
    ∧ Room.ids room' = Player.id <$> first :: rest
    ∧ players s' !! sid = None
    ∧ Info.isHost <$> players s' !! Player.id first = Some true
    ∧ Info.room <$> players s' !! Player.id first
      = Info.room <$> players s !! Player.id first
    ∧ ∃ more,
        outbox s'
        = outbox s
          ++ [(ToRoom (Info.room info), playerUpdate (first :: rest));
              (ToRoom (Info.room info), newHost (Player.id first))]
          ++ more.
Proof.
  intros Hp Hroom Hhost Hroster. unfold disconnect. rewrite Hp, Hroom.
  fold (rosterWithout sid room). rewrite Hroster.
  pose proof Hroom as [Hrc Hrh]%getRoom_Some.
  assert (Player.id first ≠ sid) as Hfne.
  { assert (Player.id first ∈ Room.ids room ∧ Player.id first ≠ sid)
      as [_ ?]; [|done].
    apply ids_without. rewrite Hroster. unfold Room.ids. simpl.
    apply list_elem_of_here. }
  set (room1 := Room.setPlayers (first :: rest) room).
  set (s5 := emit _ _ _).
  rewrite bool_decide_eq_true_2 by (by simpl).
  destruct (players s5 !! Player.id first) as [infoh|] eqn:Hih; [|done].
  simpl in Hih. apply lookup_delete_Some in Hih as [_ Hih].
  simpl. set (room2 := Room.setHost _ room1). set (s6 := emit _ _ _).
  intros Hrun.
  assert (SameRoles s6 s' ∧ ∃ more, outbox s' = outbox s6 ++ more)
    as [(Hr & Hpl & Hh) [more Hout]].
  { destruct (_ && _).
    - split.
      + eapply roles_trans; [apply roles_clearInterval|].
        by eapply endRound_roles.
      + apply endRound_outbox in Hrun as [more Hm]. exists more.
        by rewrite Hm, outbox_clearInterval.
    - injection Hrun as <-. split; [apply roles_refl|].
      exists []. by rewrite app_nil_r. }
  assert (heap s6 !! ref = Some room2) as Hh6.
  { simpl. rewrite list_insert_insert_eq. apply list_lookup_insert_eq.
    by eapply lookup_lt_Some. }
  specialize (Hh ref). rewrite Hh6 in Hh. simpl in Hh.
  destruct (heap s' !! ref) as [room'|] eqn:Hh'; [|done].
  injection Hh as Hids Hhost'.
  exists room'. split; [apply getRoom_Some; by rewrite Hr|].
  split; [done|]. split; [done|].
  pose proof (Hpl sid) as Hsid. pose proof (Hpl (Player.id first)) as Hfirst.
  simpl in Hsid, Hfirst.
  rewrite lookup_insert_ne, lookup_delete_eq in Hsid by done.
  rewrite lookup_insert_eq in Hfirst. simpl in Hfirst.
  split; [by destruct (players s' !! sid)|].
  destruct (players s' !! Player.id first) as [info'|]; [|done].
  injection Hfirst as Hc Hflag. simpl. rewrite Hih. simpl.
  split; [by f_equal|]. split; [by f_equal|].
  exists more. rewrite Hout. simpl. by rewrite <- !app_assoc.
Qed.

(** X23: the host leaves.  When the host of a room disconnects,
    somebody remains and the first remaining player of the roster has an
    entry in the player index, the handler returns, and then: that player
    is the room's host and has the host flag in the index, the roster has
    lost the leaver only, the leaver's index entry is gone, and the room
    has been sent [playerUpdate] and then [newHost]. *)
Theorem host_leaves_first_remaining_takes_over
    sid s info ref room first rest :
  players s !! sid = Some info →
  getRoom (Info.room info) s = Some (ref, room) →
  Room.host room = sid →
  rosterWithout sid room = first :: rest →
  is_Some (players s !! Player.id first) →
  ∃ s' room',
    disconnect sid s = Ok s'
    ∧ getRoom (Info.room info) s' = Some (ref, room')
    ∧ Room.host room' = Player.id first
    ∧ Room.ids room' = Player.id <$> first :: rest
    ∧ players s' !! sid = None
    ∧ Info.isHost <$> players s' !! Player.id first = Some true
    ∧ Info.room <$> players s' !! Player.id first
      = Info.room <$> players s !! Player.id first
    ∧ ∃ more,
        outbox s'
        = outbox s
          ++ [(ToRoom (Info.room info), playerUpdate (first :: rest));
              (ToRoom (Info.room info), newHost (Player.id first))]
          ++ more.
Proof.
  intros Hp Hroom Hhost Hroster Hfirst.
  destruct (host_leaves_returns _ _ _ _ _ _ _ Hp Hroom Hhost Hroster Hfirst)
    as [s' Hrun].
  destruct (host_leaves_effect _ _ _ _ _ _ _ _ Hp Hroom Hhost Hroster Hrun)
    as (room' & Hrest).
  exists s', room'. by split.
Qed.

Lemma host_leaves_first_remaining_takes_over_witness :
  let s := stateAfter lobbyOfThree in
  ∃ s' room',
    disconnect "A" s = Ok s'
    ∧ getRoom "ABCD" s' = Some (0%nat, room')
    ∧ Room.host room' = "B"
    ∧ Room.ids room' = ["B"; "C"]
    ∧ Info.isHost <$> players s' !! "B" = Some true.
Proof.
  intros s.
  assert (∃ info room first rest,
            players s !! "A" = Some info
            ∧ getRoom (Info.room info) s = Some (0%nat, room)
            ∧ Room.host room = "A"
            ∧ rosterWithout "A" room = first :: rest
            ∧ is_Some (players s !! Player.id first)
            ∧ Info.room info = "ABCD"
            ∧ Player.id first = "B"
            ∧ Player.id <$> rest = ["C"])
    as (info & room & first & rest & Hp & Hroom & Hhost & Hroster & Hidx
        & Hc & Hfirst & Hrest).
  { eexists _, _, _, _. split_and!; try (vm_compute; reflexivity).
    vm_compute. by eexists. }
  destruct (host_leaves_first_remaining_takes_over _ _ _ _ _ _ _
              Hp Hroom Hhost Hroster Hidx)
    as (s' & room' & Hrun & Hroom' & Hhost' & Hids & _ & Hflag & _).
  rewrite Hc in Hroom'. rewrite Hfirst in Hhost', Hflag.
  rewrite fmap_cons, Hfirst, Hrest in Hids.
  exists s', room'.
  split; [exact Hrun|]. split; [exact Hroom'|]. split; [exact Hhost'|].
  split; [exact Hids|exact Hflag].
Defined.
End Rounds.

(** ** The end of a round, answered requests and word locks *)

Section TimeOut.
Import Server Props Invariants Events Roles Timing.

(** X24: the tick that takes the timer to 0 ends the round.  For a room
    that can be looked up, whose interval it is, a tick with at most one
    second left returns, stops the interval and releases the word; it
    then either announces [roundEnded], moves to the next round number
    and schedules [startRound] (3 seconds later), or, after the last
    round, sets the room to 'ended' and announces [gameEnded] with the
    score of every player of the room. *)
Theorem last_tick_ends_the_round h s ref c room gs :
  intervals s !! h = Some (ref, c) →
  getRoom c s = Some (ref, room) →
  Room.timerInterval room = Some h →
  Room.gameState room = Some gs →
  Game.timer gs ≤ 1 →
  ∃ s' room' gs',
    tick h s = Ok s'
    ∧ getRoom c s' = Some (ref, room')
    ∧ Room.gameState room' = Some gs'
    ∧ Game.timer gs' = Game.timer gs - 1
    ∧ intervals s' = delete h (intervals s)
    ∧ (∀ t, WordManager.isWordLocked t (Game.word gs) (activeWords s')
            = false)
    ∧ ((Game.currentRound gs < Game.rounds gs
        ∧ Room.state room' = Room.state room
        ∧ Game.currentRound gs' = Game.currentRound gs + 1
        ∧ timeouts s' = <[nextTimer s := nextRound c]> (timeouts s)
        ∧ last (outbox s') = Some (ToRoom c, roundEnded (Game.scores gs) 3000))
       ∨ (Game.rounds gs ≤ Game.currentRound gs
          ∧ Room.state room' = ended
          ∧ Game.currentRound gs' = Game.currentRound gs
          ∧ timeouts s' = timeouts s
          ∧ last (outbox s')
            = Some (ToRoom c,
                    gameEnded (Game.scores gs)
                      ((λ p, (p, Game.scoreOf (Player.id p) gs))
                         <$> Room.players room)))).
Proof.
  intros Hi Hroom Hti Hgs Hlast.
  pose proof Hroom as [Hc Hh]%getRoom_Some.
  unfold tick. rewrite Hi, Hh, Hgs, Hti.
  rewrite (proj2 (Z.leb_le _ _)) by lia.
  set (gs1 := Game.setTimerHint _ _ gs).
  set (room1 := Room.setGameState (Some gs1) room).
  set (s3 := clearInterval _ _).
  assert (getRoom c s3 = Some (ref, room1)) as Hroom3.
  { apply getRoom_Some. split.
    - unfold s3. simpl. by case_bool_decide.
    - unfold s3. simpl. case_bool_decide; simpl;
        apply list_lookup_insert_eq; by eapply lookup_lt_Some. }
  assert (intervals s3 = delete h (intervals s) ∧ timeouts s3 = timeouts s
          ∧ nextTimer s3 = nextTimer s ∧ activeWords s3 = activeWords s
          ∧ rooms s3 = rooms s ∧ heap s3 = <[ref := room1]> (heap s))
    as (Hi3 & Ht3 & Hn3 & Hw3 & Hr3 & Hh3).
  { unfold s3. simpl. by case_bool_decide. }
  clearbody s3.
  unfold endRound. rewrite Hroom3. simpl Room.gameState. cbv iota beta.
  simpl Room.timerInterval. rewrite Hti. simpl clearInterval.
  assert (∀ t aw, WordManager.isWordLocked t (Game.word gs)
                    (WordManager.releaseWord (Game.word gs) aw) = false)
    as Hfree.
  { intros t aw. unfold WordManager.isWordLocked, WordManager.releaseWord.
    by rewrite lookup_delete_eq. }
  assert (∀ x, <[ref := x]> (heap s3) !! ref = Some x) as Hput.
  { intros x. apply list_lookup_insert_eq. rewrite Hh3, length_insert.
    by eapply lookup_lt_Some. }
  destruct (Game.rounds gs1 <=? Game.currentRound gs1) eqn:Hend.
  - apply Z.leb_le in Hend. simpl in Hend.
    unfold endGame.
    set (s4 := setActiveWords _ _).
    assert (getRoom c s4 = Some (ref, room1)) as ->.
    { apply getRoom_Some. apply getRoom_Some in Hroom3 as [? ?]. by split. }
    simpl. eexists _, _, _. split; [reflexivity|]. split.
    { apply getRoom_Some. simpl. split; [by rewrite Hr3|apply Hput]. }
    simpl. split; [reflexivity|]. split; [done|].
    split; [by rewrite Hi3, delete_delete_eq|].
    split; [intros t; apply Hfree|].
    right. split_and!; try done. by rewrite last_snoc.
  - apply Z.leb_gt in Hend. simpl in Hend.
    eexists _, _, _. split; [reflexivity|]. split.
    { apply getRoom_Some. simpl. split; [by rewrite Hr3|apply Hput]. }
    simpl. split; [reflexivity|]. split; [done|].
    split; [by rewrite Hi3, delete_delete_eq|].
    split; [intros t; apply Hfree|].
    left. split_and!; try done.
    + by rewrite Hn3, Ht3.
    + by rewrite last_snoc.
Qed.

Lemma last_tick_ends_the_round_witness :
  let s := stateAfter (gameOfThree 3 2) in
  ∃ s' room' gs',
    tick 0 s = Ok s'
    ∧ getRoom "ABCD" s' = Some (0%nat, room')
    ∧ Room.gameState room' = Some gs'
    ∧ Game.timer gs' = 1 - 1
    ∧ intervals s' = delete 0%nat (intervals s).
Proof.
  intros s.
  assert (∃ room gs,
            intervals s !! 0%nat = Some (0%nat, "ABCD")
            ∧ getRoom "ABCD" s = Some (0%nat, room)
            ∧ Room.timerInterval room = Some 0%nat
            ∧ Room.gameState room = Some gs
            ∧ Game.timer gs = 1)
    as (room & gs & Hi & Hroom & Hti & Hgs & Htimer).
  { eexists _, _. split_and!; vm_compute; reflexivity. }
  destruct (last_tick_ends_the_round 0 s 0%nat "ABCD" room gs Hi Hroom Hti Hgs)
    as (s' & room' & gs' & Hrun & Hroom' & Hgs' & Htimer' & Hi' & _);
    [rewrite Htimer; lia|].
  rewrite Htimer in Htimer'.
  exists s', room', gs'.
  split; [exact Hrun|]. split; [exact Hroom'|]. split; [exact Hgs'|].
  split; [exact Htimer'|exact Hi'].
Defined.
End TimeOut.

Section Spacing.
Import Server Props Invariants Events Answers AntiCheat.

(** Handlers other than [submitGuess] and [sendChatMessage] leave the
    cooldown stamps alone. *)

Lemma stamps_refl s : SameStamps s s.
Proof. done. Qed.

Lemma stamps_trans s1 s2 s3 :
  SameStamps s1 s2 → SameStamps s2 s3 → SameStamps s1 s3.
Proof. unfold SameStamps. congruence. Qed.

Lemma stamps_clearInterval h s : SameStamps s (clearInterval h s).
Proof. by destruct h. Qed.

Lemma endGame_stamps c s s' : endGame c s = Ok s' → SameStamps s s'.
Proof.
  unfold endGame. destruct (getRoom c s) as [[ref room]|];
    [|by intros [= <-]].
  destruct (Room.gameState room); [|done]. by intros [= <-].
Qed.

Lemma endRound_stamps c s s' : endRound c s = Ok s' → SameStamps s s'.
Proof.
  unfold endRound. destruct (getRoom c s) as [[ref room]|];
    [|by intros [= <-]].
  destruct (Room.gameState room) as [gs|]; [|done].
  destruct (Room.timerInterval room) as [h|]; simpl; case_match;
    try (intros Hend%endGame_stamps; eapply stamps_trans; [|exact Hend]);
    try (intros [= <-]); done.
Qed.

Lemma startRound_stamps wl now dk wk c s s' :
  startRound wl now dk wk c s = Ok s' → SameStamps s s'.
Proof.
  unfold startRound. destruct (getRoom c s) as [[ref room]|];
    [|by intros [= <-]].
  repeat case_match; try done.
  destruct (WordManager.getRandomWord _ _ _ _ _) as [[word words]| |];
    simpl; [|done..].
  by intros [= <-].
Qed.

Lemma tick_stamps h s s' : tick h s = Ok s' → SameStamps s s'.
Proof.
  unfold tick. destruct (intervals s !! h) as [[ref c]|];
    [|by intros [= <-]].
  destruct (heap s !! ref) as [room|]; [|by intros [= <-]].
  destruct (Room.gameState room) as [gs|]; [|done].
  destruct (Room.timerInterval room) as [h'|];
    case_bool_decide; simpl; destruct (_ <=? 0);
    try (intros Hend%endRound_stamps; eapply stamps_trans; [|exact Hend]);
    try (intros [= <-]); done.
Qed.

Lemma fire_stamps wl id now dk wk s s' :
  fire wl id now dk wk s = Ok s' → SameStamps s s'.
Proof.
  unfold fire. destruct (timeouts s !! id) as [[c|c]|];
    [| |by intros [= <-]].
  - intros Hs%endRound_stamps. by eapply stamps_trans; [|exact Hs].
  - intros Hs%startRound_stamps. by eapply stamps_trans; [|exact Hs].
Qed.

Lemma createRoom_stamps sid name avatar draws s s' :
  createRoom sid name avatar draws s = Ok s' → SameStamps s s'.
Proof. by intros [= <-]. Qed.

Lemma joinRoom_stamps sid c name avatar s s' :
  joinRoom sid c name avatar s = Ok s' → SameStamps s s'.
Proof. unfold joinRoom. by repeat case_match; intros [= <-]. Qed.

Lemma updateAvatar_stamps sid avatar s s' :
  updateAvatar sid avatar s = Ok s' → SameStamps s s'.
Proof. unfold updateAvatar. by repeat case_match; intros [= <-]. Qed.

Lemma startGame_stamps wl sid settings now dk wk s s' :
  startGame wl sid settings now dk wk s = Ok s' → SameStamps s s'.
Proof.
  unfold startGame. destruct (players s !! sid) as [info|];
    [|by intros [= <-]].
  destruct (negb _); [by intros [= <-]|].
  destruct (getRoom _ s) as [[ref room]|]; [|by intros [= <-]].
  case_bool_decide; [by intros [= <-]|].
  intros Hs%startRound_stamps. by eapply stamps_trans; [|exact Hs].
Qed.

Lemma drawing_stamps sid data s s' :
  drawing sid data s = Ok s' → SameStamps s s'.
Proof. unfold drawing. by repeat case_match; try done; intros [= <-]. Qed.

Lemma clearCanvas_stamps sid s s' :
  clearCanvas sid s = Ok s' → SameStamps s s'.
Proof.
  unfold clearCanvas. by repeat case_match; try done; intros [= <-].
Qed.

Lemma playAgain_stamps sid s s' : playAgain sid s = Ok s' → SameStamps s s'.
Proof. unfold playAgain. by repeat case_match; try done; intros [= <-]. Qed.

Lemma disconnect_stamps sid s s' : disconnect sid s = Ok s' → SameStamps s s'.
Proof.
  unfold disconnect. destruct (players s !! sid) as [info|];
    [|by intros [= <-]].
  destruct (getRoom _ s) as [[ref room]|]; [|by intros [= <-]].
  destruct (filter _ _) as [|first rest]; [by intros [= <-]|].
  set (s5 := emit _ _ _).
  assert (SameStamps s s5) as H5 by done.
  destruct (bool_decide _).
  - destruct (players s5 !! Player.id first) as [infoh|]; [|done].
    simpl. set (s6 := emit _ _ _).
    assert (SameStamps s5 s6) as H6 by done.
    destruct (_ && _).
    + intros Hs%endRound_stamps. eapply stamps_trans; [exact H5|].
      eapply stamps_trans; [exact H6|].
      eapply stamps_trans; [apply stamps_clearInterval|exact Hs].
    + intros [= <-]. by eapply stamps_trans.
  - simpl. destruct (_ && _).
    + intros Hs%endRound_stamps. eapply stamps_trans; [exact H5|].
      eapply stamps_trans; [apply stamps_clearInterval|exact Hs].
    + by intros [= <-].
Qed.

Lemma stamps_same_grow s s' : SameStamps s s' → StampsGrow s s'.
Proof. intros Hsame q k. unfold stampsOf. by rewrite Hsame. Qed.

Lemma grows_trans s1 s2 s3 :
  StampsGrow s1 s2 → StampsGrow s2 s3 → StampsGrow s1 s3.
Proof. intros H1 H2 q k. etrans; [apply H1|apply H2]. Qed.

(** The two handlers that consult the rate limiter leave it as
    [checkCooldown] left it, and send something only when it allowed the
    request. *)
Lemma sendChatMessage_limited sid text now s s' :
  sendChatMessage sid text now s = Ok s' →
  (antiCheat s' = antiCheat s ∧ outbox s' = outbox s)
  ∨ ∃ v,
      checkCooldown now sid message (antiCheat s) = (v, antiCheat s')
      ∧ (outbox s' ≠ outbox s → allowed v = true).
Proof.
  unfold sendChatMessage. destruct (players s !! sid) as [info|];
    [|intros [= <-]; by left].
  destruct (checkCooldown _ _ _ _) as [v ac] eqn:Hc.
  destruct (allowed v) eqn:Hv; simpl; intros [= <-]; right; exists v;
    split; done.
Qed.

Lemma submitGuess_limited sid guess now draws s s' :
  submitGuess sid guess now draws s = Ok s' →
  (antiCheat s' = antiCheat s ∧ outbox s' = outbox s)
  ∨ ∃ v,
      checkCooldown now sid AntiCheat.guess (antiCheat s)
      = (v, antiCheat s')
      ∧ (outbox s' ≠ outbox s → allowed v = true).
Proof.
  unfold submitGuess. destruct (players s !! sid) as [info|];
    [|intros [= <-]; by left].
  destruct (checkCooldown _ _ _ _) as [v ac] eqn:Hc.
  intros Hrun. right. exists v.
  destruct (allowed v) eqn:Hv; simpl in Hrun;
    [|injection Hrun as <-; by split].
  assert (antiCheat s' = ac) as ->; [|done].
  revert Hrun.
  destruct (getRoom _ _) as [[ref room]|]; [|by intros [= <-]].
  case_bool_decide; [by intros [= <-]|].
  destruct (Room.gameState room) as [gs|]; [|done].
  case_bool_decide; [by intros [= <-]|].
  case_bool_decide; [by intros [= <-]|].
  case_bool_decide; [|by intros [= <-]].
  destruct (maskedGuessOf _ _ _) as [shown|]; simpl; [|done].
  destruct (forallb _ _); intros [= <-];
    try (destruct (Room.timerInterval room)); done.
Qed.

Lemma limited_grows s s' now p ty v :
  checkCooldown now p ty (antiCheat s) = (v, antiCheat s') →
  StampsGrow s s'.
Proof.
  intros Hc q k. pose proof (stamp_grows now p ty (antiCheat s) q k) as Hg.
  by rewrite Hc in Hg.
Qed.

Lemma step_grows wl ev s s' : step wl ev s = Ok s' → StampsGrow s s'.
Proof.
  destruct ev; simpl; intros Hstep.
  - by eapply stamps_same_grow, createRoom_stamps.
  - by eapply stamps_same_grow, joinRoom_stamps.
  - by eapply stamps_same_grow, updateAvatar_stamps.
  - by eapply stamps_same_grow, startGame_stamps.
  - by eapply stamps_same_grow, drawing_stamps.
  - by eapply stamps_same_grow, clearCanvas_stamps.
  - apply submitGuess_limited in Hstep as [[Hac _]|(v & Hc & _)].
    + apply stamps_same_grow. unfold SameStamps. by rewrite Hac.
    + by eapply limited_grows.
  - apply sendChatMessage_limited in Hstep as [[Hac _]|(v & Hc & _)].
    + apply stamps_same_grow. unfold SameStamps. by rewrite Hac.
    + by eapply limited_grows.
  - by eapply stamps_same_grow, playAgain_stamps.
  - by eapply stamps_same_grow, disconnect_stamps.
  - by eapply stamps_same_grow, tick_stamps.
  - by eapply stamps_same_grow, fire_stamps.
Qed.

Lemma run_grows wl evs : ∀ s s', run wl evs s = Ok s' → StampsGrow s s'.
Proof.
  induction evs as [|ev rest IH]; intros s s'; simpl.
  - intros [= <-]. by intros q k.
  - destruct (step wl ev s) as [s1| |] eqn:Hstep; simpl; [|done..].
    intros Hrun. eapply grows_trans; [by eapply step_grows|by apply IH].
Qed.

(** A request that is answered got past the rate limiter at its clock
    reading. *)
Lemma answered_allowed wl ev s s' sid ty now :
  limited ev = Some (sid, ty, now) →
  step wl ev s = Ok s' → outbox s' ≠ outbox s →
  ∃ v, checkCooldown now sid ty (antiCheat s) = (v, antiCheat s')
       ∧ allowed v = true.
Proof.
  destruct ev; simpl; try done; intros [= <- <- <-] Hstep Hout.
  - apply submitGuess_limited in Hstep as [[_ Hsame]|(v & Hc & Hv)];
      [done|]. exists v. split; [done|by apply Hv].
  - apply sendChatMessage_limited in Hstep as [[_ Hsame]|(v & Hc & Hv)];
      [done|]. exists v. split; [done|by apply Hv].
Qed.

(** X25: the cooldown between answered requests.  Take two guesses, or
    two chat messages, of one socket, the second handled any number of
    events after the first, and suppose the server sends something in
    answer to each (a chat message to the room; for a guess the
    [correctGuess] events or the wrong guess shown to the room).  Then the
    clock reading of [checkCooldown] in the second handler is at least
    [LAST_GUESS_TIMEOUT] = 1000 ms after its reading in the first. *)
Theorem answered_requests_a_second_apart
    wl ev1 ev2 evs s1 s1' s2 s2' sid ty t1 t2 :
  limited ev1 = Some (sid, ty, t1) →
  limited ev2 = Some (sid, ty, t2) →
  step wl ev1 s1 = Ok s1' → outbox s1' ≠ outbox s1 →
  run wl evs s1' = Ok s2 →
  step wl ev2 s2 = Ok s2' → outbox s2' ≠ outbox s2 →
  t1 + LAST_GUESS_TIMEOUT ≤ t2.
Proof.
  intros Hl1 Hl2 Hstep1 Hout1 Hrun Hstep2 Hout2.
  destruct (answered_allowed _ _ _ _ _ _ _ Hl1 Hstep1 Hout1)
    as (v1 & Hc1 & Hv1).
  destruct (answered_allowed _ _ _ _ _ _ _ Hl2 Hstep2 Hout2)
    as (v2 & Hc2 & Hv2).
  apply checkCooldown_cases in Hc1 as [_ Hc1]. cbv zeta in Hc1.
  destruct Hc1 as [(Hv' & _)|(_ & Hcd1 & _)]; [congruence|].
  apply checkCooldown_cases in Hc2 as [_ Hc2]. cbv zeta in Hc2.
  destruct Hc2 as [(Hv' & _)|(_ & _ & _ & _ & Hspace)]; [congruence|].
  assert (stamp ty (stampsOf sid (antiCheat s1')) = t1) as Hnow.
  { unfold stampsOf at 1. rewrite Hcd1. simpl. apply stamp_setStamp. }
  pose proof (run_grows _ _ _ _ Hrun sid ty) as Hgrow. lia.
Qed.

(** Bob chats, is turned away half a second later, and chats again a
    second after his first message. *)
Lemma answered_requests_a_second_apart_witness :
  let s1 := stateAfter lobbyOfTwo in
  let s1' := stateAfter (lobbyOfTwo
                         ++ [EvSendChatMessage "B" "hi" 1000000]) in
  let s2 := stateAfter (lobbyOfTwo
                        ++ [EvSendChatMessage "B" "hi" 1000000;
                            EvSendChatMessage "B" "hi" 1000500]) in
  let s2' := stateAfter (lobbyOfTwo
                         ++ [EvSendChatMessage "B" "hi" 1000000;
                             EvSendChatMessage "B" "hi" 1000500;
                             EvSendChatMessage "B" "ho" 1001000]) in
  (length (outbox s1') = S (length (outbox s1)))
  ∧ outbox s2 = outbox s1'
  ∧ (length (outbox s2') = S (length (outbox s2)))
  ∧ 1000000 + LAST_GUESS_TIMEOUT ≤ 1001000.
Proof.
  intros s1 s1' s2 s2'.
  assert (length (outbox s1') = S (length (outbox s1))) as Hn1
    by (vm_compute; reflexivity).
  assert (length (outbox s2') = S (length (outbox s2))) as Hn2
    by (vm_compute; reflexivity).
  split; [exact Hn1|]. split; [vm_compute; reflexivity|].
  split; [exact Hn2|].
  apply (answered_requests_a_second_apart sampleWords
           (EvSendChatMessage "B" "hi" 1000000)
           (EvSendChatMessage "B" "ho" 1001000)
           [EvSendChatMessage "B" "hi" 1000500]
           s1 s1' s2 s2' "B" message).
  - reflexivity.
  - reflexivity.
  - vm_compute. reflexivity.
  - intros Heq. rewrite Heq in Hn1. lia.
  - vm_compute. reflexivity.
  - vm_compute. reflexivity.
  - intros Heq. rewrite Heq in Hn2. lia.
Defined.
End Spacing.

Section Relock.
Import WordManager.

(** X26: the lock does not keep a word from being drawn.  [getRandomWord]
    never consults [activeWords]: after it returned a word, the same
    random outcome returns the same word again at any time, also while
    [isWordLocked] answers true for it. *)
Theorem locked_word_can_be_drawn_again wl now k d aw w aw' now' :
  getRandomWord wl now k d aw = Ok (w, aw') →
  (∃ aw'', getRandomWord wl now' k d aw' = Ok (w, aw''))
  ∧ (now' - now < WORD_LOCK_TIME → isWordLocked now' w aw' = true).
Proof.
  unfold getRandomWord. destruct (listFor wl d) as [l|]; [|done].
  destruct (l !! _) as [w0|]; [|done]. intros [= <- <-].
  split; [by eexists|]. intros Hlt.
  unfold isWordLocked. rewrite lookup_insert_eq. simpl.
  by apply Z.ltb_lt.
Qed.

Lemma locked_word_can_be_drawn_again_witness :
  let wl : gmap string (list string) := {[ "easy" := ["Apple"; "house"] ]} in
  let aw' : gmap string Entry :=
    {[ "apple" := {| timestamp := 1000; difficulty := "easy" |} ]} in
  (∃ aw'', getRandomWord wl 2000 0 "easy" aw' = Ok ("Apple", aw''))
  ∧ isWordLocked 2000 "Apple" aw' = true.
Proof.
  intros wl aw'.
  assert (getRandomWord wl 1000 0 "easy" ∅ = Ok ("Apple", aw')) as Hg
    by (by vm_compute).
  destruct (locked_word_can_be_drawn_again _ _ _ _ _ _ _ 2000 Hg)
    as [Hagain Hlocked].
  split; [exact Hagain|]. apply Hlocked. by vm_compute.
Defined.
End Relock.
